(** * Session lifecycle and execution core of the Python executor service

    A shallow embedding of [src/python-executor/src/code_executor.py] and
    [src/python-executor/src/kernel_manager.py].

    - Python [str] values are Rocq strings that hold the UTF-8 encoding of
      the text, one byte per character of the Rocq string (a lone surrogate
      as its three bytes); prefix, substring and concatenation are those of
      the bytes, and whitespace is recognised on the encoded characters.
      [dict]s are finite maps with string keys.
    - Instants and durations are integers counting microseconds, the
      resolution of [datetime] and [timedelta].
    - Coroutines are computations in a state-and-exception monad over the
      manager object and the world it talks to (clock, backend processes,
      log).  The behaviour of the external collaborators (the interpreter's
      [compile], the Jupyter backends, the file system) is a parameter. *)

From stdpp Require Import gmap strings list fin_maps pretty.
From Stdlib Require Import ZArith Lia Ascii String.

Open Scope string_scope.
Open Scope Z_scope.

Set Warnings "-clear-no-such-hyp".

(** ** Python strings *)

Module PyStr.

(** [s.startswith(p)] *)
Definition startswith (s p : string) : bool := String.prefix p s.

(** [p in s] *)
Fixpoint contains (s p : string) : bool :=
  String.prefix p s ||
  match s with
  | EmptyString => false
  | String _ s' => contains s' p
  end.

(** [c.isspace()] for a character of one byte: tab, line feed, vertical
    tab, form feed, carriage return, the four separators 28..31 and space. *)
Definition isspace (a : ascii) : bool :=
  let n := nat_of_ascii a in
  ((9 <=? n)%nat && (n <=? 13)%nat) || ((28 <=? n)%nat && (n <=? 32)%nat).

(** [c.isspace()] for a character of two bytes: U+0085 (C2 85) and U+00A0
    (C2 A0). *)
Definition isspace2 (a b : ascii) : bool :=
  let n := nat_of_ascii a in
  let m := nat_of_ascii b in
  (n =? 194)%nat && ((m =? 133)%nat || (m =? 160)%nat).

(** [c.isspace()] for a character of three bytes: U+1680 (E1 9A 80),
    U+2000 to U+200A (E2 80 80 to E2 80 8A), U+2028, U+2029 and U+202F
    (E2 80 A8, A9 and AF), U+205F (E2 81 9F) and U+3000 (E3 80 80). *)
Definition isspace3 (a b c : ascii) : bool :=
  let n := nat_of_ascii a in
  let m := nat_of_ascii b in
  let k := nat_of_ascii c in
  ((n =? 225)%nat && (m =? 154)%nat && (k =? 128)%nat)
  || ((n =? 226)%nat && (m =? 128)%nat
      && (((128 <=? k)%nat && (k <=? 138)%nat)
          || (k =? 168)%nat || (k =? 169)%nat || (k =? 175)%nat))
  || ((n =? 226)%nat && (m =? 129)%nat && (k =? 159)%nat)
  || ((n =? 227)%nat && (m =? 128)%nat && (k =? 128)%nat).

(** [s.lstrip()]: the whitespace characters at the start are taken off,
    one, two or three bytes at a time. *)
Fixpoint lstrip (s : string) : string :=
  match s with
  | EmptyString => EmptyString
  | String a s1 =>
      if isspace a then lstrip s1
      else
        match s1 with
        | EmptyString => s
        | String b s2 =>
            if isspace2 a b then lstrip s2
            else
              match s2 with
              | EmptyString => s
              | String c s3 => if isspace3 a b c then lstrip s3 else s
              end
        end
  end.

(** Every character of [s] is whitespace (this includes the empty string). *)
Fixpoint all_space (s : string) : bool :=
  match s with
  | EmptyString => true
  | String a s1 =>
      if isspace a then all_space s1
      else
        match s1 with
        | EmptyString => false
        | String b s2 =>
            if isspace2 a b then all_space s2
            else
              match s2 with
              | EmptyString => false
              | String c s3 => isspace3 a b c && all_space s3
              end
        end
  end.

(** [s.rstrip()]: the text up to the place from which on there is
    whitespace only.  No encoding of a whitespace character starts with a
    continuation byte, so this place lies between two characters. *)
Fixpoint rstrip (s : string) : string :=
  match s with
  | EmptyString => EmptyString
  | String a s1 => if all_space s then EmptyString else String a (rstrip s1)
  end.

(** [s.strip()] *)
Definition strip (s : string) : string := rstrip (lstrip s).

(** [sep.join(parts)] *)
Definition join (sep : string) (parts : list string) : string :=
  String.concat sep parts.

End PyStr.

(** ** Exceptions *)

(** The exception classes the code tells apart; [OtherException] stands for
    any further subclass of [Exception]. *)
Inductive ExnClass :=
| RuntimeError | KeyError | AttributeError | TimeoutError | QueueEmpty
| OtherException
| CancelledError.

(** [isinstance(e, Exception)]: since Python 3.8 [asyncio.CancelledError]
    derives from [BaseException] only. *)
Definition is_Exception (c : ExnClass) : bool :=
  match c with
  | CancelledError => false
  | _ => true
  end.

Record Exn := mkExn { exn_class : ExnClass; exn_str : string }.

Inductive Res (A : Type) :=
| Ok (a : A)
| Raise (e : Exn).
Arguments Ok {A} a.
Arguments Raise {A} e.

(** ** Code Admitter: [CodeExecutor.validate_code] *)

(** What the builtin [compile(code, '<string>', 'exec')] does with a source
    text: it returns a code object, raises [SyntaxError], or raises some
    other exception; the strings are [str(e)]. *)
Inductive CompileOutcome :=
| Compiled
| CompileSyntaxError (msg : string)
| CompileOtherError (msg : string).

Definition dangerous_patterns : list string :=
  [ "os.system"; "subprocess."; "__import__"; "eval("; "exec(" ].

(** The [for pattern in dangerous_patterns] loop: the first pattern that
    occurs in [code], if any. *)
Fixpoint scan_patterns (patterns : list string) (code : string) : option string :=
  match patterns with
  | [] => None
  | pattern :: rest =>
      if PyStr.contains code pattern then Some pattern
      else scan_patterns rest code
  end.

Section Admitter.

Variable compile : string -> CompileOutcome.

Definition validate_code (code : string) : bool * string :=
  if String.eqb code "" || String.eqb (PyStr.strip code) "" then
    (false, "Code cannot be empty")
  else
    match scan_patterns dangerous_patterns code with
    | Some pattern =>
        (false, "Potentially dangerous operation detected: " +:+ pattern)
    | None =>
        match compile code with
        | Compiled => (true, "")
        | CompileSyntaxError msg => (false, "Syntax error: " +:+ msg)
        | CompileOtherError msg => (false, "Validation error: " +:+ msg)
        end
    end.

End Admitter.

(** ** Time *)

(** [datetime] and [timedelta] objects, both with microsecond resolution. *)
Record datetime := Datetime { instant : Z }.
Record timedelta := Timedelta { micros : Z }.

Definition second : Z := 1000000.

(** [timedelta(minutes=n)] *)
Definition timedelta_minutes (n : Z) : timedelta := Timedelta (n * 60 * second).

(** [a - b] on two [datetime]s *)
Definition datetime_sub (a b : datetime) : timedelta :=
  Timedelta (instant a - instant b).

Definition timedelta_ltb (a b : timedelta) : bool := micros a <? micros b.
Definition timedelta_geb (a b : timedelta) : bool := micros b <=? micros a.

(** [td.total_seconds()], kept as an exact count of microseconds. *)
Definition timedelta_total_seconds (td : timedelta) : Z := micros td.

(** [dt.total_seconds()] on a [datetime]: the class has no such method
    (only [timedelta] has), so the attribute lookup raises. *)
Definition datetime_total_seconds (dt : datetime) : Res Z :=
  Raise (mkExn AttributeError
           "'datetime.datetime' object has no attribute 'total_seconds'").

(** ** The backends and the world *)

(** A [jupyter_client.KernelManager] object: a handle on one backend
    process.  [kernel_id] is the identity the object gets when it is
    created. *)
Record KM := mkKM { kernel_id : nat; cwd : string }.

#[global] Instance KM_eq_dec : EqDecision KM.
Proof. solve_decision. Defined.

(** Messages of the iopub channel, as far as the code looks into them. *)
Inductive Msg :=
| MStream (text : string)
| MError (traceback : list string)
| MExecuteResult (text_plain : option string)
| MDisplayData (image_png : option string) (text_plain : option string)
| MStatus (execution_state : string)
| MOther (msg_type : string).

(** One call of [kc.get_iopub_msg(timeout=1)] that does not run into its
    poll timeout: it hands over a message, or raises (this also stands for a
    message that lacks a key the code reads); [delay] is the time the call
    takes. *)
Inductive Poll :=
| PollMsg (delay : Z) (m : Msg)
| PollExn (delay : Z) (msg : string).

(** How the collaborators behave.  A [Some msg] is an exception (an
    instance of [Exception]) whose [str] is [msg]. *)
Record Backend := {
  (** [Path(working_dir).mkdir(parents=True, exist_ok=True)] *)
  mkdir : string -> option string;
  (** [km.start_kernel()] *)
  start_kernel : nat -> option string;
  (** [kc.start_channels()] *)
  start_channels : nat -> option string;
  (** [kc.wait_for_ready()]: how long it takes, and whether it raises *)
  wait_for_ready : nat -> Z * option string;
  (** [km.shutdown_kernel(now=b)] *)
  shutdown_kernel : nat -> bool -> option string;
  (** [kc.execute(code)] *)
  execute : nat -> string -> option string;
  (** the polls that follow a submission before the channel falls silent *)
  iopub : nat -> string -> list Poll;
}.

Inductive Event :=
| EvMkdir (path : string)
| EvStartKernel (k : nat)
| EvStartChannels (k : nat)
| EvWaitForReady (k : nat)
| EvShutdownKernel (k : nat) (now : bool)
| EvExecute (k : nat) (code : string)
| EvGetIopubMsg (k : nat)
| EvCancelTask
| EvAwaitTask.

Inductive Level := INFO | ERROR.

(** How an [await asyncio.sleep(60)] ends: the time has passed, or the task
    was cancelled while it slept. *)
Inductive Wake := Elapsed | Cancelled.

(** The state of the [asyncio.Task] that runs the reaper loop. *)
Inductive TaskState :=
| TaskCreated     (** scheduled, its coroutine has not run yet *)
| TaskSleeping    (** suspended in [await asyncio.sleep(60)] *)
| TaskFinished    (** the coroutine returned *)
| TaskCancelled.  (** cancelled before its coroutine ever ran *)

(** The [KernelManager] object ([self]). *)
Record KernelManager := mkKernelManager {
  kernels : gmap string KM;
  last_activity : gmap string datetime;
  working_dirs : gmap string string;
  timeout : timedelta;
  max_kernels_per_user : Z;
  _cleanup_task : option TaskState;
}.

Record World := mkWorld {
  clock : Z;                       (** what [datetime.now()] reads *)
  next_kernel_id : nat;            (** identity of the next backend object *)
  trace : list Event;              (** calls made to the collaborators *)
  log : list (Level * string);     (** records written to the logger *)
}.

Record Sys := mkSys { self : KernelManager; world : World }.

(** [KernelManager.__init__] *)
Definition init (timeout_minutes max_kernels : Z) : KernelManager :=
  {| kernels := ∅; last_activity := ∅; working_dirs := ∅;
     timeout := timedelta_minutes timeout_minutes;
     max_kernels_per_user := max_kernels;
     _cleanup_task := None |}.

Definition set_kernels (f : gmap string KM -> gmap string KM) (s : Sys) : Sys :=
  mkSys (mkKernelManager (f (kernels (self s))) (last_activity (self s))
           (working_dirs (self s)) (timeout (self s))
           (max_kernels_per_user (self s)) (_cleanup_task (self s)))
        (world s).

Definition set_last_activity
    (f : gmap string datetime -> gmap string datetime) (s : Sys) : Sys :=
  mkSys (mkKernelManager (kernels (self s)) (f (last_activity (self s)))
           (working_dirs (self s)) (timeout (self s))
           (max_kernels_per_user (self s)) (_cleanup_task (self s)))
        (world s).

Definition set_working_dirs
    (f : gmap string string -> gmap string string) (s : Sys) : Sys :=
  mkSys (mkKernelManager (kernels (self s)) (last_activity (self s))
           (f (working_dirs (self s))) (timeout (self s))
           (max_kernels_per_user (self s)) (_cleanup_task (self s)))
        (world s).

Definition set_cleanup_task (t : option TaskState) (s : Sys) : Sys :=
  mkSys (mkKernelManager (kernels (self s)) (last_activity (self s))
           (working_dirs (self s)) (timeout (self s))
           (max_kernels_per_user (self s)) t)
        (world s).

Definition set_world (f : World -> World) (s : Sys) : Sys :=
  mkSys (self s) (f (world s)).

(** ** The monad of coroutines and methods *)

Definition M (A : Type) : Type := Sys -> Res A * Sys.

#[global] Instance M_ret : MRet M := fun A a s => (Ok a, s).

#[global] Instance M_bind : MBind M := fun A B f m s =>
  match m s with
  | (Ok a, s') => f a s'
  | (Raise e, s') => (Raise e, s')
  end.

Definition gets {A} (f : Sys -> A) : M A := fun s => (Ok (f s), s).
Definition modify (f : Sys -> Sys) : M unit := fun s => (Ok tt, f s).
Definition raise {A} (e : Exn) : M A := fun s => (Raise e, s).
Definition lift {A} (r : Res A) : M A := fun s => (r, s).

(** Runs [body] and hands its outcome to the [except] clauses. *)
Definition attempt {A} (body : M A) : M (Res A) :=
  fun s => let (r, s') := body s in (Ok r, s').

(** [try: body finally: fin]; an exception of [fin] replaces the outcome
    of [body]. *)
Definition finally {A} (body : M A) (fin : M unit) : M A :=
  fun s =>
    let (r, s1) := body s in
    match fin s1 with
    | (Ok _, s2) => (r, s2)
    | (Raise e, s2) => (Raise e, s2)
    end.

Definition logger (lvl : Level) (msg : string) : M unit :=
  modify (set_world (fun w =>
    mkWorld (clock w) (next_kernel_id w) (trace w) (log w ++ [(lvl, msg)]))).

Definition emit (ev : Event) : M unit :=
  modify (set_world (fun w =>
    mkWorld (clock w) (next_kernel_id w) (trace w ++ [ev]) (log w))).

(** Time that passes in a wait of [d] microseconds ([asyncio.sleep],
    [wait_for], a poll with its timeout).  The clock is the time elapsed
    since start-up; steps of the wall clock that [datetime.now()] would
    show are left out. *)
Definition elapse (d : Z) : M unit :=
  modify (set_world (fun w =>
    mkWorld (clock w + Z.max 0 d) (next_kernel_id w) (trace w) (log w))).

Definition datetime_now : M datetime :=
  gets (fun s => Datetime (clock (world s))).

(** A call to a collaborator: it is recorded, and raises if the collaborator
    says so.  Two things are left out: the time the call itself blocks (the
    clock moves in the waits only, see [elapse]), and the class of the
    exception, which is that of an [Exception] that is no [RuntimeError]. *)
Definition call (ev : Event) (outcome : option string) : M unit :=
  emit ev;;
  match outcome with
  | None => mret tt
  | Some msg => raise (mkExn OtherException msg)
  end.

(** ** Python dictionaries *)

Module PyDict.

(** [k in d] *)
Definition mem {V} (k : string) (d : gmap string V) : bool :=
  bool_decide (is_Some (d !! k)).

(** [repr(k)], which is what [str] of a [KeyError] shows. *)
Definition key_error (k : string) : Exn :=
  mkExn KeyError ("'" +:+ k +:+ "'").

(** [d[k]] *)
Definition getitem {V} (k : string) (d : gmap string V) : Res V :=
  match d !! k with
  | Some v => Ok v
  | None => Raise (key_error k)
  end.

(** [del d[k]] *)
Definition delitem {V} (k : string) (d : gmap string V) : Res (gmap string V) :=
  match d !! k with
  | Some _ => Ok (delete k d)
  | None => Raise (key_error k)
  end.

(** [list(d.keys())].  A Python dictionary lists its keys in the order of
    their insertion; here they come in the order of the finite map.  The
    order only decides in which order the sessions of a sweep or of a
    shutdown are cleaned up, that is the order of the records in the trace
    and in the log. *)
Definition keys {V} (d : gmap string V) : list string :=
  (map_to_list d).*1.

End PyDict.

(** ** Session Table: [KernelManager] *)

Section SessionTable.

Variable env : Backend.

(** [km.shutdown_kernel(now=b)] *)
Definition km_shutdown_kernel (km : KM) (now : bool) : M unit :=
  call (EvShutdownKernel (kernel_id km) now)
       (shutdown_kernel env (kernel_id km) now).

(** [del self.kernels[user_id]] and its two siblings *)
Definition del_kernels (user_id : string) : M unit :=
  d ← gets (fun s => PyDict.delitem user_id (kernels (self s)));
  d' ← lift d;
  modify (set_kernels (fun _ => d')).

Definition del_last_activity (user_id : string) : M unit :=
  d ← gets (fun s => PyDict.delitem user_id (last_activity (self s)));
  d' ← lift d;
  modify (set_last_activity (fun _ => d')).

Definition del_working_dirs (user_id : string) : M unit :=
  d ← gets (fun s => PyDict.delitem user_id (working_dirs (self s)));
  d' ← lift d;
  modify (set_working_dirs (fun _ => d')).

(** [KernelManager.cleanup_kernel] *)
Definition cleanup_kernel (user_id : string) : M unit :=
  present ← gets (fun s => PyDict.mem user_id (kernels (self s)));
  if present : bool then
    r ← gets (fun s => PyDict.getitem user_id (kernels (self s)));
    km ← lift r;
    finally
      (r ← attempt
             (km_shutdown_kernel km true;;
              logger INFO ("Shut down kernel for user " +:+ user_id));
       match r with
       | Ok _ => mret tt
       | Raise e =>
           if is_Exception (exn_class e) then
             logger ERROR ("Error shutting down kernel for user " +:+ user_id
                           +:+ ": " +:+ exn_str e)
           else raise e
       end)
      (del_kernels user_id;;
       del_last_activity user_id;;
       has_dir ← gets (fun s => PyDict.mem user_id (working_dirs (self s)));
       if has_dir : bool then del_working_dirs user_id else mret tt)
  else mret tt.

(** The [for user_id in ...: await self.cleanup_kernel(user_id)] loops. *)
Fixpoint cleanup_each (user_ids : list string) (announce : bool) : M unit :=
  match user_ids with
  | [] => mret tt
  | user_id :: rest =>
      (if announce then
         logger INFO ("Cleaning up expired kernel for user " +:+ user_id)
       else mret tt);;
      cleanup_kernel user_id;;
      cleanup_each rest announce
  end.

(** [KernelManager.cleanup_expired_kernels] *)
Definition cleanup_expired_kernels : M unit :=
  now ← datetime_now;
  expired_users ← gets (fun s =>
    (filter (fun it => timedelta_geb (datetime_sub now it.2) (timeout (self s)) = true)
            (map_to_list (last_activity (self s)))).*1);
  cleanup_each expired_users true.

(** *** [KernelManager.get_or_create_kernel] *)

(** [sum(1 for uid in self.kernels.keys() if uid.startswith(user_id))] *)
Definition count_user_kernels (user_id : string) (d : gmap string KM) : Z :=
  Z.of_nat (List.length
              (filter (fun uid => PyStr.startswith uid user_id = true)
                      (PyDict.keys d))).

Definition quota_exceeded (user_id : string) (cap : Z) : Exn :=
  mkExn RuntimeError
    ("User " +:+ user_id +:+ " has reached maximum kernel limit ("
     +:+ pretty cap +:+ ")").

Definition start_timeout : Exn :=
  mkExn RuntimeError "Kernel failed to start within 60 seconds".

(** [jupyter_client.KernelManager(kernel_name='python3', cwd=working_dir)]:
    a new object, with an identity no earlier object has. *)
Definition new_kernel_manager (working_dir : string) : M KM :=
  k ← gets (fun s => next_kernel_id (world s));
  modify (set_world (fun w =>
    mkWorld (clock w) (S (next_kernel_id w)) (trace w) (log w)));;
  mret (mkKM k working_dir).

(** The coroutine suspends once, in [await asyncio.wait_for(...)].  What
    runs before that point either settles the call (an existing kernel is
    handed back, or an exception is raised) or leaves a started backend to
    wait for. *)
Inductive Resolved :=
| Existing (km : KM)
| Starting (km : KM).

(** Lines 69 to 79: the kernel of the owner if there is one that is not
    past its idle timeout; one that is past it is cleaned up. *)
Definition lookup_live (user_id : string) : M (option KM) :=
  present ← gets (fun s => PyDict.mem user_id (kernels (self s)));
  if present : bool then
    now ← datetime_now;
    r ← gets (fun s => PyDict.getitem user_id (last_activity (self s)));
    last ← lift r;
    idle_timeout ← gets (fun s => timeout (self s));
    if timedelta_ltb (datetime_sub now last) idle_timeout then
      now' ← datetime_now;
      modify (set_last_activity (<[user_id := now']>));;
      logger INFO ("Reusing kernel for user " +:+ user_id);;
      r ← gets (fun s => PyDict.getitem user_id (kernels (self s)));
      km ← lift r;
      mret (Some km)
    else
      logger INFO ("Kernel expired for user " +:+ user_id
                   +:+ ", creating new one");;
      cleanup_kernel user_id;;
      mret None
  else mret None.

(** Lines 81 to 101: the quota check, the working directory, the new
    backend and its channels. *)
Definition start_backend (user_id working_dir : string) : M KM :=
  user_kernel_count ← gets (fun s =>
    count_user_kernels user_id (kernels (self s)));
  cap ← gets (fun s => max_kernels_per_user (self s));
  if cap <=? user_kernel_count then raise (quota_exceeded user_id cap)
  else
    call (EvMkdir working_dir) (mkdir env working_dir);;
    logger INFO ("Creating new kernel for user " +:+ user_id +:+ " in "
                 +:+ working_dir);;
    km ← new_kernel_manager working_dir;
    call (EvStartKernel (kernel_id km)) (start_kernel env (kernel_id km));;
    call (EvStartChannels (kernel_id km))
         (start_channels env (kernel_id km));;
    mret km.

(** Lines 69 to 101. *)
Definition get_or_create_kernel_begin (user_id working_dir : string) : M Resolved :=
  reused ← lookup_live user_id;
  match reused with
  | Some km => mret (Existing km)
  | None =>
      km ← start_backend user_id working_dir;
      mret (Starting km)
  end.

(** [asyncio.wait_for(loop.run_in_executor(None, kc.wait_for_ready),
    timeout=60)] *)
Definition wait_until_ready (km : KM) : M unit :=
  emit (EvWaitForReady (kernel_id km));;
  let (d, outcome) := wait_for_ready env (kernel_id km) in
  if d <? 60 * second then
    elapse d;;
    match outcome with
    | None => mret tt
    | Some msg => raise (mkExn OtherException msg)
    end
  else
    elapse (60 * second);;
    raise (mkExn TimeoutError "").

Definition quote : string := String (ascii_of_nat 34) EmptyString.
Definition newline : string := String (ascii_of_nat 10) EmptyString.

Definition init_code : string :=
  newline +:+ PyStr.join newline
    [ "import polars as pl";
      "import pandas as pd";
      "import matplotlib";
      "matplotlib.use('Agg')  # Non-interactive backend";
      "import matplotlib.pyplot as plt";
      "import jieba";
      "import os";
      "import sys";
      "from pathlib import Path";
      "";
      "# Set Chinese font support";
      "plt.rcParams['font.sans-serif'] = ['SimHei', 'DejaVu Sans']";
      "plt.rcParams['axes.unicode_minus'] = False";
      "";
      "print(" +:+ quote +:+ "✓ Environment initialized successfully"
        +:+ quote +:+ ")";
      "" ].

Definition init_timeout : Z := 30 * second.
Definition poll_interval : Z := 1 * second.

Definition is_idle (m : Msg) : bool :=
  match m with
  | MStatus execution_state => String.eqb execution_state "idle"
  | _ => false
  end.

(** The bootstrap loop once the channel has fallen silent: every
    [get_iopub_msg(timeout=1)] takes its full second and raises, which the
    loop ignores.  [fuel] bounds the number of such polls; thirty of them
    use up [init_timeout]. *)
Fixpoint init_wait_silent (fuel : nat) (start_time : datetime) (km : KM) : M unit :=
  now ← datetime_now;
  if timedelta_total_seconds (datetime_sub now start_time) <? init_timeout then
    match fuel with
    | O => mret tt
    | S fuel' =>
        emit (EvGetIopubMsg (kernel_id km));;
        elapse poll_interval;;
        init_wait_silent fuel' start_time km
    end
  else mret tt.

(** Lines 138 to 145. *)
Fixpoint init_wait (polls : list Poll) (start_time : datetime) (km : KM) : M unit :=
  match polls with
  | [] => init_wait_silent 30 start_time km
  | p :: rest =>
      now ← datetime_now;
      if timedelta_total_seconds (datetime_sub now start_time) <? init_timeout then
        emit (EvGetIopubMsg (kernel_id km));;
        match p with
        | PollMsg d m =>
            elapse (Z.min d poll_interval);;
            if is_idle m then mret tt else init_wait rest start_time km
        | PollExn d _ =>
            elapse (Z.min d poll_interval);;
            init_wait rest start_time km
        end
      else mret tt
  end.

(** Lines 103 to 110. *)
Definition await_ready (km : KM) : M unit :=
  r ← attempt (wait_until_ready km);
  match r with
  | Ok _ => mret tt
  | Raise e =>
      match exn_class e with
      | TimeoutError =>
          km_shutdown_kernel km false;;
          raise start_timeout
      | _ => raise e
      end
  end.

(** Lines 112 to 145. *)
Definition bootstrap (km : KM) : M unit :=
  call (EvExecute (kernel_id km) init_code) (execute env (kernel_id km) init_code);;
  start_time ← datetime_now;
  init_wait (iopub env (kernel_id km) init_code) start_time km.

(** Lines 147 to 153. *)
Definition register (user_id working_dir : string) (km : KM) : M KM :=
  modify (set_kernels (<[user_id := km]>));;
  now ← datetime_now;
  modify (set_last_activity (<[user_id := now]>));;
  modify (set_working_dirs (<[user_id := working_dir]>));;
  logger INFO ("Kernel created successfully for user " +:+ user_id);;
  mret km.

(** Lines 103 to 153. *)
Definition get_or_create_kernel_resume
    (user_id working_dir : string) (km : KM) : M KM :=
  await_ready km;;
  bootstrap km;;
  register user_id working_dir km.

(** The coroutine when nothing else runs while it is suspended. *)
Definition get_or_create_kernel (user_id working_dir : string) : M KM :=
  r ← get_or_create_kernel_begin user_id working_dir;
  match r with
  | Existing km => mret km
  | Starting km => get_or_create_kernel_resume user_id working_dir km
  end.

(** *** Idle Reaper: [KernelManager._periodic_cleanup] *)

Definition cancelled_error : Exn := mkExn CancelledError "".

(** [await asyncio.sleep(60)] *)
Definition asyncio_sleep (w : Wake) : M unit :=
  match w with
  | Elapsed => elapse (60 * second)
  | Cancelled => raise cancelled_error
  end.

(** One turn of the [while True] loop around a sweep; the answer says
    whether the loop goes on ([break] gives [false]). *)
Definition periodic_cleanup_turn (sweep : M unit) (w : Wake) : M bool :=
  r ← attempt (asyncio_sleep w;; sweep);
  match r with
  | Ok _ => mret true
  | Raise e =>
      match exn_class e with
      | CancelledError => mret false
      | _ =>
          if is_Exception (exn_class e) then
            logger ERROR ("Error in cleanup task: " +:+ exn_str e);;
            mret true
          else raise e
      end
  end.

(** The loop along the successive ends of its sleeps.  When they are used
    up the coroutine is suspended in its next sleep; after a [break] it has
    returned. *)
Fixpoint periodic_cleanup_loop (sweep : M unit) (wakes : list Wake) : M TaskState :=
  match wakes with
  | [] => mret TaskSleeping
  | w :: rest =>
      again ← periodic_cleanup_turn sweep w;
      if again : bool then periodic_cleanup_loop sweep rest
      else mret TaskFinished
  end.

Definition _periodic_cleanup (wakes : list Wake) : M TaskState :=
  periodic_cleanup_loop cleanup_expired_kernels wakes.

(** [KernelManager.start_cleanup_task] *)
Definition start_cleanup_task : M unit :=
  task ← gets (fun s => _cleanup_task (self s));
  match task with
  | None => modify (set_cleanup_task (Some TaskCreated))
  | Some _ => mret tt
  end.

(** The event loop lets the reaper task run along [wakes]. *)
Definition run_cleanup_task (wakes : list Wake) : M unit :=
  task ← gets (fun s => _cleanup_task (self s));
  match task with
  | Some TaskCreated | Some TaskSleeping =>
      st ← _periodic_cleanup wakes;
      modify (set_cleanup_task (Some st))
  | _ => mret tt
  end.

(** [self._cleanup_task.cancel()] and then [await self._cleanup_task], with
    no suspension in between.
    - A task whose coroutine never ran is cancelled without running it,
      and awaiting it raises [CancelledError].
    - A task suspended in its sleep is resumed with [CancelledError]
      raised there, runs until it returns, and the [await] returns.
    - A task that is done ignores [cancel()]. *)
Definition cancel_and_await (task : TaskState) : M unit :=
  emit EvCancelTask;;
  emit EvAwaitTask;;
  match task with
  | TaskCreated =>
      modify (set_cleanup_task (Some TaskCancelled));;
      raise cancelled_error
  | TaskSleeping =>
      st ← _periodic_cleanup [Cancelled];
      modify (set_cleanup_task (Some st))
  | TaskFinished => mret tt
  | TaskCancelled => raise cancelled_error
  end.

(** [KernelManager.shutdown_all] *)
Definition shutdown_all : M unit :=
  logger INFO "Shutting down all kernels...";;
  user_ids ← gets (fun s => PyDict.keys (kernels (self s)));
  cleanup_each user_ids false;;
  task ← gets (fun s => _cleanup_task (self s));
  match task with
  | None => mret tt
  | Some t =>
      r ← attempt (cancel_and_await t);
      match r with
      | Ok _ => mret tt
      | Raise e =>
          match exn_class e with
          | CancelledError => mret tt
          | _ => raise e
          end
      end
  end.

(** *** The operations on the table *)

Inductive Op :=
| Resolve (user_id working_dir : string)
| ResolveBegin (user_id working_dir : string)
| ResolveResume (user_id working_dir : string) (km : KM)
| Destroy (user_id : string)
| Sweep
| DestroyAll
| StartReaper
| RunReaper (wakes : list Wake).

(** An operation as its caller sees the table afterwards: the value and a
    raised exception go to the caller, the state stays. *)
Definition run_op (op : Op) (s : Sys) : Sys :=
  match op with
  | Resolve u wd => (get_or_create_kernel u wd s).2
  | ResolveBegin u wd => (get_or_create_kernel_begin u wd s).2
  | ResolveResume u wd km => (get_or_create_kernel_resume u wd km s).2
  | Destroy u => (cleanup_kernel u s).2
  | Sweep => (cleanup_expired_kernels s).2
  | DestroyAll => (shutdown_all s).2
  | StartReaper => (start_cleanup_task s).2
  | RunReaper wakes => (run_cleanup_task wakes s).2
  end.

Definition run_ops (ops : list Op) (s : Sys) : Sys :=
  fold_left (fun s op => run_op op s) ops s.

End SessionTable.

(** The service at start-up. *)
Definition boot (timeout_minutes max_kernels : Z) : Sys :=
  mkSys (init timeout_minutes max_kernels) (mkWorld 0 0 [] []).

(** The states the table can be in: those that operations lead to from
    start-up, whatever the collaborators do. *)
Inductive reachable : Sys -> Prop :=
| reachable_boot timeout_minutes max_kernels :
    reachable (boot timeout_minutes max_kernels)
| reachable_step env op s :
    reachable s -> reachable (run_op env op s).

(** ** Execution Coordinator: [CodeExecutor.execute_code] *)

Record ExecutionResult := mkExecutionResult {
  success : bool;
  output : string;
  error : string;
  result : option string;
  plots : list string;
  execution_time : Z;
}.

(** The local variables the loop fills in. *)
Record Collected := mkCollected {
  output_parts : list string;
  error_parts : list string;
  last_result : option string;
  plot_list : list string;
  ok : bool;
}.

(** The [if msg_type == ...] chain; the boolean says whether the loop is
    left ([break]). *)
Definition classify (m : Msg) (c : Collected) : Collected * bool :=
  match m with
  | MStream text =>
      (mkCollected (output_parts c ++ [text]) (error_parts c) (last_result c)
         (plot_list c) (ok c), false)
  | MError traceback =>
      (mkCollected (output_parts c)
         (error_parts c ++ [PyStr.join newline traceback])
         (last_result c) (plot_list c) false, false)
  | MExecuteResult text_plain =>
      (mkCollected (output_parts c) (error_parts c)
         (Some (default "" text_plain)) (plot_list c) (ok c), false)
  | MDisplayData (Some png) _ =>
      (mkCollected (output_parts c) (error_parts c) (last_result c)
         (plot_list c ++ [png]) (ok c), false)
  | MDisplayData None (Some text) =>
      (mkCollected (output_parts c ++ [text]) (error_parts c) (last_result c)
         (plot_list c) (ok c), false)
  | MDisplayData None None => (c, false)
  | MStatus execution_state => (c, String.eqb execution_state "idle")
  | MOther _ => (c, false)
  end.

(** Lines 58 to 61. *)
Definition timed_out (timeout : Z) (c : Collected) : Collected :=
  mkCollected (output_parts c)
    (error_parts c ++ ["Execution timeout (" +:+ pretty timeout +:+ "s)"])
    (last_result c) (plot_list c) false.

(** The [except Exception as e] clause of the inner [try]. *)
Definition receive_failed (msg : string) : M unit :=
  if negb (PyStr.contains msg "Timeout") then
    logger ERROR ("Error receiving message: " +:+ msg)
  else mret tt.

Section Coordinator.

Variable env : Backend.

(** The [while True] loop.  It ends by a [break], with what was collected,
    or by an exception, which the outer [try] receives together with what
    was collected until then.  The loop first runs along the polls the
    backend answers; once the channel has fallen silent every poll takes
    its full second and raises [queue.Empty], whose [str] is empty, and
    [fuel] bounds the number of these polls. *)
Fixpoint collect_silent (fuel : nat) (km : KM) (timeout deadline : Z)
    (c : Collected) : M (Collected * option Exn) :=
  now ← datetime_now;
  r ← attempt (lift (datetime_total_seconds now));
  match r with
  | Raise e => mret (c, Some e)
  | Ok t =>
      if deadline <? t then mret (timed_out timeout c, None)
      else
        match fuel with
        | O => mret (c, None)
        | S fuel' =>
            emit (EvGetIopubMsg (kernel_id km));;
            elapse poll_interval;;
            receive_failed "";;
            collect_silent fuel' km timeout deadline c
        end
  end.

Fixpoint collect (polls : list Poll) (km : KM) (timeout deadline : Z)
    (c : Collected) : M (Collected * option Exn) :=
  match polls with
  | [] => collect_silent (Z.to_nat (timeout + 1)) km timeout deadline c
  | p :: rest =>
      now ← datetime_now;
      r ← attempt (lift (datetime_total_seconds now));
      match r with
      | Raise e => mret (c, Some e)
      | Ok t =>
          if deadline <? t then mret (timed_out timeout c, None)
          else
            emit (EvGetIopubMsg (kernel_id km));;
            match p with
            | PollMsg d m =>
                elapse (Z.min d poll_interval);;
                let (c', stop) := classify m c in
                if stop : bool then mret (c', None)
                else collect rest km timeout deadline c'
            | PollExn d msg =>
                elapse (Z.min d poll_interval);;
                receive_failed msg;;
                collect rest km timeout deadline c
            end
      end
  end.

Definition execute_code (km : KM) (code : string) (timeout : Z)
    : M ExecutionResult :=
  start_time ← datetime_now;
  call (EvExecute (kernel_id km) code) (execute env (kernel_id km) code);;
  let c0 := mkCollected [] [] None [] true in
  now ← datetime_now;
  t ← lift (datetime_total_seconds now);
  let deadline := t + timeout * second in
  '(c, raised) ← collect (iopub env (kernel_id km) code) km timeout deadline c0;
  c ← match raised with
      | None => mret c
      | Some e =>
          if is_Exception (exn_class e) then
            logger ERROR ("Unexpected error during execution: " +:+ exn_str e);;
            mret (mkCollected (output_parts c)
                    (error_parts c ++ ["Unexpected error: " +:+ exn_str e])
                    (last_result c) (plot_list c) false)
          else raise e
      end;
  now ← datetime_now;
  let execution_time := timedelta_total_seconds (datetime_sub now start_time) in
  mret (mkExecutionResult (ok c)
          (PyStr.strip (PyStr.join newline (output_parts c)))
          (PyStr.strip (PyStr.join newline (error_parts c)))
          (last_result c) (plot_list c) execution_time).

End Coordinator.

(** ** Introspection: [KernelManager.get_kernel_info] *)

Record KernelInfo := mkKernelInfo {
  info_kernel_id : nat;
  info_created_at : string;
  info_working_dir : string;
  info_status : string;
}.

Section Introspection.

(** [km.is_alive()] on the backend with a given identity *)
Variable is_alive : nat -> bool.

(** [datetime.isoformat] *)
Variable isoformat : datetime -> string.

(** The value the comprehension builds for one item of [self.kernels]. *)
Definition kernel_info_entry (mgr : KernelManager) (user_id : string) (km : KM)
    : Res KernelInfo :=
  match PyDict.getitem user_id (last_activity mgr) with
  | Raise e => Raise e
  | Ok t =>
      Ok (mkKernelInfo (kernel_id km) (isoformat t)
            (default "unknown" (working_dirs mgr !! user_id))
            (if is_alive (kernel_id km) then "active" else "dead"))
  end.

(** The comprehension along the items: the first item whose timestamp is
    missing ends it with a [KeyError]. *)
Fixpoint kernel_info_items (mgr : KernelManager) (items : list (string * KM))
    : Res (list (string * KernelInfo)) :=
  match items with
  | [] => Ok []
  | (user_id, km) :: rest =>
      match kernel_info_entry mgr user_id km with
      | Raise e => Raise e
      | Ok info =>
          match kernel_info_items mgr rest with
          | Raise e => Raise e
          | Ok infos => Ok ((user_id, info) :: infos)
          end
      end
  end.

Definition get_kernel_info : M (gmap string KernelInfo) :=
  r ← gets (fun s => kernel_info_items (self s) (map_to_list (kernels (self s))));
  infos ← lift r;
  mret (list_to_map infos).

End Introspection.

(** ** The service: [main.py] *)

Record ExecuteRequest := mkExecuteRequest {
  req_user_id : string;
  req_code : string;
  req_working_dir : string;
  req_timeout : Z;
}.

Record HealthResponse := mkHealthResponse {
  health_status : string;
  active_kernels : nat;
  health_version : string;
}.

(** What an endpoint hands to the framework: a value to send back, or an
    [HTTPException]. *)
Inductive Reply (A : Type) :=
| Replied (a : A)
| HTTPException (status_code : Z) (detail : string).
Arguments Replied {A} a.
Arguments HTTPException {A} status_code detail.

(** The module-level [KernelManager(timeout_minutes=KERNEL_TIMEOUT // 60,
    max_kernels_per_user=MAX_KERNELS)], given the two integers read from the
    environment. *)
Definition configured (KERNEL_TIMEOUT MAX_KERNELS : Z) : Sys :=
  boot (KERNEL_TIMEOUT / 60) MAX_KERNELS.

(** [str(b)] *)
Definition str_bool (b : bool) : string := if b then "True" else "False".

Section Service.

Variable env : Backend.
Variable compile : string -> CompileOutcome.
Variable is_alive : nat -> bool.
Variable isoformat : datetime -> string.

(** [f"{t:.2f}"] on a number of seconds, given in microseconds *)
Variable format_2f : Z -> string.

(** [os.getenv('NODE_ENV')] *)
Variable NODE_ENV : option string.

(** [POST /execute] *)
Definition execute_endpoint (request : ExecuteRequest) : M (Reply ExecutionResult) :=
  logger INFO ("Execute request from user " +:+ req_user_id request);;
  let (is_valid, error_msg) := validate_code compile (req_code request) in
  if negb is_valid then
    mret (HTTPException 400 ("Code validation failed: " +:+ error_msg))
  else
    r ← attempt
          (km ← get_or_create_kernel env (req_user_id request)
                  (req_working_dir request);
           result ← execute_code env km (req_code request) (req_timeout request);
           logger INFO ("Execution completed for user " +:+ req_user_id request
                        +:+ ": success=" +:+ str_bool (success result)
                        +:+ ", time=" +:+ format_2f (execution_time result)
                        +:+ "s");;
           mret result);
    match r with
    | Ok result => mret (Replied result)
    | Raise e =>
        match exn_class e with
        | RuntimeError =>
            logger ERROR ("Runtime error for user " +:+ req_user_id request
                          +:+ ": " +:+ exn_str e);;
            mret (HTTPException 500 (exn_str e))
        | _ =>
            if is_Exception (exn_class e) then
              logger ERROR ("Unexpected error for user " +:+ req_user_id request
                            +:+ ": " +:+ exn_str e);;
              mret (HTTPException 500 ("Execution failed: " +:+ exn_str e))
            else raise e
        end
    end.

(** [GET /health] *)
Definition health_check : M HealthResponse :=
  n ← gets (fun s => size (kernels (self s)));
  mret (mkHealthResponse "ok" n "0.1.0").

(** [GET /kernels] *)
Definition get_kernels : M (Reply (nat * gmap string KernelInfo)) :=
  if bool_decide (NODE_ENV = Some "production") then
    mret (HTTPException 404 "Not found")
  else
    kernel_info ← get_kernel_info is_alive isoformat;
    mret (Replied (size kernel_info, kernel_info)).

(** [lifespan]: what runs before the [yield], the change [serving] that the
    requests and the reaper make to the state while the generator is
    suspended, and what runs after the [yield]. *)
Definition lifespan (KERNEL_TIMEOUT MAX_KERNELS : Z) (serving : Sys -> Sys)
    : M unit :=
  logger INFO "Starting Python Executor service...";;
  start_cleanup_task;;
  logger INFO ("Kernel timeout: " +:+ pretty KERNEL_TIMEOUT
               +:+ "s, Max kernels per user: " +:+ pretty MAX_KERNELS);;
  modify serving;;
  logger INFO "Shutting down Python Executor service...";;
  shutdown_all env;;
  logger INFO "Shutdown complete".

End Service.

(** A [compile] for the examples: it accepts every text but one with an
    unclosed string literal after an opening parenthesis. *)
Definition toy_compile (code : string) : CompileOutcome :=
  if PyStr.contains code "('unclosed" then
    CompileSyntaxError "unterminated string literal"
  else Compiled.

(** ** Vocabulary of the properties *)

(** The three dictionaries of the manager agree on their owners: a handle
    has a timestamp and a timestamp has a handle, and a working directory
    is recorded only for an owner with a handle. *)
Definition table_inv (s : Sys) : Prop :=
  dom (kernels (self s)) = dom (last_activity (self s)) ∧
  dom (working_dirs (self s)) ⊆ dom (kernels (self s)).

(** The sessions registered under an owner: the items of [self.kernels]
    whose key is the owner. *)
Definition sessions_of (user_id : string) (s : Sys) : list (string * KM) :=
  filter (fun it => it.1 = user_id) (map_to_list (kernels (self s))).

(** Every handle in the table was created before now. *)
Definition ids_fresh (s : Sys) : Prop :=
  ∀ u km, kernels (self s) !! u = Some km →
          (kernel_id km < next_kernel_id (world s))%nat.

(** The table without the entries of an owner. *)
Definition forget (user_id : string) (s : Sys) : Sys :=
  set_working_dirs (delete user_id)
    (set_last_activity (delete user_id) (set_kernels (delete user_id) s)).

(** The world after a call [ev] to a collaborator and a log record. *)
Definition noted (ev : Event) (entry : Level * string) (s : Sys) : Sys :=
  set_world (fun w =>
    mkWorld (clock w) (next_kernel_id w) (trace w ++ [ev]) (log w ++ [entry])) s.

(** What [cleanup_kernel] writes to the log after the shutdown call. *)
Definition shutdown_record (env : Backend) (user_id : string) (km : KM)
    : Level * string :=
  match shutdown_kernel env (kernel_id km) true with
  | None => (INFO, "Shut down kernel for user " +:+ user_id)
  | Some msg =>
      (ERROR, "Error shutting down kernel for user " +:+ user_id +:+ ": " +:+ msg)
  end.

(** What [cleanup_kernel] leaves behind. *)
Definition destroyed (env : Backend) (user_id : string) (s : Sys) : Sys :=
  match kernels (self s) !! user_id with
  | Some km =>
      forget user_id (noted (EvShutdownKernel (kernel_id km) true)
                            (shutdown_record env user_id km) s)
  | None => s
  end.

(** [s'] has the table of [s] without the entries of the owners in [us],
    and differs from [s] in nothing else but the trace and the log. *)
Definition removed (us : list string) (s s' : Sys) : Prop :=
  (∀ v, kernels (self s') !! v
        = if bool_decide (v ∈ us) then None else kernels (self s) !! v) ∧
  (∀ v, last_activity (self s') !! v
        = if bool_decide (v ∈ us) then None else last_activity (self s) !! v) ∧
  (∀ v, working_dirs (self s') !! v
        = if bool_decide (v ∈ us) then None else working_dirs (self s) !! v) ∧
  timeout (self s') = timeout (self s) ∧
  max_kernels_per_user (self s') = max_kernels_per_user (self s) ∧
  _cleanup_task (self s') = _cleanup_task (self s) ∧
  clock (world s') = clock (world s) ∧
  next_kernel_id (world s') = next_kernel_id (world s).

(** A computation that leaves the manager object alone. *)
Definition world_only {A} (m : M A) : Prop := ∀ s, self (m s).2 = self s.

(** A computation that leaves the manager object alone and makes no new
    handle. *)
Definition quiet {A} (m : M A) : Prop :=
  ∀ s, self (m s).2 = self s ∧
       next_kernel_id (world (m s).2) = next_kernel_id (world s).

(** A computation that keeps the dictionaries in agreement. *)
Definition keeps_inv {A} (m : M A) : Prop :=
  ∀ s, table_inv s → table_inv (m s).2.

(** The state in which [lookup_live] hands back the kernel of an owner. *)
Definition reused (user_id : string) (s : Sys) : Sys :=
  (logger INFO ("Reusing kernel for user " +:+ user_id)
     (set_last_activity (<[user_id := Datetime (clock (world s))]>) s)).2.

(** The state in which [lookup_live] has cleaned up the expired kernel of
    an owner. *)
Definition expired (env : Backend) (user_id : string) (s : Sys) : Sys :=
  destroyed env user_id
    (logger INFO ("Kernel expired for user " +:+ user_id
                  +:+ ", creating new one") s).2.

(** The kernel of the owner is not past its idle timeout. *)
Definition live (user_id : string) (s : Sys) : Prop :=
  match last_activity (self s) !! user_id with
  | Some t => clock (world s) - instant t < micros (timeout (self s))
  | None => False
  end.

#[global] Instance live_dec u s : Decision (live u s).
Proof. unfold live. destruct (last_activity (self s) !! u); apply _. Defined.

(** A computation that raises instances of [Exception] only. *)
Definition raises_Exception {A} (m : M A) : Prop :=
  ∀ s e s', m s = (Raise e, s') → is_Exception (exn_class e) = true.

(** A reaper task that is no longer running. *)
Definition stopped (t : TaskState) : Prop :=
  t = TaskFinished ∨ t = TaskCancelled.

(** A sweep that always fails. *)
Definition failing_sweep : M unit := raise (mkExn RuntimeError "boom").

(** A computation that raises only exceptions with the property [P]. *)
Definition raises_only {A} (P : Exn → Prop) (m : M A) : Prop :=
  ∀ s e s', m s = (Raise e, s') → P e.

(** The exceptions that can come up once the quota check has passed: what
    a collaborator raised, or the start timeout. *)
Definition after_quota (e : Exn) : Prop :=
  exn_class e = OtherException ∨ e = start_timeout.

(** The state in which [register] leaves the table. *)
Definition registered (user_id working_dir : string) (km : KM) (s : Sys) : Sys :=
  (logger INFO ("Kernel created successfully for user " +:+ user_id)
     (set_working_dirs (<[user_id := working_dir]>)
        (set_last_activity (<[user_id := Datetime (clock (world s))]>)
           (set_kernels (<[user_id := km]>) s)))).2.

(** An operation that runs from its start to its end with nothing in
    between, as opposed to one half of [get_or_create_kernel]. *)
Definition sequential (op : Op) : Prop :=
  match op with
  | ResolveBegin _ _ | ResolveResume _ _ _ => False
  | _ => True
  end.

(** From [s] to [s'] the table has got no new handle and the counter of
    identities has not gone back. *)
Definition shrinks (s s' : Sys) : Prop :=
  (∀ u km, kernels (self s') !! u = Some km → kernels (self s) !! u = Some km) ∧
  (next_kernel_id (world s) ≤ next_kernel_id (world s'))%nat.

Definition shrinking {A} (m : M A) : Prop :=
  ∀ s, table_inv s → shrinks s (m s).2.

#[global] Instance table_inv_dec s : Decision (table_inv s).
Proof. unfold table_inv. apply _. Defined.

(** ** Collaborators and states for the examples *)

(** Every call succeeds; a backend is ready after two seconds and answers a
    submission with three messages. *)
Definition calm : Backend :=
  {| mkdir := fun _ => None;
     start_kernel := fun _ => None;
     start_channels := fun _ => None;
     wait_for_ready := fun _ => (2 * second, None);
     shutdown_kernel := fun _ _ => None;
     execute := fun _ _ => None;
     iopub := fun _ _ =>
       [ PollMsg 0 (MStatus "busy"); PollMsg 100 (MStream "ok");
         PollMsg 0 (MStatus "idle") ] |}.

(** As [calm], but shutting a backend down raises. *)
Definition stubborn : Backend :=
  {| mkdir := mkdir calm;
     start_kernel := start_kernel calm;
     start_channels := start_channels calm;
     wait_for_ready := wait_for_ready calm;
     shutdown_kernel := fun _ _ => Some "kernel is gone";
     execute := execute calm;
     iopub := iopub calm |}.

(** As [calm], but no backend becomes ready within the sixty seconds. *)
Definition sluggish : Backend :=
  {| mkdir := mkdir calm;
     start_kernel := start_kernel calm;
     start_channels := start_channels calm;
     wait_for_ready := fun _ => (61 * second, None);
     shutdown_kernel := shutdown_kernel calm;
     execute := execute calm;
     iopub := iopub calm |}.

(** One session, of owner "alice", on a service with an idle timeout of 30
    minutes and a cap of 3. *)
Definition one_session : Sys :=
  run_ops calm [StartReaper; Resolve "alice" "/data/alice"] (boot 30 3).

(** The only session, on a service with a cap of 1, belongs to "anna". *)
Definition anna_only : Sys :=
  run_ops calm [Resolve "anna" "/data/anna"] (boot 30 1).

(** A service with an idle timeout of one minute: the session of "alice" is
    a minute old, because a backend for "bob" took that long and failed. *)
Definition stale : Sys :=
  run_ops sluggish [Resolve "bob" "/data/bob"]
    (run_ops calm [Resolve "alice" "/data/alice"] (boot 1 3)).

(** A service with an idle timeout of one minute and a cap of 1: the
    session of "ann" is more than a minute old, that of "anna" is new. *)
Definition crowded : Sys :=
  run_ops calm [Resolve "anna" "/data/anna"]
    (run_ops sluggish [Resolve "zed" "/data/zed"]
       (run_ops calm [Resolve "ann" "/data/ann"] (boot 1 1))).

(** A service that has been running for a while: the reaper task sleeps,
    "bob" came first and "alice" second. *)
Definition two_sessions : Sys :=
  run_ops calm
    [StartReaper; Resolve "bob" "/data/bob"; RunReaper [];
     Resolve "alice" "/data/alice"] (boot 30 3).

(** The table of [test_max_kernels_per_user] before its third request:
    the fixture has an idle timeout of one minute and a cap of 2. *)
Definition test_fixture : Sys :=
  run_ops calm
    [StartReaper; Resolve "test_user_3_1" "/tmp/t";
     Resolve "test_user_3_2" "/tmp/t"] (boot 1 2).

(** ** Vocabulary of the further properties *)

(** A computation that keeps a property of the state. *)
Definition keeps {A} (Q : Sys → Prop) (m : M A) : Prop :=
  ∀ s, Q s → Q (m s).2.

(** The owners with a recorded working directory are the owners with a
    handle. *)
Definition dirs_inv (s : Sys) : Prop :=
  dom (working_dirs (self s)) = dom (kernels (self s)).

(** The reaper task has been created. *)
Definition task_created (s : Sys) : Prop := is_Some (_cleanup_task (self s)).

(** The idle timeout and the cap are [tmo] and [cap]. *)
Definition settings (tmo : timedelta) (cap : Z) (s : Sys) : Prop :=
  timeout (self s) = tmo ∧ max_kernels_per_user (self s) = cap.

(** The state of a reaper task after [cancel()] and [await]. *)
Definition after_cancel (t : TaskState) : TaskState :=
  match t with
  | TaskCreated => TaskCancelled
  | TaskSleeping => TaskFinished
  | TaskFinished => TaskFinished
  | TaskCancelled => TaskCancelled
  end.

(** The immediate shutdown of the backend of a session. *)
Definition shutdown_event (km : KM) : Event := EvShutdownKernel (kernel_id km) true.

(** The world after [n] polls of the iopub channel of [km], at time [c]. *)
Definition polled (km : KM) (n : nat) (c : Z) (s : Sys) : Sys :=
  mkSys (self s)
    (mkWorld c (next_kernel_id (world s))
       (trace (world s) ++ replicate n (EvGetIopubMsg (kernel_id km)))
       (log (world s))).

(** The world once [start_backend] has started a backend in [wd]. *)
Definition started (user_id wd : string) (s : Sys) : Sys :=
  let k := next_kernel_id (world s) in
  mkSys (self s)
    (mkWorld (clock (world s)) (S k)
       (trace (world s) ++ [EvMkdir wd; EvStartKernel k; EvStartChannels k])
       (log (world s)
        ++ [(INFO, "Creating new kernel for user " +:+ user_id +:+ " in " +:+ wd)])).

(** The world once a backend has become ready after [d]. *)
Definition waited (d : Z) (km : KM) (s : Sys) : Sys :=
  mkSys (self s)
    (mkWorld (clock (world s) + Z.max 0 d) (next_kernel_id (world s))
       (trace (world s) ++ [EvWaitForReady (kernel_id km)])
       (log (world s))).

(** The world once the bootstrap code has been submitted. *)
Definition submitted (km : KM) (s : Sys) : Sys :=
  mkSys (self s)
    (mkWorld (clock (world s)) (next_kernel_id (world s))
       (trace (world s) ++ [EvExecute (kernel_id km) init_code])
       (log (world s))).

(** The entry of the snapshot for a session, if its timestamp is there. *)
Definition info_of (is_alive : nat → bool) (isoformat : datetime → string)
    (mgr : KernelManager) (user_id : string) (km : KM) : option KernelInfo :=
  match last_activity mgr !! user_id with
  | Some t =>
      Some (mkKernelInfo (kernel_id km) (isoformat t)
              (default "unknown" (working_dirs mgr !! user_id))
              (if is_alive (kernel_id km) then "active" else "dead"))
  | None => None
  end.

(** A table in which the session of "alice" has lost its timestamp, as
    after [del manager.last_activity["alice"]] from outside. *)
Definition torn : Sys :=
  set_last_activity (delete "alice") one_session.

(** Backends that are all alive, and timestamps shown as a count of
    microseconds. *)
Definition all_alive (k : nat) : bool := true.
Definition show_micros (t : datetime) : string := pretty (instant t).

(** The state once [POST /execute] has logged the request. *)
Definition received (request : ExecuteRequest) (s : Sys) : Sys :=
  (logger INFO ("Execute request from user " +:+ req_user_id request) s).2.

(** What [str] shows of the [AttributeError] of line 53. *)
Definition no_total_seconds : string :=
  "'datetime.datetime' object has no attribute 'total_seconds'".

(** A way to show a duration. *)
Definition show_seconds (t : Z) : string := pretty (t / second).

(** The bytes that occur in the encodings of whitespace: those of the
    whitespace of one byte, and bytes above 127. *)
Definition space_byte (a : ascii) : bool :=
  PyStr.isspace a || (128 <=? nat_of_ascii a)%nat.

Fixpoint bytes_all (f : ascii → bool) (s : string) : bool :=
  match s with
  | EmptyString => true
  | String a s' => f a && bytes_all f s'
  end.

(** The text with the given bytes. *)
Definition of_bytes (l : list nat) : string :=
  fold_right (fun n s => String (ascii_of_nat n) s) EmptyString l.

(** U+3000 (ideographic space), U+2003 (em space), U+00A0 (no-break space)
    and a line feed. *)
Definition wide_blank : string :=
  of_bytes [227; 128; 128; 226; 128; 131; 194; 160; 10]%nat.

(** U+200B (zero width space), which is no whitespace for [str.isspace]. *)
Definition zero_width : string := of_bytes [226; 128; 139]%nat.

(** * Properties *)

(** ** Strings *)

Example contains_inside : PyStr.contains "x = eval('1')" "eval(" = true.
Proof. reflexivity. Qed.

Example strip_both_sides : PyStr.strip "  a b
 " = "a b".
Proof. reflexivity. Qed.

(** Induction on texts along the tails three bytes apart. *)
Lemma string_ind3 (P : string → Prop) :
  P "" →
  (∀ a, P (String a "")) →
  (∀ a b, P (String a (String b ""))) →
  (∀ a b c s, P s → P (String c s) → P (String b (String c s)) →
              P (String a (String b (String c s)))) →
  ∀ s, P s.
Proof.
  intros H0 H1 H2 H3 s.
  assert (P s ∧ (∀ c, P (String c s)) ∧ (∀ b c, P (String b (String c s))))
    as [? _]; [|done].
  induction s as [|a s (IH0 & IH1 & IH2)]; [done|].
  split; [apply IH1|]. split; [intros c; apply IH2|].
  intros b c. apply H3; [done | apply IH1 | apply IH2].
Qed.

Lemma lstrip_all_space s : PyStr.all_space (PyStr.lstrip s) = PyStr.all_space s.
Proof.
  induction s as [|a|a b|a b c s IH0 IH1 IH2] using string_ind3.
  - done.
  - cbn [PyStr.lstrip PyStr.all_space].
    destruct (PyStr.isspace a) eqn:Ha; [done|].
    cbn [PyStr.all_space]. by rewrite Ha.
  - cbn [PyStr.lstrip PyStr.all_space].
    destruct (PyStr.isspace a) eqn:Ha.
    { destruct (PyStr.isspace b) eqn:Hb; [done|].
      cbn [PyStr.all_space]. by rewrite Hb. }
    destruct (PyStr.isspace2 a b) eqn:Hab; [done|].
    cbn [PyStr.all_space]. by rewrite Ha, Hab.
  - change (PyStr.lstrip (String a (String b (String c s))))
      with (if PyStr.isspace a then PyStr.lstrip (String b (String c s))
            else if PyStr.isspace2 a b then PyStr.lstrip (String c s)
            else if PyStr.isspace3 a b c then PyStr.lstrip s
            else String a (String b (String c s))).
    change (PyStr.all_space (String a (String b (String c s))))
      with (if PyStr.isspace a then PyStr.all_space (String b (String c s))
            else if PyStr.isspace2 a b then PyStr.all_space (String c s)
            else PyStr.isspace3 a b c && PyStr.all_space s).
    destruct (PyStr.isspace a) eqn:Ha; [done|].
    destruct (PyStr.isspace2 a b) eqn:Hab; [done|].
    destruct (PyStr.isspace3 a b c) eqn:Habc; [done|].
    change (PyStr.all_space (String a (String b (String c s))))
      with (if PyStr.isspace a then PyStr.all_space (String b (String c s))
            else if PyStr.isspace2 a b then PyStr.all_space (String c s)
            else PyStr.isspace3 a b c && PyStr.all_space s).
    by rewrite Ha, Hab, Habc.
Qed.

Lemma rstrip_empty_iff s : PyStr.rstrip s = "" ↔ PyStr.all_space s = true.
Proof.
  destruct s as [|a s]; [done|]. cbn [PyStr.rstrip].
  destruct (PyStr.all_space (String a s)); split; done.
Qed.

Lemma strip_empty_iff s : PyStr.strip s = "" ↔ PyStr.all_space s = true.
Proof. unfold PyStr.strip. by rewrite rstrip_empty_iff, lstrip_all_space. Qed.

Lemma isspace2_bytes a b :
  PyStr.isspace2 a b = true → space_byte a = true ∧ space_byte b = true.
Proof.
  unfold PyStr.isspace2, space_byte.
  intros [Ha Hb]%andb_prop. apply Nat.eqb_eq in Ha.
  apply orb_prop in Hb as [Hb|Hb]; apply Nat.eqb_eq in Hb; rewrite Ha, Hb.
  all: split; apply orb_true_r.
Qed.

Lemma isspace3_bytes a b c :
  PyStr.isspace3 a b c = true →
  space_byte a = true ∧ space_byte b = true ∧ space_byte c = true.
Proof.
  unfold PyStr.isspace3, space_byte. intros H.
  assert ((128 <=? nat_of_ascii a)%nat = true ∧
          (128 <=? nat_of_ascii b)%nat = true ∧
          (128 <=? nat_of_ascii c)%nat = true) as (-> & -> & ->).
  { rewrite !Nat.leb_le.
    repeat match goal with
    | H : (_ || _)%bool = true |- _ => apply orb_prop in H as [H|H]
    | H : (_ && _)%bool = true |- _ => apply andb_prop in H as [? ?]
    | H : (_ =? _)%nat = true |- _ => apply Nat.eqb_eq in H
    | H : (_ <=? _)%nat = true |- _ => apply Nat.leb_le in H
    end; lia. }
  by rewrite !orb_true_r.
Qed.

(** A text made of whitespace is made of the bytes of whitespace. *)
Lemma all_space_bytes s :
  PyStr.all_space s = true → bytes_all space_byte s = true.
Proof.
  induction s as [|a|a b|a b c s IH0 IH1 IH2] using string_ind3.
  - done.
  - cbn [PyStr.all_space bytes_all]. unfold space_byte.
    by destruct (PyStr.isspace a).
  - cbn [PyStr.all_space bytes_all].
    destruct (PyStr.isspace a) eqn:Ha.
    { unfold space_byte at 1. rewrite Ha. unfold space_byte.
      by destruct (PyStr.isspace b). }
    destruct (PyStr.isspace2 a b) eqn:Hab; [|done].
    destruct (isspace2_bytes a b Hab) as [-> ->]. done.
  - change (PyStr.all_space (String a (String b (String c s))))
      with (if PyStr.isspace a then PyStr.all_space (String b (String c s))
            else if PyStr.isspace2 a b then PyStr.all_space (String c s)
            else PyStr.isspace3 a b c && PyStr.all_space s).
    destruct (PyStr.isspace a) eqn:Ha.
    { intros H. cbn [bytes_all] in *. unfold space_byte at 1. rewrite Ha.
      by apply IH2. }
    destruct (PyStr.isspace2 a b) eqn:Hab.
    { intros H. destruct (isspace2_bytes a b Hab) as [Ha' Hb'].
      cbn [bytes_all] in *. rewrite Ha', Hb'. by apply IH1. }
    intros [Habc H]%andb_prop.
    destruct (isspace3_bytes a b c Habc) as (Ha' & Hb' & Hc').
    cbn [bytes_all]. rewrite Ha', Hb', Hc'. by apply IH0.
Qed.

(** A text that starts with a byte that no whitespace has does not occur in
    a text made of whitespace. *)
Lemma contains_all_space s c p :
  space_byte c = false → PyStr.all_space s = true →
  PyStr.contains s (String c p) = false.
Proof.
  intros Hc Hs%all_space_bytes.
  induction s as [|d s IH]; [done|].
  cbn [bytes_all] in Hs. apply andb_prop in Hs as [Hd Hs].
  cbn [PyStr.contains String.prefix].
  destruct (ascii_dec c d) as [->|Hne]; [congruence|].
  by rewrite IH.
Qed.

Lemma dangerous_not_in_space s p :
  p ∈ dangerous_patterns → PyStr.all_space s = true → PyStr.contains s p = false.
Proof.
  unfold dangerous_patterns. intros Hp Hs.
  repeat (apply elem_of_cons in Hp as [->|Hp];
          [by apply contains_all_space|]).
  by apply elem_of_nil in Hp.
Qed.

(** ** Code Admitter *)

Lemma scan_patterns_None patterns code :
  scan_patterns patterns code = None ↔
  ∀ p, p ∈ patterns → PyStr.contains code p = false.
Proof.
  induction patterns as [|q rest IH]; simpl.
  - split; [|done]. intros _ p Hp. by apply elem_of_nil in Hp.
  - destruct (PyStr.contains code q) eqn:Hq.
    + split; [done|]. intros H. rewrite H in Hq; [done|]. apply elem_of_cons; auto.
    + rewrite IH. split.
      * intros H p [->|Hp]%elem_of_cons; auto.
      * intros H p Hp. apply H, elem_of_cons. auto.
Qed.

Lemma scan_patterns_Some patterns code q :
  scan_patterns patterns code = Some q →
  q ∈ patterns ∧ PyStr.contains code q = true.
Proof.
  induction patterns as [|p rest IH]; simpl; [done|].
  destruct (PyStr.contains code p) eqn:Hp.
  - intros [= <-]. split; [apply elem_of_cons; auto | done].
  - intros [? ?]%IH. split; [apply elem_of_cons; auto | done].
Qed.

Example validate_print :
  validate_code toy_compile "print('Hello, world!')" = (true, "").
Proof. reflexivity. Qed.

Example validate_unclosed :
  validate_code toy_compile "print('unclosed string"
  = (false, "Syntax error: unterminated string literal").
Proof. reflexivity. Qed.

Example validate_two_patterns :
  validate_code toy_compile "eval(os.system)"
  = (false, "Potentially dangerous operation detected: os.system").
Proof. reflexivity. Qed.

Example strip_wide_blank :
  PyStr.strip (wide_blank +:+ "x = 1" +:+ wide_blank) = "x = 1".
Proof. reflexivity. Qed.

Example validate_wide_blank :
  validate_code (fun _ => Compiled) wide_blank = (false, "Code cannot be empty").
Proof. reflexivity. Qed.

Example validate_zero_width :
  PyStr.strip zero_width = zero_width ∧
  validate_code (fun _ => Compiled) zero_width = (true, "").
Proof. split; reflexivity. Qed.

(** C4.  Whatever [compile] does, [validate_code] is a function of the code
    text alone, and, with whitespace being the characters of which
    [str.isspace] holds, in ASCII and beyond (see [PyStr.all_space]),
    - it accepts a text exactly when the text is not empty, is not made of
      whitespace only, contains none of the [dangerous_patterns], and
      compiles;
    - a text that contains one of the [dangerous_patterns] is rejected, with
      a reason that ends in a pattern of the list that occurs in the text,
      whether or not the text compiles;
    - an empty text and a text of whitespace only are rejected with the
      reason "Code cannot be empty", which contains the word "empty". *)
Theorem validate_code_spec (compile : string -> CompileOutcome) (code : string) :
  ((validate_code compile code).1 = true ↔
     code ≠ "" ∧ PyStr.all_space code = false ∧
     (∀ p, p ∈ dangerous_patterns → PyStr.contains code p = false) ∧
     compile code = Compiled)
  ∧ ((∃ p, p ∈ dangerous_patterns ∧ PyStr.contains code p = true) →
     ∃ q, q ∈ dangerous_patterns ∧ PyStr.contains code q = true ∧
          validate_code compile code
          = (false, "Potentially dangerous operation detected: " +:+ q))
  ∧ ((code = "" ∨ PyStr.all_space code = true) →
     validate_code compile code = (false, "Code cannot be empty") ∧
     PyStr.contains (validate_code compile code).2 "empty" = true).
Proof.
  unfold validate_code.
  destruct (String.eqb_spec code "") as [->|Hne]; cbn [orb].
  { split; [split; [done | intros [? _]; done]|].
    split; [|done].
    intros (p & Hp & Hin).
    by rewrite (dangerous_not_in_space "" p Hp eq_refl) in Hin. }
  destruct (String.eqb_spec (PyStr.strip code) "") as [Hs|Hs].
  { apply strip_empty_iff in Hs.
    split; [split; [done | intros (_ & ? & _); congruence]|].
    split; [|done].
    intros (p & Hp & Hin).
    by rewrite (dangerous_not_in_space code p Hp Hs) in Hin. }
  assert (PyStr.all_space code = false) as Hsp.
  { destruct (PyStr.all_space code) eqn:E; [|done].
    by apply strip_empty_iff in E. }
  destruct (scan_patterns dangerous_patterns code) as [q|] eqn:Hscan.
  - apply scan_patterns_Some in Hscan as [Hq Hin].
    split; [split; [done|]|].
    + intros (_ & _ & Hno & _). rewrite Hno in Hin; done.
    + split; [eauto | intros [?|?]; congruence].
  - pose proof Hscan as Hno. rewrite scan_patterns_None in Hno.
    split; [|split; [|intros [?|?]; congruence]].
    + destruct (compile code); simpl; split; try done; intros (_ & _ & _ & ?); done.
    + intros (p & Hp & Hin). rewrite Hno in Hin; done.
Qed.

(** ** Session Table: destroying a session *)

(** Unfolds the monad and the accessors, so that a computation on an
    explicit state shows the dictionary lookups it depends on. *)
Ltac run_monad :=
  cbv [mbind M_bind mret M_ret gets modify raise lift attempt finally
       logger emit elapse call datetime_now
       set_kernels set_last_activity set_working_dirs set_cleanup_task set_world
       self world kernels last_activity working_dirs timeout
       max_kernels_per_user _cleanup_task clock next_kernel_id trace log
       PyDict.mem PyDict.getitem PyDict.delitem
       km_shutdown_kernel del_kernels del_last_activity del_working_dirs].

Lemma cleanup_kernel_absent env u s :
  kernels (self s) !! u = None → cleanup_kernel env u s = (Ok tt, s).
Proof.
  intros H. unfold cleanup_kernel, mbind, M_bind, gets, PyDict.mem.
  rewrite bool_decide_eq_false_2; [done|]. rewrite H. by intros [? ?].
Qed.

Lemma cleanup_kernel_present env u s km :
  kernels (self s) !! u = Some km →
  is_Some (last_activity (self s) !! u) →
  cleanup_kernel env u s
  = (Ok tt, forget u (noted (EvShutdownKernel (kernel_id km) true)
                            (shutdown_record env u km) s)).
Proof.
  intros Hk [t Ht]. destruct s as [[ks la wd tmo cap task] [clk nxt tr lg]].
  simpl in Hk, Ht.
  unfold cleanup_kernel, forget, noted, shutdown_record. run_monad.
  rewrite bool_decide_eq_true_2 by (rewrite Hk; eauto).
  rewrite Hk.
  destruct (shutdown_kernel env (kernel_id km) true) as [msg|]; cbn;
    rewrite Hk, Ht.
  all: destruct (wd !! u) as [d|] eqn:Hwd.
  all: try rewrite bool_decide_eq_true_2 by eauto.
  all: try rewrite bool_decide_eq_false_2 by (intros [? ?]; done).
  all: rewrite ?Hwd; try done.
  all: by rewrite (delete_id wd u).
Qed.

Lemma table_inv_lookup s u km :
  table_inv s → kernels (self s) !! u = Some km →
  is_Some (last_activity (self s) !! u).
Proof.
  intros [Hd _] Hk. apply elem_of_dom. rewrite <- Hd. apply elem_of_dom; eauto.
Qed.

Lemma table_inv_absent s u :
  table_inv s → kernels (self s) !! u = None →
  last_activity (self s) !! u = None ∧ working_dirs (self s) !! u = None.
Proof.
  intros [Hd Hw] Hk. apply not_elem_of_dom in Hk.
  split; apply not_elem_of_dom; [by rewrite <- Hd | set_solver].
Qed.

Lemma cleanup_kernel_ok env u s :
  table_inv s → cleanup_kernel env u s = (Ok tt, destroyed env u s).
Proof.
  intros Hinv. unfold destroyed.
  destruct (kernels (self s) !! u) as [km|] eqn:Hk.
  - apply cleanup_kernel_present; [done | by eapply table_inv_lookup].
  - by apply cleanup_kernel_absent.
Qed.

Lemma destroyed_removed env u s :
  table_inv s → removed [u] s (destroyed env u s).
Proof.
  intros Hinv. unfold destroyed, removed.
  destruct (kernels (self s) !! u) as [km|] eqn:Hk.
  - destruct s as [[ks la wd tmo cap task] [clk nxt tr lg]]; simpl in *.
    repeat split; try done; intros v; rewrite lookup_delete.
    all: case_decide as Hv; subst.
    all: case_bool_decide as Hb; try done; set_solver.
  - destruct (table_inv_absent s u Hinv Hk) as [Hl Hw].
    repeat split; try done; intros v; case_bool_decide as Hv; try done.
    all: assert (v = u) as -> by set_solver; done.
Qed.

Lemma removed_table_inv us s s' : table_inv s → removed us s s' → table_inv s'.
Proof.
  intros [Hd Hw] (Hk & Hl & Hwd & _). split.
  - apply set_eq. intros v. rewrite !elem_of_dom, Hk, Hl.
    case_bool_decide; [done|]. rewrite <- !elem_of_dom. by rewrite Hd.
  - intros v. rewrite !elem_of_dom, Hk, Hwd.
    case_bool_decide; [done|]. rewrite <- !elem_of_dom. apply Hw.
Qed.

Lemma removed_refl s : removed [] s s.
Proof.
  repeat split; try done; intros v; rewrite bool_decide_eq_false_2; try done.
  all: apply not_elem_of_nil.
Qed.

Lemma removed_trans us vs s1 s2 s3 :
  removed us s1 s2 → removed vs s2 s3 → removed (us ++ vs) s1 s3.
Proof.
  intros (K1 & L1 & W1 & ? & ? & ? & ? & ?) (K2 & L2 & W2 & ? & ? & ? & ? & ?).
  repeat split; try congruence; intros v.
  - rewrite K2, K1. repeat case_bool_decide; try done; set_solver.
  - rewrite L2, L1. repeat case_bool_decide; try done; set_solver.
  - rewrite W2, W1. repeat case_bool_decide; try done; set_solver.
Qed.

Lemma removed_logger lvl msg us s s' :
  removed us s s' → removed us s (logger lvl msg s').2.
Proof. intros H. destruct s' as [[] []]. exact H. Qed.

Lemma cleanup_each_ok env us announce s :
  table_inv s →
  ∃ s', cleanup_each env us announce s = (Ok tt, s') ∧ removed us s s'.
Proof.
  revert s. induction us as [|u us IH]; intros s Hinv.
  - exists s. split; [done | apply removed_refl].
  - cbn [cleanup_each]. unfold mbind, M_bind.
    set (s0 := ((if announce then
                   logger INFO ("Cleaning up expired kernel for user " +:+ u)
                 else mret tt) s).2).
    assert ((if announce then
               logger INFO ("Cleaning up expired kernel for user " +:+ u)
             else mret tt) s = (Ok tt, s0)) as ->.
    { subst s0. by destruct announce. }
    assert (removed [] s s0) as H0.
    { subst s0. destruct announce; [apply removed_logger|]; apply removed_refl. }
    assert (table_inv s0) as Hinv0 by (by eapply removed_table_inv).
    rewrite (cleanup_kernel_ok env u s0 Hinv0).
    pose proof (destroyed_removed env u s0 Hinv0) as H1.
    destruct (IH (destroyed env u s0)) as (s' & -> & H2).
    { by eapply removed_table_inv. }
    exists s'. split; [done|].
    exact (removed_trans [] ([u] ++ us) _ _ _ H0 (removed_trans _ _ _ _ _ H1 H2)).
Qed.

Example one_session_table :
  kernels (self one_session) = {[ "alice" := mkKM 0 "/data/alice" ]} ∧
  last_activity (self one_session) = {[ "alice" := Datetime 2000100 ]} ∧
  working_dirs (self one_session) = {[ "alice" := "/data/alice" ]}.
Proof. vm_compute. done. Qed.

(** C6.  On a table whose dictionaries agree, [cleanup_kernel] returns
    without raising, whatever the shutdown of the backend does.
    - For an owner without a handle it changes nothing at all.
    - For an owner with a handle it calls the immediate shutdown of that
      backend, and afterwards the owner has no handle, no timestamp and no
      working directory, while the entries of the other owners are as
      before; an exception of the shutdown is written to the log at level
      ERROR and not raised.
    - Calling it again on the state it leaves changes nothing. *)
Theorem cleanup_kernel_spec env u s :
  table_inv s →
  ∃ s', cleanup_kernel env u s = (Ok tt, s') ∧
    (kernels (self s) !! u = None → s' = s) ∧
    removed [u] s s' ∧
    (∀ km, kernels (self s) !! u = Some km →
       trace (world s')
       = (trace (world s) ++ [EvShutdownKernel (kernel_id km) true])%list ∧
       ∀ msg, shutdown_kernel env (kernel_id km) true = Some msg →
         log (world s')
         = (log (world s) ++
            [(ERROR, "Error shutting down kernel for user " +:+ u +:+ ": "
                     +:+ msg)])%list) ∧
    cleanup_kernel env u s' = (Ok tt, s').
Proof.
  intros Hinv. exists (destroyed env u s).
  pose proof (destroyed_removed env u s Hinv) as Hrem.
  split; [by apply cleanup_kernel_ok|].
  split; [intros Hk; unfold destroyed; by rewrite Hk|].
  split; [done|]. split.
  - intros km Hk. unfold destroyed, shutdown_record. rewrite Hk.
    destruct s as [[] []]; simpl. split; [done|]. by intros msg ->.
  - apply cleanup_kernel_absent.
    destruct Hrem as (-> & _). rewrite bool_decide_eq_true_2; [done|set_solver].
Qed.

Lemma cleanup_kernel_spec_witness :
  table_inv one_session ∧
  ∃ s', cleanup_kernel stubborn "alice" one_session = (Ok tt, s') ∧
        kernels (self s') !! "alice" = None ∧
        log (world s')
        = (log (world one_session) ++
           [(ERROR, "Error shutting down kernel for user alice: kernel is gone")])%list.
Proof.
  assert (table_inv one_session) as Hinv by (vm_compute; done).
  split; [exact Hinv|].
  destruct (cleanup_kernel_spec stubborn "alice" one_session Hinv)
    as (s' & Hrun & _ & (Hk & _) & Hlog & _).
  exists s'. split; [exact Hrun|]. split.
  - by rewrite Hk.
  - destruct (Hlog (mkKM 0 "/data/alice")) as [_ Hl]; [by vm_compute|].
    by apply Hl.
Defined.

(** ** Computations that keep the table in shape *)

Create HintDb table.

Lemma quiet_ret {A} (a : A) : quiet (mret a).
Proof. done. Qed.

Lemma quiet_bind {A B} (m : M A) (f : A → M B) :
  quiet m → (∀ a, quiet (f a)) → quiet (m ≫= f).
Proof.
  intros Hm Hf s. unfold mbind, M_bind. specialize (Hm s).
  destruct (m s) as [[a|e] s1]; simpl in *; [|done].
  destruct Hm as [<- <-]. apply Hf.
Qed.

Lemma quiet_raise {A} e : quiet (raise e : M A).
Proof. done. Qed.

Lemma quiet_lift {A} (r : Res A) : quiet (lift r).
Proof. done. Qed.

Lemma quiet_gets {A} (f : Sys → A) : quiet (gets f).
Proof. done. Qed.

Lemma quiet_logger lvl msg : quiet (logger lvl msg).
Proof. done. Qed.

Lemma quiet_emit ev : quiet (emit ev).
Proof. done. Qed.

Lemma quiet_elapse d : quiet (elapse d).
Proof. done. Qed.

Lemma quiet_datetime_now : quiet datetime_now.
Proof. done. Qed.

Lemma quiet_attempt {A} (m : M A) : quiet m → quiet (attempt m).
Proof. intros Hm s. unfold attempt. specialize (Hm s). by destruct (m s). Qed.

#[local] Hint Resolve quiet_ret quiet_raise quiet_lift quiet_gets quiet_logger
  quiet_emit quiet_elapse quiet_datetime_now quiet_attempt : table.

(** Splits a computation along its binds and case distinctions. *)
Ltac quiet_step :=
  match goal with
  | |- quiet (_ ≫= _) => apply quiet_bind; [|intros ?]
  | |- quiet (match ?x with _ => _ end) => destruct x
  | |- quiet (let (_, _) := ?x in _) => destruct x
  | |- _ => solve [auto with table]
  end.

Ltac quiet_tac := repeat quiet_step.

Lemma quiet_call ev o : quiet (call ev o).
Proof. unfold call. quiet_tac. Qed.
#[local] Hint Resolve quiet_call : table.

Lemma quiet_km_shutdown_kernel env km now : quiet (km_shutdown_kernel env km now).
Proof. unfold km_shutdown_kernel. quiet_tac. Qed.
#[local] Hint Resolve quiet_km_shutdown_kernel : table.

Lemma quiet_wait_until_ready env km : quiet (wait_until_ready env km).
Proof. unfold wait_until_ready. quiet_tac. Qed.
#[local] Hint Resolve quiet_wait_until_ready : table.

Lemma quiet_await_ready env km : quiet (await_ready env km).
Proof. unfold await_ready. quiet_tac. Qed.

Lemma quiet_init_wait_silent fuel start km : quiet (init_wait_silent fuel start km).
Proof. induction fuel as [|fuel IH]; cbn [init_wait_silent]; quiet_tac. Qed.
#[local] Hint Resolve quiet_init_wait_silent : table.

Lemma quiet_init_wait polls start km : quiet (init_wait polls start km).
Proof. induction polls as [|p polls IH]; cbn [init_wait]; quiet_tac. Qed.
#[local] Hint Resolve quiet_init_wait : table.

Lemma quiet_bootstrap env km : quiet (bootstrap env km).
Proof. unfold bootstrap. quiet_tac. Qed.

Lemma quiet_asyncio_sleep w : quiet (asyncio_sleep w).
Proof. unfold asyncio_sleep. quiet_tac. Qed.
#[local] Hint Resolve quiet_asyncio_sleep : table.

Lemma world_only_quiet {A} (m : M A) : quiet m → world_only m.
Proof. intros Hm s. apply Hm. Qed.

Lemma world_only_bind {A B} (m : M A) (f : A → M B) :
  world_only m → (∀ a, world_only (f a)) → world_only (m ≫= f).
Proof.
  intros Hm Hf s. unfold mbind, M_bind. specialize (Hm s).
  destruct (m s) as [[a|e] s1]; simpl in *; [|done].
  by rewrite Hf.
Qed.

(** The backend is started after the quota check: a new handle is made,
    which moves the counter of identities on by one, whatever follows. *)
Lemma start_backend_world env u wd s :
  self (start_backend env u wd s).2 = self s ∧
  (next_kernel_id (world s) ≤ next_kernel_id (world (start_backend env u wd s).2))%nat.
Proof.
  destruct s as [[ks la dirs tmo cap task] [clk nxt tr lg]].
  unfold start_backend, new_kernel_manager. run_monad. cbn [kernel_id].
  destruct (cap <=? count_user_kernels u ks); [done|].
  destruct (mkdir env wd); cbn; [done|].
  destruct (start_kernel env nxt); cbn; [split; [done|lia]|].
  destruct (start_channels env nxt); cbn; split; try done; lia.
Qed.

Lemma world_only_start_backend env u wd : world_only (start_backend env u wd).
Proof. intros s. apply start_backend_world. Qed.

(** ** Session Table: looking an owner up *)

Lemma lookup_live_absent env u s :
  kernels (self s) !! u = None → lookup_live env u s = (Ok None, s).
Proof.
  intros H. unfold lookup_live, mbind, M_bind, gets, PyDict.mem.
  rewrite bool_decide_eq_false_2; [done|]. rewrite H. by intros [? ?].
Qed.

Lemma lookup_live_fresh env u s km t :
  kernels (self s) !! u = Some km →
  last_activity (self s) !! u = Some t →
  clock (world s) - instant t < micros (timeout (self s)) →
  lookup_live env u s = (Ok (Some km), reused u s).
Proof.
  intros Hk Ht Hlt. destruct s as [[ks la wd tmo cap task] [clk nxt tr lg]].
  simpl in Hk, Ht, Hlt.
  unfold lookup_live, reused, timedelta_ltb, datetime_sub. run_monad.
  rewrite bool_decide_eq_true_2 by (rewrite Hk; eauto).
  rewrite Ht. cbn.
  destruct (Z.ltb_spec (clk - instant t) (micros tmo)) as [_|?]; [|lia].
  by rewrite Hk.
Qed.

Lemma lookup_live_expired env u s km t :
  table_inv s →
  kernels (self s) !! u = Some km →
  last_activity (self s) !! u = Some t →
  micros (timeout (self s)) ≤ clock (world s) - instant t →
  lookup_live env u s = (Ok None, expired env u s).
Proof.
  intros Hinv Hk Ht Hge.
  unfold lookup_live, expired.
  unfold mbind at 1, M_bind at 1, gets at 1, PyDict.mem.
  rewrite bool_decide_eq_true_2 by (rewrite Hk; eauto).
  unfold mbind at 1, M_bind at 1, datetime_now, gets at 1.
  unfold mbind at 1, M_bind at 1, gets at 1, PyDict.getitem. rewrite Ht.
  unfold mbind at 1, M_bind at 1, lift at 1.
  unfold mbind at 1, M_bind at 1, gets at 1.
  unfold timedelta_ltb, datetime_sub. cbn [instant micros].
  destruct (Z.ltb_spec (clock (world s) - instant t) (micros (timeout (self s))))
    as [?|_]; [lia|].
  unfold mbind at 1, M_bind at 1.
  set (s1 := (logger INFO _ s).2).
  assert (logger INFO ("Kernel expired for user " +:+ u +:+ ", creating new one") s
          = (Ok tt, s1)) as -> by done.
  unfold mbind, M_bind.
  assert (table_inv s1) as Hinv1 by (destruct s as [[] []]; exact Hinv).
  by rewrite (cleanup_kernel_ok env u s1 Hinv1).
Qed.

Lemma destroyed_table_inv env u s : table_inv s → table_inv (destroyed env u s).
Proof.
  intros H. eapply removed_table_inv; [done | by apply destroyed_removed].
Qed.

Lemma expired_table_inv env u s : table_inv s → table_inv (expired env u s).
Proof.
  intros H. apply destroyed_table_inv. destruct s as [[] []]. exact H.
Qed.

Lemma reused_table_inv u s :
  is_Some (kernels (self s) !! u) → table_inv s → table_inv (reused u s).
Proof.
  intros Hk [Hd Hw]. destruct s as [[ks la wd tmo cap task] [clk nxt tr lg]].
  unfold reused, table_inv in *; simpl in *. split; [|done].
  rewrite dom_insert_L. apply elem_of_dom in Hk. set_solver.
Qed.

(** With the dictionaries in agreement, [lookup_live] has three outcomes. *)
Lemma lookup_live_cases env u s :
  table_inv s →
  (kernels (self s) !! u = None ∧ lookup_live env u s = (Ok None, s)) ∨
  (∃ km, kernels (self s) !! u = Some km ∧ live u s ∧
         lookup_live env u s = (Ok (Some km), reused u s)) ∨
  (∃ km, kernels (self s) !! u = Some km ∧ ¬ live u s ∧
         lookup_live env u s = (Ok None, expired env u s)).
Proof.
  intros Hinv. destruct (kernels (self s) !! u) as [km|] eqn:Hk.
  - destruct (table_inv_lookup s u km Hinv Hk) as [t Ht].
    destruct (Z_lt_le_dec (clock (world s) - instant t) (micros (timeout (self s))))
      as [Hlt|Hge].
    + right; left. exists km. split; [done|].
      split; [unfold live; by rewrite Ht|].
      by eapply lookup_live_fresh.
    + right; right. exists km. split; [done|]. split.
      * unfold live. rewrite Ht. lia.
      * by eapply lookup_live_expired.
  - left. split; [done | by apply lookup_live_absent].
Qed.

Lemma keeps_inv_lookup_live env u : keeps_inv (lookup_live env u).
Proof.
  intros s Hinv.
  destruct (lookup_live_cases env u s Hinv)
    as [[_ ->]|[(km & Hk & _ & ->)|(km & Hk & _ & ->)]]; simpl.
  - done.
  - apply reused_table_inv; [eauto | done].
  - by apply expired_table_inv.
Qed.

Lemma keeps_inv_world_only {A} (m : M A) : world_only m → keeps_inv m.
Proof.
  intros Hm s Hinv. specialize (Hm s). unfold table_inv in *. by rewrite Hm.
Qed.

Lemma keeps_inv_quiet {A} (m : M A) : quiet m → keeps_inv m.
Proof. intros Hm. by apply keeps_inv_world_only, world_only_quiet. Qed.

Lemma keeps_inv_bind {A B} (m : M A) (f : A → M B) :
  keeps_inv m → (∀ a, keeps_inv (f a)) → keeps_inv (m ≫= f).
Proof.
  intros Hm Hf s Hinv. unfold mbind, M_bind. specialize (Hm s Hinv).
  destruct (m s) as [[a|e] s1]; simpl in *; [|done].
  by apply Hf.
Qed.

Lemma keeps_inv_attempt {A} (m : M A) : keeps_inv m → keeps_inv (attempt m).
Proof.
  intros Hm s Hinv. unfold attempt. specialize (Hm s Hinv). by destruct (m s).
Qed.

Lemma keeps_inv_set_cleanup_task t : keeps_inv (modify (set_cleanup_task t)).
Proof. intros s Hinv. exact Hinv. Qed.

Lemma keeps_inv_cleanup_kernel env u : keeps_inv (cleanup_kernel env u).
Proof.
  intros s Hinv. rewrite cleanup_kernel_ok by done. by apply destroyed_table_inv.
Qed.

Lemma keeps_inv_cleanup_each env us announce :
  keeps_inv (cleanup_each env us announce).
Proof.
  intros s Hinv. destruct (cleanup_each_ok env us announce s Hinv) as (s' & -> & H).
  by eapply removed_table_inv.
Qed.

Lemma keeps_inv_register u wd km : keeps_inv (register u wd km).
Proof.
  intros s [Hd Hw]. destruct s as [[ks la dirs tmo cap task] [clk nxt tr lg]].
  unfold register, table_inv in *. run_monad. simpl in *.
  rewrite !dom_insert_L. split; set_solver.
Qed.

Lemma keeps_inv_get_or_create_kernel_begin env u wd :
  keeps_inv (get_or_create_kernel_begin env u wd).
Proof.
  unfold get_or_create_kernel_begin.
  apply keeps_inv_bind; [apply keeps_inv_lookup_live|].
  intros [km|]; [apply keeps_inv_quiet, quiet_ret|].
  apply keeps_inv_world_only, world_only_bind; [apply world_only_start_backend|].
  intros; apply world_only_quiet, quiet_ret.
Qed.

Lemma keeps_inv_get_or_create_kernel_resume env u wd km :
  keeps_inv (get_or_create_kernel_resume env u wd km).
Proof.
  unfold get_or_create_kernel_resume.
  apply keeps_inv_bind; [apply keeps_inv_quiet, quiet_await_ready|].
  intros _.
  apply keeps_inv_bind; [apply keeps_inv_quiet, quiet_bootstrap|].
  intros _. apply keeps_inv_register.
Qed.

Lemma keeps_inv_get_or_create_kernel env u wd :
  keeps_inv (get_or_create_kernel env u wd).
Proof.
  unfold get_or_create_kernel.
  apply keeps_inv_bind; [apply keeps_inv_get_or_create_kernel_begin|].
  intros [km|km].
  - apply keeps_inv_quiet, quiet_ret.
  - apply keeps_inv_get_or_create_kernel_resume.
Qed.

Lemma keeps_inv_cleanup_expired_kernels env :
  keeps_inv (cleanup_expired_kernels env).
Proof.
  unfold cleanup_expired_kernels.
  apply keeps_inv_bind; [apply keeps_inv_quiet, quiet_datetime_now|].
  intros now.
  apply keeps_inv_bind; [apply keeps_inv_quiet, quiet_gets|].
  intros us. apply keeps_inv_cleanup_each.
Qed.

Lemma keeps_inv_periodic_cleanup_turn sweep w :
  keeps_inv sweep → keeps_inv (periodic_cleanup_turn sweep w).
Proof.
  intros Hsweep. unfold periodic_cleanup_turn.
  apply keeps_inv_bind.
  - apply keeps_inv_attempt, keeps_inv_bind; [|done].
    apply keeps_inv_quiet, quiet_asyncio_sleep.
  - intros [?|e]; [apply keeps_inv_quiet, quiet_ret|].
    apply keeps_inv_quiet. quiet_tac.
Qed.

Lemma keeps_inv_periodic_cleanup_loop sweep wakes :
  keeps_inv sweep → keeps_inv (periodic_cleanup_loop sweep wakes).
Proof.
  intros Hsweep. induction wakes as [|w wakes IH]; cbn [periodic_cleanup_loop].
  - apply keeps_inv_quiet, quiet_ret.
  - apply keeps_inv_bind; [by apply keeps_inv_periodic_cleanup_turn|].
    intros [|]; [done | apply keeps_inv_quiet, quiet_ret].
Qed.

Lemma keeps_inv_periodic_cleanup env wakes : keeps_inv (_periodic_cleanup env wakes).
Proof.
  apply keeps_inv_periodic_cleanup_loop, keeps_inv_cleanup_expired_kernels.
Qed.

Lemma keeps_inv_start_cleanup_task : keeps_inv start_cleanup_task.
Proof.
  unfold start_cleanup_task.
  apply keeps_inv_bind; [apply keeps_inv_quiet, quiet_gets|].
  intros [t|]; [apply keeps_inv_quiet, quiet_ret|].
  apply keeps_inv_set_cleanup_task.
Qed.

Lemma keeps_inv_run_cleanup_task env wakes : keeps_inv (run_cleanup_task env wakes).
Proof.
  unfold run_cleanup_task.
  apply keeps_inv_bind; [apply keeps_inv_quiet, quiet_gets|].
  intros [[| | |]|]; try apply keeps_inv_quiet, quiet_ret.
  all: apply keeps_inv_bind; [apply keeps_inv_periodic_cleanup|].
  all: intros; apply keeps_inv_set_cleanup_task.
Qed.

Lemma keeps_inv_cancel_and_await env t : keeps_inv (cancel_and_await env t).
Proof.
  unfold cancel_and_await.
  apply keeps_inv_bind; [apply keeps_inv_quiet, quiet_emit|]. intros _.
  apply keeps_inv_bind; [apply keeps_inv_quiet, quiet_emit|]. intros _.
  destruct t.
  - apply keeps_inv_bind; [apply keeps_inv_set_cleanup_task|].
    intros; apply keeps_inv_quiet, quiet_raise.
  - apply keeps_inv_bind; [apply keeps_inv_periodic_cleanup|].
    intros; apply keeps_inv_set_cleanup_task.
  - apply keeps_inv_quiet, quiet_ret.
  - apply keeps_inv_quiet, quiet_raise.
Qed.

Lemma keeps_inv_shutdown_all env : keeps_inv (shutdown_all env).
Proof.
  unfold shutdown_all.
  apply keeps_inv_bind; [apply keeps_inv_quiet, quiet_logger|]. intros _.
  apply keeps_inv_bind; [apply keeps_inv_quiet, quiet_gets|]. intros us.
  apply keeps_inv_bind; [apply keeps_inv_cleanup_each|]. intros _.
  apply keeps_inv_bind; [apply keeps_inv_quiet, quiet_gets|].
  intros [t|]; [|apply keeps_inv_quiet, quiet_ret].
  apply keeps_inv_bind; [apply keeps_inv_attempt, keeps_inv_cancel_and_await|].
  intros [?|e]; apply keeps_inv_quiet; quiet_tac.
Qed.

Lemma run_op_table_inv env op s : table_inv s → table_inv (run_op env op s).
Proof.
  destruct op; cbn [run_op].
  - apply keeps_inv_get_or_create_kernel.
  - apply keeps_inv_get_or_create_kernel_begin.
  - apply keeps_inv_get_or_create_kernel_resume.
  - apply keeps_inv_cleanup_kernel.
  - apply keeps_inv_cleanup_expired_kernels.
  - apply keeps_inv_shutdown_all.
  - apply keeps_inv_start_cleanup_task.
  - apply keeps_inv_run_cleanup_task.
Qed.

Lemma boot_table_inv tm cap : table_inv (boot tm cap).
Proof. split; [done | set_solver]. Qed.

Lemma reachable_table_inv s : reachable s → table_inv s.
Proof.
  induction 1 as [tm cap|env op s _ IH].
  - apply boot_table_inv.
  - by apply run_op_table_inv.
Qed.

(** C10.  Every operation on the table, whatever the collaborators do and
    whether it returns or raises, keeps the invariant that the owners with
    a handle are the owners with a timestamp and that only owners with a
    handle have a working directory recorded.  The operations are
    [get_or_create_kernel] (as a whole and in its two halves around the
    suspension), [cleanup_kernel], the sweep [cleanup_expired_kernels],
    [shutdown_all], and starting and running the reaper task. *)
Theorem table_inv_preserved env op s :
  dom (kernels (self s)) = dom (last_activity (self s)) ∧
  dom (working_dirs (self s)) ⊆ dom (kernels (self s)) →
  dom (kernels (self (run_op env op s)))
  = dom (last_activity (self (run_op env op s))) ∧
  dom (working_dirs (self (run_op env op s)))
  ⊆ dom (kernels (self (run_op env op s))).
Proof. apply run_op_table_inv. Qed.

Lemma table_inv_preserved_witness :
  table_inv one_session ∧
  table_inv (run_op stubborn (Destroy "alice") one_session) ∧
  table_inv (run_op sluggish (Resolve "bob" "/data/bob") one_session).
Proof.
  assert (table_inv one_session) as Hinv by (vm_compute; done).
  split; [exact Hinv|]. split.
  - exact (table_inv_preserved stubborn (Destroy "alice") one_session Hinv).
  - exact (table_inv_preserved sluggish (Resolve "bob" "/data/bob") one_session Hinv).
Defined.

(** ** One session per owner *)

Lemma filter_key_absent {V} (l : list (string * V)) u :
  u ∉ l.*1 → filter (fun it => it.1 = u) l = [].
Proof.
  induction l as [|[k v] l IH]; [done|]. simpl.
  intros [Hne Hl]%not_elem_of_cons. rewrite filter_cons. simpl.
  case_decide; [congruence | by apply IH].
Qed.

Lemma filter_key_length {V} (l : list (string * V)) u :
  NoDup l.*1 → (List.length (filter (fun it => it.1 = u) l) ≤ 1)%nat.
Proof.
  induction l as [|[k v] l IH]; simpl; [lia|].
  intros [Hk Hl]%NoDup_cons. rewrite filter_cons. simpl.
  case_decide as Hu; [|by apply IH]. subst. simpl.
  rewrite filter_key_absent by done. simpl. lia.
Qed.

Lemma reachable_run_ops env ops s : reachable s → reachable (run_ops env ops s).
Proof.
  revert s. induction ops as [|op ops IH]; intros s Hs; [done|].
  apply IH. by apply reachable_step.
Qed.

(** C8.  In every state that operations lead to from start-up, however
    the calls of [get_or_create_kernel] are interleaved with the other
    operations, at most one session is registered under an owner. *)
Theorem one_session_per_owner s u :
  reachable s → (List.length (sessions_of u s) ≤ 1)%nat.
Proof.
  intros _. unfold sessions_of. apply filter_key_length, NoDup_fst_map_to_list.
Qed.

Lemma one_session_per_owner_witness :
  reachable one_session ∧ (List.length (sessions_of "alice" one_session) ≤ 1)%nat.
Proof.
  assert (reachable one_session) as Hr.
  { apply reachable_run_ops, reachable_boot. }
  split; [exact Hr|]. exact (one_session_per_owner one_session "alice" Hr).
Defined.

(** ** Coordinated shutdown *)

Lemma keys_elem_of {V} (d : gmap string V) v :
  v ∈ PyDict.keys d ↔ is_Some (d !! v).
Proof.
  unfold PyDict.keys. rewrite list_elem_of_fmap. split.
  - intros ([k x] & -> & Hin). apply elem_of_map_to_list in Hin. eauto.
  - intros [x Hx]. exists (v, x). split; [done|]. by apply elem_of_map_to_list.
Qed.

Lemma removed_all_keys s s' :
  table_inv s → removed (PyDict.keys (kernels (self s))) s s' →
  kernels (self s') = ∅ ∧ last_activity (self s') = ∅ ∧ working_dirs (self s') = ∅.
Proof.
  intros Hinv (Hk & Hl & Hw & _).
  repeat split; apply map_eq; intros v; rewrite lookup_empty.
  - rewrite Hk. case_bool_decide as Hv; [done|].
    rewrite keys_elem_of in Hv. by apply eq_None_not_Some.
  - rewrite Hl. case_bool_decide as Hv; [done|].
    rewrite keys_elem_of in Hv. apply eq_None_not_Some in Hv.
    by apply (table_inv_absent s v Hinv).
  - rewrite Hw. case_bool_decide as Hv; [done|].
    rewrite keys_elem_of in Hv. apply eq_None_not_Some in Hv.
    by apply (table_inv_absent s v Hinv).
Qed.

Lemma periodic_cleanup_cancelled sweep wakes s :
  periodic_cleanup_loop sweep (Cancelled :: wakes) s = (Ok TaskFinished, s).
Proof. reflexivity. Qed.

Lemma omap_ext_in {A B} (f g : A → option B) (l : list A) :
  (∀ x, x ∈ l → f x = g x) → omap f l = omap g l.
Proof.
  induction l as [|a l IH]; intros H; [done|].
  change (a :: l) with ([a] ++ l)%list. rewrite !omap_app.
  rewrite IH by (intros x Hx; apply H, elem_of_cons; auto).
  f_equal. simpl. by rewrite (H a) by (apply elem_of_cons; auto).
Qed.

Lemma destroyed_trace env u s :
  trace (world (destroyed env u s))
  = (trace (world s)
     ++ omap (fun v => shutdown_event <$> kernels (self s) !! v) [u])%list.
Proof.
  unfold destroyed. simpl.
  destruct (kernels (self s) !! u) as [km|]; simpl.
  - by destruct s as [[] []].
  - by rewrite app_nil_r.
Qed.

Lemma cleanup_each_trace env us announce s :
  table_inv s → NoDup us →
  ∃ s', cleanup_each env us announce s = (Ok tt, s') ∧ removed us s s' ∧
    trace (world s')
    = (trace (world s)
       ++ omap (fun u => shutdown_event <$> kernels (self s) !! u) us)%list.
Proof.
  revert s. induction us as [|u us IH]; intros s Hinv Hnd.
  - exists s. split; [done|]. split; [apply removed_refl|].
    simpl. by rewrite app_nil_r.
  - apply NoDup_cons in Hnd as [Hu Hnd].
    cbn [cleanup_each]. unfold mbind, M_bind.
    set (s0 := ((if announce then
                   logger INFO ("Cleaning up expired kernel for user " +:+ u)
                 else mret tt) s).2).
    assert ((if announce then
               logger INFO ("Cleaning up expired kernel for user " +:+ u)
             else mret tt) s = (Ok tt, s0)) as ->.
    { subst s0. by destruct announce. }
    assert (self s0 = self s ∧ trace (world s0) = trace (world s)) as [Hself Htr].
    { subst s0. by destruct announce, s as [[] []]. }
    assert (removed [] s s0) as H0.
    { subst s0. destruct announce; [apply removed_logger|]; apply removed_refl. }
    assert (table_inv s0) as Hinv0 by (by eapply removed_table_inv).
    rewrite (cleanup_kernel_ok env u s0 Hinv0).
    pose proof (destroyed_removed env u s0 Hinv0) as H1.
    destruct (IH (destroyed env u s0)) as (s' & -> & H2 & Htr').
    { by eapply removed_table_inv. }
    { done. }
    exists s'. split; [done|]. split.
    { exact (removed_trans [] ([u] ++ us)%list _ _ _ H0
               (removed_trans _ _ _ _ _ H1 H2)). }
    rewrite Htr', destroyed_trace, Htr, Hself, <- app_assoc. f_equal.
    change (u :: us) with ([u] ++ us)%list. rewrite omap_app. f_equal.
    apply omap_ext_in. intros v Hv.
    destruct H1 as (-> & _). rewrite Hself.
    rewrite bool_decide_eq_false_2; [done|].
    intros ?%list_elem_of_singleton. by subst.
Qed.

Lemma omap_lookup_keys {B} (m : gmap string KM) (f : KM → B) :
  omap (fun u => f <$> m !! u) (PyDict.keys m) = (fun it => f it.2) <$> map_to_list m.
Proof.
  unfold PyDict.keys.
  assert (∀ l : list (string * KM), (∀ it, it ∈ l → m !! it.1 = Some it.2) →
            omap (fun u => f <$> m !! u) l.*1 = (fun it => f it.2) <$> l) as H.
  { induction l as [|[u km] l IH]; intros Hl; [done|].
    assert (m !! u = Some km) as Hu by (apply (Hl (u, km)), elem_of_cons; auto).
    rewrite fmap_cons. cbn [fst]. change (u :: l.*1) with ([u] ++ l.*1)%list.
    rewrite omap_app, IH by (intros it Hit; apply Hl, elem_of_cons; auto).
    simpl. by rewrite Hu. }
  apply H. intros [u km] Hit. by apply elem_of_map_to_list.
Qed.

Lemma shutdown_all_outcome env s :
  table_inv s →
  ∃ s', shutdown_all env s = (Ok tt, s') ∧
    kernels (self s') = ∅ ∧ last_activity (self s') = ∅ ∧
    working_dirs (self s') = ∅ ∧
    _cleanup_task (self s') = after_cancel <$> _cleanup_task (self s) ∧
    trace (world s')
    = (trace (world s)
       ++ ((fun it => shutdown_event it.2) <$> map_to_list (kernels (self s)))
       ++ match _cleanup_task (self s) with
          | None => []
          | Some _ => [EvCancelTask; EvAwaitTask]
          end)%list.
Proof.
  intros Hinv. unfold shutdown_all.
  unfold mbind at 1, M_bind at 1.
  set (s0 := (logger INFO "Shutting down all kernels..." s).2).
  assert (logger INFO "Shutting down all kernels..." s = (Ok tt, s0)) as -> by done.
  assert (table_inv s0) as Hinv0 by (destruct s as [[] []]; exact Hinv).
  assert (self s0 = self s ∧ trace (world s0) = trace (world s)) as [Hself0 Htr0]
    by (by destruct s as [[] []]).
  unfold mbind at 1, M_bind at 1, gets at 1.
  unfold mbind at 1, M_bind at 1.
  destruct (cleanup_each_trace env (PyDict.keys (kernels (self s0))) false s0 Hinv0)
    as (s1 & -> & Hrem & Htr).
  { apply NoDup_fst_map_to_list. }
  destruct (removed_all_keys s0 s1 Hinv0 Hrem) as (Hk & Hl & Hw).
  destruct Hrem as (_ & _ & _ & _ & _ & Htask & _).
  rewrite omap_lookup_keys, Htr0, Hself0 in Htr. rewrite Hself0 in Htask.
  unfold mbind at 1, M_bind at 1, gets at 1. rewrite Htask.
  destruct s1 as [[ks la wd tmo cap task] [clk nxt tr lg]]; simpl in *. subst.
  destruct (_cleanup_task (self s)) as [[| | |]|]; cbn.
  all: eexists; split; [reflexivity|]; simpl.
  all: repeat split; try done.
  all: by rewrite <- ?app_assoc, ?app_nil_r.
Qed.

Lemma after_cancel_stopped t : stopped (after_cancel t).
Proof. destruct t; [by right | by left | by left | by right]. Qed.

(** C7.  On a table whose dictionaries agree, [shutdown_all] returns.  On
    its way it has called the immediate shutdown of the backend of every
    session that was registered, and of nothing else, and then no owner has
    a handle, a timestamp or a working directory left.  If a reaper task was
    started, the last two things [shutdown_all] did were to cancel it and to
    await it, and the task is no longer running: its loop has returned, or
    it was cancelled before its loop ever ran. *)
Theorem shutdown_all_spec env s :
  table_inv s →
  ∃ s' calls, shutdown_all env s = (Ok tt, s') ∧
    kernels (self s') = ∅ ∧ last_activity (self s') = ∅ ∧
    working_dirs (self s') = ∅ ∧
    trace (world s')
    = (trace (world s) ++ calls
       ++ match _cleanup_task (self s) with
          | None => []
          | Some _ => [EvCancelTask; EvAwaitTask]
          end)%list ∧
    (∀ ev, ev ∈ calls ↔
       ∃ u km, kernels (self s) !! u = Some km ∧
               ev = EvShutdownKernel (kernel_id km) true) ∧
    match _cleanup_task (self s) with
    | None => _cleanup_task (self s') = None
    | Some _ => ∃ t', _cleanup_task (self s') = Some t' ∧ stopped t'
    end.
Proof.
  intros Hinv.
  destruct (shutdown_all_outcome env s Hinv)
    as (s' & Hrun & Hk & Hl & Hw & Htask & Htr).
  exists s', ((fun it => shutdown_event it.2) <$> map_to_list (kernels (self s))).
  split; [done|]. do 3 (split; [done|]). split; [done|]. split.
  - intros ev. rewrite list_elem_of_fmap. split.
    + intros ([u km] & -> & Hin%elem_of_map_to_list). by exists u, km.
    + intros (u & km & Hu & ->). exists (u, km). split; [done|].
      by apply elem_of_map_to_list.
  - rewrite Htask. destruct (_cleanup_task (self s)) as [t|]; [|done].
    exists (after_cancel t). split; [done | apply after_cancel_stopped].
Qed.

Lemma shutdown_all_spec_witness :
  table_inv two_sessions ∧
  ∃ s' calls, shutdown_all stubborn two_sessions = (Ok tt, s') ∧
    kernels (self s') = ∅ ∧
    trace (world s')
    = (trace (world two_sessions) ++ calls ++ [EvCancelTask; EvAwaitTask])%list ∧
    EvShutdownKernel 0 true ∈ calls ∧ EvShutdownKernel 1 true ∈ calls ∧
    ∃ t', _cleanup_task (self s') = Some t' ∧ stopped t'.
Proof.
  assert (table_inv two_sessions) as Hinv by (vm_compute; done).
  split; [exact Hinv|].
  destruct (shutdown_all_spec stubborn two_sessions Hinv)
    as (s' & calls & Hrun & Hk & _ & _ & Htr & Hcalls & Htask).
  exists s', calls. split; [exact Hrun|]. split; [exact Hk|].
  change (_cleanup_task (self two_sessions)) with (Some TaskSleeping) in Htr, Htask.
  split; [exact Htr|].
  split; [|split].
  - apply Hcalls. exists "bob", (mkKM 0 "/data/bob"). split; [|done].
    vm_compute. reflexivity.
  - apply Hcalls. exists "alice", (mkKM 1 "/data/alice"). split; [|done].
    vm_compute. reflexivity.
  - exact Htask.
Defined.

(** ** Idle Reaper *)

Lemma raises_Exception_ret {A} (a : A) : raises_Exception (mret a).
Proof. intros s e s' [=]. Qed.

Lemma raises_Exception_bind {A B} (m : M A) (f : A → M B) :
  raises_Exception m → (∀ a, raises_Exception (f a)) → raises_Exception (m ≫= f).
Proof.
  intros Hm Hf s e s'. unfold mbind, M_bind.
  destruct (m s) as [[a|e0] s1] eqn:E.
  - apply Hf.
  - intros [= <- <-]. by eapply Hm.
Qed.

Lemma raises_Exception_gets {A} (f : Sys → A) : raises_Exception (gets f).
Proof. intros s e s' [=]. Qed.

Lemma raises_Exception_logger lvl msg : raises_Exception (logger lvl msg).
Proof. intros s e s' [=]. Qed.

Lemma raises_Exception_cleanup_kernel env u : raises_Exception (cleanup_kernel env u).
Proof.
  intros [[ks la wd tmo cap task] [clk nxt tr lg]] e s'.
  unfold cleanup_kernel. run_monad.
  repeat (case_match; simplify_eq/=); try done.
  all: intros [= <- <-]; done.
Qed.

Lemma raises_Exception_cleanup_each env us announce :
  raises_Exception (cleanup_each env us announce).
Proof.
  induction us as [|u us IH]; cbn [cleanup_each]; [apply raises_Exception_ret|].
  apply raises_Exception_bind.
  { destruct announce; [apply raises_Exception_logger | apply raises_Exception_ret]. }
  intros _. apply raises_Exception_bind; [apply raises_Exception_cleanup_kernel|].
  by intros _.
Qed.

Lemma raises_Exception_cleanup_expired_kernels env :
  raises_Exception (cleanup_expired_kernels env).
Proof.
  unfold cleanup_expired_kernels.
  apply raises_Exception_bind; [apply raises_Exception_gets|]. intros now.
  apply raises_Exception_bind; [apply raises_Exception_gets|]. intros us.
  apply raises_Exception_cleanup_each.
Qed.

Lemma periodic_cleanup_turn_elapsed sweep s :
  raises_Exception sweep →
  ∃ s', periodic_cleanup_turn sweep Elapsed s = (Ok true, s').
Proof.
  intros Hsweep. unfold periodic_cleanup_turn, attempt, asyncio_sleep.
  unfold mbind, M_bind.
  destruct (elapse (60 * second) s) as [[[]|e0] s0] eqn:E0; [|done].
  destruct (sweep s0) as [[[]|e] s1] eqn:E1; [by eexists|].
  apply Hsweep in E1.
  destruct e as [[] msg]; try done; by eexists.
Qed.

Lemma periodic_cleanup_turn_failed sweep s e s1 :
  sweep (elapse (60 * second) s).2 = (Raise e, s1) →
  is_Exception (exn_class e) = true →
  periodic_cleanup_turn sweep Elapsed s
  = (Ok true, (logger ERROR ("Error in cleanup task: " +:+ exn_str e) s1).2).
Proof.
  intros Hsweep He.
  unfold periodic_cleanup_turn, attempt, asyncio_sleep, mbind, M_bind.
  change (elapse (60 * second) s) with (Ok tt, (elapse (60 * second) s).2).
  cbv beta iota. rewrite Hsweep.
  destruct e as [[] msg]; done.
Qed.

Lemma periodic_cleanup_loop_alive sweep wakes s :
  raises_Exception sweep → Forall (fun w => w = Elapsed) wakes →
  ∃ s', periodic_cleanup_loop sweep wakes s = (Ok TaskSleeping, s').
Proof.
  intros Hsweep Hw. revert s.
  induction Hw as [|w wakes -> _ IH]; intros s; [by eexists|].
  cbn [periodic_cleanup_loop]. unfold mbind, M_bind.
  destruct (periodic_cleanup_turn_elapsed sweep s Hsweep) as (s1 & ->).
  apply IH.
Qed.

Lemma periodic_cleanup_turn_returns sweep w s :
  ∃ again s', periodic_cleanup_turn sweep w s = (Ok again, s').
Proof.
  unfold periodic_cleanup_turn, attempt, mbind, M_bind.
  destruct ((let (r, s') := asyncio_sleep w s in
             match r with Ok _ => sweep s' | Raise e => (Raise e, s') end))
    as [[[]|e] s1]; [by eexists _, _|].
  destruct e as [[] msg]; by eexists _, _.
Qed.

Lemma periodic_cleanup_loop_returns sweep wakes s :
  ∃ st s', periodic_cleanup_loop sweep wakes s = (Ok st, s').
Proof.
  revert s. induction wakes as [|w wakes IH]; intros s; [by eexists _, _|].
  cbn [periodic_cleanup_loop]. unfold mbind, M_bind.
  destruct (periodic_cleanup_turn_returns sweep w s) as (again & s1 & ->).
  destruct again; [apply IH | by eexists _, _].
Qed.

Example failing_sweeps_go_on :
  ∃ s', periodic_cleanup_loop failing_sweep [Elapsed; Elapsed; Cancelled; Elapsed]
          (boot 30 3) = (Ok TaskFinished, s') ∧
        log (world s') = [ (ERROR, "Error in cleanup task: boom");
                           (ERROR, "Error in cleanup task: boom") ] ∧
        clock (world s') = 120 * second.
Proof. eexists. split; [reflexivity|]. done. Qed.

(** C9.  The loop of the reaper, around any sweep and from any state:
    - it never raises: along any sequence of ends of its sleeps it is
      either still in a sleep or has returned;
    - when a sweep raises an instance of [Exception], the message goes to
      the log at level ERROR and the loop goes on with the next sleep and
      the next sweep;
    - when a sleep is cancelled the loop returns at once, without an
      exception and without touching the state;
    - around the sweep [cleanup_expired_kernels], the loop is still running
      after any number of sleeps that were not cancelled. *)
Theorem periodic_cleanup_spec (sweep : M unit) (wakes : list Wake) (s : Sys) :
  (∃ st s', periodic_cleanup_loop sweep wakes s = (Ok st, s')) ∧
  (∀ e s1,
     sweep (elapse (60 * second) s).2 = (Raise e, s1) →
     is_Exception (exn_class e) = true →
     periodic_cleanup_loop sweep (Elapsed :: wakes) s
     = periodic_cleanup_loop sweep wakes
         (logger ERROR ("Error in cleanup task: " +:+ exn_str e) s1).2) ∧
  periodic_cleanup_loop sweep (Cancelled :: wakes) s = (Ok TaskFinished, s) ∧
  (∀ env, Forall (fun w => w = Elapsed) wakes →
     ∃ s', _periodic_cleanup env wakes s = (Ok TaskSleeping, s')).
Proof.
  split; [apply periodic_cleanup_loop_returns|].
  split; [|split; [reflexivity|]].
  - intros e s1 Hsweep He.
    cbn [periodic_cleanup_loop]. unfold mbind at 1, M_bind at 1.
    by rewrite (periodic_cleanup_turn_failed sweep s e s1 Hsweep He).
  - intros env Hw. apply periodic_cleanup_loop_alive; [|done].
    apply raises_Exception_cleanup_expired_kernels.
Qed.

(** ** Session Table: creating a session *)

Lemma bind_Ok_inv {A B} (m : M A) (f : A → M B) s b s' :
  (m ≫= f) s = (Ok b, s') →
  ∃ a s1, m s = (Ok a, s1) ∧ f a s1 = (Ok b, s').
Proof.
  unfold mbind, M_bind. destruct (m s) as [[a|e] s1]; [|done]. eauto.
Qed.

Lemma bind_Raise_inv {A B} (m : M A) (f : A → M B) s e s' :
  (m ≫= f) s = (Raise e, s') →
  m s = (Raise e, s') ∨ ∃ a s1, m s = (Ok a, s1) ∧ f a s1 = (Raise e, s').
Proof.
  unfold mbind, M_bind. destruct (m s) as [[a|e0] s1]; [eauto|].
  intros [= <- <-]. by left.
Qed.

Lemma raises_only_bind {A B} P (m : M A) (f : A → M B) :
  raises_only P m → (∀ a, raises_only P (f a)) → raises_only P (m ≫= f).
Proof.
  intros Hm Hf s e s' [H|(a & s1 & _ & H)]%bind_Raise_inv.
  - by eapply Hm.
  - by eapply Hf.
Qed.

Lemma raises_only_ret {A} P (a : A) : raises_only P (mret a).
Proof. intros s e s' [=]. Qed.

Lemma raises_only_gets {A} P (f : Sys → A) : raises_only P (gets f).
Proof. intros s e s' [=]. Qed.

Lemma raises_only_modify P f : raises_only P (modify f).
Proof. intros s e s' [=]. Qed.

Lemma raises_only_raise {A} (P : Exn → Prop) e : P e → raises_only P (raise e : M A).
Proof. intros He s e' s' [= <- <-]. done. Qed.

Lemma raises_only_attempt {A} P (m : M A) : raises_only P (attempt m).
Proof. intros s e s'. unfold attempt. by destruct (m s). Qed.

Lemma raises_only_call P ev o :
  (∀ msg, P (mkExn OtherException msg)) → raises_only P (call ev o).
Proof.
  intros HP. unfold call, emit.
  apply raises_only_bind; [apply raises_only_modify|]. intros _.
  destruct o; [by apply raises_only_raise | apply raises_only_ret].
Qed.

Lemma after_quota_other msg : after_quota (mkExn OtherException msg).
Proof. by left. Qed.

Lemma raises_only_init_wait_silent P fuel start km :
  raises_only P (init_wait_silent fuel start km).
Proof.
  induction fuel as [|fuel IH]; cbn [init_wait_silent].
  all: apply raises_only_bind; [apply raises_only_gets|]; intros now.
  all: case_match; try apply raises_only_ret.
  unfold emit, elapse.
  do 2 (apply raises_only_bind; [apply raises_only_modify|]; intros _).
  done.
Qed.

Lemma raises_only_init_wait P polls start km :
  raises_only P (init_wait polls start km).
Proof.
  induction polls as [|p polls IH]; cbn [init_wait].
  { apply raises_only_init_wait_silent. }
  apply raises_only_bind; [apply raises_only_gets|]; intros now.
  case_match; [|apply raises_only_ret].
  unfold emit, elapse.
  apply raises_only_bind; [apply raises_only_modify|]; intros _.
  destruct p.
  - apply raises_only_bind; [apply raises_only_modify|]; intros _.
    case_match; [apply raises_only_ret | done].
  - apply raises_only_bind; [apply raises_only_modify|]; intros _. done.
Qed.

Lemma raises_only_await_ready env km : raises_only after_quota (await_ready env km).
Proof.
  intros s e s'. unfold await_ready, attempt, wait_until_ready.
  unfold mbind at 1, M_bind at 1.
  destruct (wait_for_ready env (kernel_id km)) as [d o].
  destruct s as [sf [clk nxt tr lg]]. unfold km_shutdown_kernel. run_monad.
  destruct (d <? 60 * second).
  - destruct o; cbn; intros [= <- <-]. by left.
  - cbn. destruct (shutdown_kernel env (kernel_id km) false); cbn.
    + intros [= <- <-]. by left.
    + intros [= <- <-]. by right.
Qed.

Lemma raises_only_bootstrap env km : raises_only after_quota (bootstrap env km).
Proof.
  unfold bootstrap.
  apply raises_only_bind; [apply raises_only_call, after_quota_other|]. intros _.
  apply raises_only_bind; [apply raises_only_gets|]. intros start.
  apply raises_only_init_wait.
Qed.

Lemma register_eq u wd km s : register u wd km s = (Ok km, registered u wd km s).
Proof. by destruct s as [[] []]. Qed.

Lemma raises_only_resume env u wd km :
  raises_only after_quota (get_or_create_kernel_resume env u wd km).
Proof.
  unfold get_or_create_kernel_resume.
  apply raises_only_bind; [apply raises_only_await_ready|]. intros _.
  apply raises_only_bind; [apply raises_only_bootstrap|]. intros _.
  intros s e s'. by rewrite register_eq.
Qed.

Lemma quota_exceeded_not_after_quota u cap : ¬ after_quota (quota_exceeded u cap).
Proof. intros [H|H]; discriminate H. Qed.

Lemma start_backend_quota env u wd s :
  max_kernels_per_user (self s) ≤ count_user_kernels u (kernels (self s)) →
  start_backend env u wd s
  = (Raise (quota_exceeded u (max_kernels_per_user (self s))), s).
Proof.
  intros H. unfold start_backend, mbind, M_bind, gets.
  by destruct (Z.leb_spec (max_kernels_per_user (self s))
                 (count_user_kernels u (kernels (self s)))); [|lia].
Qed.

Lemma start_backend_below env u wd s :
  count_user_kernels u (kernels (self s)) < max_kernels_per_user (self s) →
  (∀ e s', start_backend env u wd s = (Raise e, s') → after_quota e) ∧
  (∀ km s', start_backend env u wd s = (Ok km, s') →
     km = mkKM (next_kernel_id (world s)) wd ∧
     next_kernel_id (world s') = S (next_kernel_id (world s))).
Proof.
  intros H. destruct s as [[ks la dirs tmo cap task] [clk nxt tr lg]].
  simpl in H. unfold start_backend, new_kernel_manager. run_monad.
  cbn [kernel_id].
  destruct (Z.leb_spec cap (count_user_kernels u ks)); [lia|].
  destruct (mkdir env wd); cbn.
  { split; [intros e s' [= <- <-]; by left | done]. }
  destruct (start_kernel env nxt); cbn.
  { split; [intros e s' [= <- <-]; by left | done]. }
  destruct (start_channels env nxt); cbn.
  { split; [intros e s' [= <- <-]; by left | done]. }
  split; [done|]. by intros km s' [= <- <-].
Qed.

(** A call that does not hand back a live kernel continues from a table
    in which the owner has no entry. *)
Lemma get_or_create_kernel_absent env u wd s :
  kernels (self s) !! u = None →
  get_or_create_kernel env u wd s
  = (start_backend env u wd ≫= get_or_create_kernel_resume env u wd) s.
Proof.
  intros Hk. unfold get_or_create_kernel, get_or_create_kernel_begin.
  unfold mbind at 1 2, M_bind at 1 2. rewrite lookup_live_absent by done.
  unfold mbind, M_bind.
  destruct (start_backend env u wd s) as [[km|e] s1]; done.
Qed.

Lemma destroyed_lookup env u s : table_inv s → kernels (self (destroyed env u s)) !! u = None.
Proof.
  intros Hinv. destruct (destroyed_removed env u s Hinv) as (-> & _).
  rewrite bool_decide_eq_true_2; [done | set_solver].
Qed.

Lemma expired_lookup env u s : table_inv s → kernels (self (expired env u s)) !! u = None.
Proof.
  intros Hinv. apply destroyed_lookup. destruct s as [[] []]. exact Hinv.
Qed.

Lemma get_or_create_kernel_expired env u wd s km :
  table_inv s → kernels (self s) !! u = Some km → ¬ live u s →
  get_or_create_kernel env u wd s
  = get_or_create_kernel env u wd (expired env u s).
Proof.
  intros Hinv Hk Hlive.
  rewrite (get_or_create_kernel_absent env u wd (expired env u s))
    by (by apply expired_lookup).
  unfold get_or_create_kernel, get_or_create_kernel_begin.
  unfold mbind at 1 2, M_bind at 1 2.
  destruct (lookup_live_cases env u s Hinv)
    as [[Hk' _]|[(km' & _ & Hl & _)|(km' & _ & _ & ->)]]; [congruence|done|].
  unfold mbind, M_bind.
  destruct (start_backend env u wd (expired env u s)) as [[km1|e] s1]; done.
Qed.

Lemma get_or_create_kernel_live env u wd s km :
  kernels (self s) !! u = Some km → live u s →
  get_or_create_kernel env u wd s = (Ok km, reused u s).
Proof.
  intros Hk Hlive. unfold live in Hlive.
  destruct (last_activity (self s) !! u) as [t|] eqn:Ht; [|done].
  unfold get_or_create_kernel, get_or_create_kernel_begin.
  unfold mbind, M_bind. by rewrite (lookup_live_fresh env u s km t).
Qed.

Example stale_table :
  kernels (self stale) = {[ "alice" := mkKM 0 "/data/alice" ]} ∧
  last_activity (self stale) = {[ "alice" := Datetime 2000100 ]} ∧
  clock (world stale) = 62000100 ∧
  next_kernel_id (world stale) = 2%nat.
Proof. vm_compute. done. Qed.

Example crowded_table :
  kernels (self crowded)
  = {[ "ann" := mkKM 0 "/data/ann"; "anna" := mkKM 2 "/data/anna" ]} ∧
  last_activity (self crowded)
  = {[ "ann" := Datetime 2000100; "anna" := Datetime 64000200 ]} ∧
  clock (world crowded) = 64000200.
Proof. vm_compute. done. Qed.

Lemma destroyed_self env u s :
  table_inv s →
  kernels (self (destroyed env u s)) = delete u (kernels (self s)) ∧
  last_activity (self (destroyed env u s)) = delete u (last_activity (self s)) ∧
  working_dirs (self (destroyed env u s)) = delete u (working_dirs (self s)) ∧
  max_kernels_per_user (self (destroyed env u s)) = max_kernels_per_user (self s) ∧
  next_kernel_id (world (destroyed env u s)) = next_kernel_id (world s).
Proof.
  intros Hinv. unfold destroyed.
  destruct (kernels (self s) !! u) as [km|] eqn:Hk.
  - by destruct s as [[] []].
  - destruct (table_inv_absent s u Hinv Hk) as [Hl Hw].
    by rewrite !delete_id.
Qed.

Lemma expired_self env u s :
  table_inv s →
  kernels (self (expired env u s)) = delete u (kernels (self s)) ∧
  last_activity (self (expired env u s)) = delete u (last_activity (self s)) ∧
  working_dirs (self (expired env u s)) = delete u (working_dirs (self s)) ∧
  max_kernels_per_user (self (expired env u s)) = max_kernels_per_user (self s) ∧
  next_kernel_id (world (expired env u s)) = next_kernel_id (world s).
Proof.
  intros Hinv. unfold expired.
  set (s1 := (logger INFO _ s).2).
  assert (table_inv s1) as Hinv1 by (destruct s as [[] []]; exact Hinv).
  destruct (destroyed_self env u s1 Hinv1) as (-> & -> & -> & -> & ->).
  by destruct s as [[] []].
Qed.

Lemma expired_trace env u s km :
  kernels (self s) !! u = Some km →
  trace (world (expired env u s))
  = (trace (world s) ++ [EvShutdownKernel (kernel_id km) true])%list.
Proof.
  intros Hk. unfold expired, destroyed.
  destruct s as [[] []]; simpl in *. by rewrite Hk.
Qed.

(** What a call makes of a table in which the owner has no entry. *)
Lemma get_or_create_kernel_absent_outcome env u wd s r s' :
  kernels (self s) !! u = None →
  get_or_create_kernel env u wd s = (r, s') →
  match r with
  | Ok km =>
      km = mkKM (next_kernel_id (world s)) wd ∧
      kernels (self s') = <[u := km]> (kernels (self s)) ∧
      working_dirs (self s') = <[u := wd]> (working_dirs (self s)) ∧
      (∃ t, last_activity (self s') = <[u := t]> (last_activity (self s))) ∧
      next_kernel_id (world s') = S (next_kernel_id (world s))
  | Raise e =>
      self s' = self s ∧
      (next_kernel_id (world s) ≤ next_kernel_id (world s'))%nat ∧
      (e = quota_exceeded u (max_kernels_per_user (self s)) ↔
       max_kernels_per_user (self s) ≤ count_user_kernels u (kernels (self s)))
  end.
Proof.
  intros Hk. rewrite get_or_create_kernel_absent by done.
  destruct (Z_le_gt_dec (max_kernels_per_user (self s))
              (count_user_kernels u (kernels (self s)))) as [Hq|Hq].
  { unfold mbind, M_bind. rewrite start_backend_quota by done.
    intros [= <- <-]. done. }
  destruct (start_backend_below env u wd s) as [Hraise Hok]; [lia|].
  assert (∀ e, after_quota e →
            e = quota_exceeded u (max_kernels_per_user (self s)) ↔
            max_kernels_per_user (self s) ≤ count_user_kernels u (kernels (self s)))
    as Hne.
  { intros e He. split; [|lia].
    intros ->. by apply quota_exceeded_not_after_quota in He. }
  pose proof (start_backend_world env u wd s) as [Hs1 Hn1].
  destruct r as [km'|e].
  - intros (km & s1 & Hstart & Hres)%bind_Ok_inv.
    destruct (Hok km s1 Hstart) as [-> Hnext].
    rewrite Hstart in Hs1. simpl in Hs1.
    unfold get_or_create_kernel_resume in Hres.
    apply bind_Ok_inv in Hres as ([] & s2 & Hready & Hres).
    apply bind_Ok_inv in Hres as ([] & s3 & Hboot & Hres).
    rewrite register_eq in Hres. injection Hres as <- <-.
    pose proof (quiet_await_ready env (mkKM (next_kernel_id (world s)) wd) s1)
      as [Hs2 Hn2].
    rewrite Hready in Hs2, Hn2. simpl in Hs2, Hn2.
    pose proof (quiet_bootstrap env (mkKM (next_kernel_id (world s)) wd) s2)
      as [Hs3 Hn3].
    rewrite Hboot in Hs3, Hn3. simpl in Hs3, Hn3.
    assert (self s3 = self s) as Hself by congruence.
    assert (next_kernel_id (world s3) = S (next_kernel_id (world s))) as Hn
      by congruence.
    destruct s3 as [[] []], s as [[] []]; simpl in *.
    injection Hself as -> -> -> -> -> ->. eauto 10.
  - intros [Hstart|(km & s1 & Hstart & Hres)]%bind_Raise_inv.
    + rewrite Hstart in Hs1, Hn1. repeat split; try done.
      all: apply Hne; by eapply Hraise.
    + rewrite Hstart in Hs1, Hn1. simpl in Hs1, Hn1.
      assert (self s' = self s ∧
              next_kernel_id (world s') = next_kernel_id (world s1)) as [? Hn].
      { unfold get_or_create_kernel_resume in Hres.
        pose proof (quiet_await_ready env km s1) as [Hs2 Hn2].
        apply bind_Raise_inv in Hres as [Hready|([] & s2 & Hready & Hres)];
          rewrite Hready in Hs2, Hn2; simpl in Hs2, Hn2; [split; congruence|].
        pose proof (quiet_bootstrap env km s2) as [Hs3 Hn3].
        apply bind_Raise_inv in Hres as [Hboot|([] & s3 & Hboot & Hres)];
          rewrite Hboot in Hs3, Hn3; simpl in Hs3, Hn3; [split; congruence|].
        by rewrite register_eq in Hres. }
      split; [done|]. split; [lia|].
      apply Hne. by eapply raises_only_resume.
Qed.

(** ** Session Table: the quota *)

Lemma count_user_kernels_insert u k km (d : gmap string KM) :
  d !! k = None →
  count_user_kernels u (<[k := km]> d)
  = count_user_kernels u d + (if PyStr.startswith k u then 1 else 0).
Proof.
  intros Hk. unfold count_user_kernels, PyDict.keys.
  rewrite map_to_list_insert by done.
  rewrite fmap_cons, filter_cons. cbn [fst].
  destruct (PyStr.startswith k u) eqn:E.
  - rewrite decide_True by done. simpl List.length. lia.
  - rewrite decide_False by (by intros ?). lia.
Qed.

Example anna_only_table :
  kernels (self anna_only) = {[ "anna" := mkKM 0 "/data/anna" ]} ∧
  max_kernels_per_user (self anna_only) = 1.
Proof. vm_compute. done. Qed.

(** What the quota check counts.  A call of [get_or_create_kernel] that
    does not hand back a live kernel of the owner raises the quota error
    exactly when the cap is at most the number of keys of [self.kernels],
    the owner's own expired entry set aside, that start with the owner's
    id.  A session registered under another key adds one to that number if
    the key starts with the owner's id, and nothing otherwise. *)
Lemma quota_counts_prefixes env u wd s :
  table_inv s → ¬ live u s →
  ((get_or_create_kernel env u wd s).1
   = Raise (quota_exceeded u (max_kernels_per_user (self s))) ↔
   max_kernels_per_user (self s)
   ≤ count_user_kernels u (delete u (kernels (self s)))) ∧
  (∀ k km (d : gmap string KM), d !! k = None →
     count_user_kernels u (<[k := km]> d)
     = count_user_kernels u d + (if PyStr.startswith k u then 1 else 0)).
Proof.
  intros Hinv Hlive. split; [|intros; by apply count_user_kernels_insert].
  assert (∀ s0, kernels (self s0) !! u = None →
            (get_or_create_kernel env u wd s0).1
            = Raise (quota_exceeded u (max_kernels_per_user (self s0))) ↔
            max_kernels_per_user (self s0)
            ≤ count_user_kernels u (kernels (self s0))) as Habsent.
  { intros s0 Hk0.
    destruct (get_or_create_kernel env u wd s0) as [r s'] eqn:E.
    pose proof (get_or_create_kernel_absent_outcome env u wd s0 r s' Hk0 E) as H.
    destruct r as [km|e]; simpl.
    - destruct H as (-> & _). split; [done|]. intros Hq.
      rewrite get_or_create_kernel_absent in E by done.
      unfold mbind, M_bind in E. by rewrite start_backend_quota in E.
    - destruct H as (_ & _ & H). rewrite <- H.
      split; [by intros [= ->] | by intros ->]. }
  destruct (kernels (self s) !! u) as [km|] eqn:Hk.
  - rewrite (get_or_create_kernel_expired env u wd s km) by done.
    destruct (expired_self env u s Hinv) as (Hks & _ & _ & Hcap & _).
    rewrite <- Hks, <- Hcap. apply Habsent. by apply expired_lookup.
  - rewrite delete_id by done. by apply Habsent.
Qed.

(** C2 does not hold of the code.  Line 82 counts the keys of
    [self.kernels] that start with the id of the requesting owner, not the
    sessions of that owner, and the table holds one session per key.  So
    the check is off in both directions.
    - A session of another owner counts toward the quota of the requester
      when its key starts with the requester's id: on a service with a cap
      of 1 whose only session belongs to "anna", the owner "ann" holds no
      session, and yet a request of "ann" raises the quota error.
    - The cap is not kept where the repository expects it to be, in
      [test_max_kernels_per_user]: with a cap of 2 and the sessions
      "test_user_3_1" and "test_user_3_2", the request for "test_user_3_3"
      raises nothing, since no key starts with that id; it creates a third
      session, where the test expects a [RuntimeError]. *)
Theorem quota_check_by_prefix :
  (∀ env u wd s, table_inv s → ¬ live u s →
     ((get_or_create_kernel env u wd s).1
      = Raise (quota_exceeded u (max_kernels_per_user (self s))) ↔
      max_kernels_per_user (self s)
      ≤ count_user_kernels u (delete u (kernels (self s))))) ∧
  (∀ u k km (d : gmap string KM), d !! k = None →
     count_user_kernels u (<[k := km]> d)
     = count_user_kernels u d + (if PyStr.startswith k u then 1 else 0)) ∧
  (reachable anna_only ∧
   max_kernels_per_user (self anna_only) = 1 ∧
   sessions_of "ann" anna_only = [] ∧
   (get_or_create_kernel calm "ann" "/data/ann" anna_only).1
   = Raise (quota_exceeded "ann" 1)) ∧
  (reachable test_fixture ∧
   max_kernels_per_user (self test_fixture) = 2 ∧
   dom (kernels (self test_fixture)) = {[ "test_user_3_1"; "test_user_3_2" ]} ∧
   (get_or_create_kernel calm "test_user_3_3" "/tmp/t" test_fixture).1
   = Ok (mkKM 2 "/tmp/t") ∧
   dom (kernels (self (get_or_create_kernel calm "test_user_3_3" "/tmp/t"
                         test_fixture).2))
   = {[ "test_user_3_1"; "test_user_3_2"; "test_user_3_3" ]}).
Proof.
  split; [intros env u wd s Hinv Hlive;
          exact (proj1 (quota_counts_prefixes env u wd s Hinv Hlive))|].
  split; [intros; by apply count_user_kernels_insert|].
  split.
  { split; [apply reachable_run_ops, reachable_boot|]. vm_compute. done. }
  split; [apply reachable_run_ops, reachable_boot|].
  split; [vm_compute; done|].
  split; [vm_compute; reflexivity|].
  split; [vm_compute; reflexivity|].
  vm_compute. reflexivity.
Qed.

(** ** Session Table: an owner who already has a session *)

Lemma reused_facts u s :
  last_activity (self (reused u s)) !! u = Some (Datetime (clock (world s))) ∧
  kernels (self (reused u s)) = kernels (self s) ∧
  working_dirs (self (reused u s)) = working_dirs (self s) ∧
  trace (world (reused u s)) = trace (world s).
Proof.
  destruct s as [[] []]; simpl. by rewrite lookup_insert_eq.
Qed.

(** *** Fresh identities *)

Lemma shrinks_refl s : shrinks s s.
Proof. split; [done | lia]. Qed.

Lemma shrinks_trans s1 s2 s3 : shrinks s1 s2 → shrinks s2 s3 → shrinks s1 s3.
Proof. intros [H1 ?] [H2 ?]. split; [auto | lia]. Qed.

Lemma ids_fresh_shrinks s s' : ids_fresh s → shrinks s s' → ids_fresh s'.
Proof.
  intros Hf [Hk Hn] u km Hu. specialize (Hf u km (Hk u km Hu)). lia.
Qed.

Lemma shrinks_removed us s s' : removed us s s' → shrinks s s'.
Proof.
  intros (Hk & _ & _ & _ & _ & _ & _ & Hn). split; [|lia].
  intros u km. rewrite Hk. by case_bool_decide.
Qed.

Lemma shrinking_quiet {A} (m : M A) : quiet m → shrinking m.
Proof.
  intros Hm s _. destruct (Hm s) as [Hs Hn]. split; [|lia]. by rewrite Hs.
Qed.

Lemma shrinking_bind {A B} (m : M A) (f : A → M B) :
  keeps_inv m → shrinking m → (∀ a, shrinking (f a)) → shrinking (m ≫= f).
Proof.
  intros Hinv Hm Hf s Hs. unfold mbind, M_bind.
  specialize (Hinv s Hs). specialize (Hm s Hs).
  destruct (m s) as [[a|e] s1]; simpl in *; [|done].
  eapply shrinks_trans; [done | by apply Hf].
Qed.

Lemma shrinking_attempt {A} (m : M A) : shrinking m → shrinking (attempt m).
Proof.
  intros Hm s Hs. unfold attempt. specialize (Hm s Hs). by destruct (m s).
Qed.

Lemma shrinking_set_cleanup_task t : shrinking (modify (set_cleanup_task t)).
Proof. intros s _. split; [done | simpl; lia]. Qed.

Lemma shrinking_cleanup_each env us announce :
  shrinking (cleanup_each env us announce).
Proof.
  intros s Hs. destruct (cleanup_each_ok env us announce s Hs) as (s' & -> & H).
  by eapply shrinks_removed.
Qed.

Lemma shrinking_cleanup_kernel env u : shrinking (cleanup_kernel env u).
Proof.
  intros s Hs. rewrite cleanup_kernel_ok by done.
  eapply shrinks_removed. by apply destroyed_removed.
Qed.

Lemma shrinking_cleanup_expired_kernels env :
  shrinking (cleanup_expired_kernels env).
Proof.
  unfold cleanup_expired_kernels.
  apply shrinking_bind;
    [apply keeps_inv_quiet, quiet_datetime_now
    |apply shrinking_quiet, quiet_datetime_now|].
  intros now.
  apply shrinking_bind;
    [apply keeps_inv_quiet, quiet_gets | apply shrinking_quiet, quiet_gets|].
  intros us. apply shrinking_cleanup_each.
Qed.

Lemma shrinking_periodic_cleanup_turn sweep w :
  keeps_inv sweep → shrinking sweep → shrinking (periodic_cleanup_turn sweep w).
Proof.
  intros Hinv Hsweep. unfold periodic_cleanup_turn.
  apply shrinking_bind.
  - apply keeps_inv_attempt, keeps_inv_bind; [|done].
    apply keeps_inv_quiet, quiet_asyncio_sleep.
  - apply shrinking_attempt, shrinking_bind; [| |done].
    + apply keeps_inv_quiet, quiet_asyncio_sleep.
    + apply shrinking_quiet, quiet_asyncio_sleep.
  - intros [?|e]; apply shrinking_quiet; quiet_tac.
Qed.

Lemma shrinking_periodic_cleanup_loop sweep wakes :
  keeps_inv sweep → shrinking sweep → shrinking (periodic_cleanup_loop sweep wakes).
Proof.
  intros Hinv Hsweep. induction wakes as [|w wakes IH]; cbn [periodic_cleanup_loop].
  - apply shrinking_quiet, quiet_ret.
  - apply shrinking_bind.
    + by apply keeps_inv_periodic_cleanup_turn.
    + by apply shrinking_periodic_cleanup_turn.
    + intros [|]; [done | apply shrinking_quiet, quiet_ret].
Qed.

Lemma shrinking_periodic_cleanup env wakes : shrinking (_periodic_cleanup env wakes).
Proof.
  apply shrinking_periodic_cleanup_loop.
  - apply keeps_inv_cleanup_expired_kernels.
  - apply shrinking_cleanup_expired_kernels.
Qed.

Lemma shrinking_start_cleanup_task : shrinking start_cleanup_task.
Proof.
  unfold start_cleanup_task.
  apply shrinking_bind;
    [apply keeps_inv_quiet, quiet_gets | apply shrinking_quiet, quiet_gets|].
  intros [t|]; [apply shrinking_quiet, quiet_ret|].
  apply shrinking_set_cleanup_task.
Qed.

Lemma shrinking_run_cleanup_task env wakes : shrinking (run_cleanup_task env wakes).
Proof.
  unfold run_cleanup_task.
  apply shrinking_bind;
    [apply keeps_inv_quiet, quiet_gets | apply shrinking_quiet, quiet_gets|].
  intros [[| | |]|]; try apply shrinking_quiet, quiet_ret.
  all: apply shrinking_bind;
    [apply keeps_inv_periodic_cleanup | apply shrinking_periodic_cleanup|].
  all: intros; apply shrinking_set_cleanup_task.
Qed.

Lemma shrinking_cancel_and_await env t : shrinking (cancel_and_await env t).
Proof.
  unfold cancel_and_await.
  apply shrinking_bind;
    [apply keeps_inv_quiet, quiet_emit | apply shrinking_quiet, quiet_emit|].
  intros _.
  apply shrinking_bind;
    [apply keeps_inv_quiet, quiet_emit | apply shrinking_quiet, quiet_emit|].
  intros _. destruct t.
  - apply shrinking_bind;
      [apply keeps_inv_set_cleanup_task | apply shrinking_set_cleanup_task|].
    intros; apply shrinking_quiet, quiet_raise.
  - apply shrinking_bind;
      [apply keeps_inv_periodic_cleanup | apply shrinking_periodic_cleanup|].
    intros; apply shrinking_set_cleanup_task.
  - apply shrinking_quiet, quiet_ret.
  - apply shrinking_quiet, quiet_raise.
Qed.

Lemma shrinking_shutdown_all env : shrinking (shutdown_all env).
Proof.
  unfold shutdown_all.
  apply shrinking_bind;
    [apply keeps_inv_quiet, quiet_logger | apply shrinking_quiet, quiet_logger|].
  intros _.
  apply shrinking_bind;
    [apply keeps_inv_quiet, quiet_gets | apply shrinking_quiet, quiet_gets|].
  intros us.
  apply shrinking_bind;
    [apply keeps_inv_cleanup_each | apply shrinking_cleanup_each|].
  intros _.
  apply shrinking_bind;
    [apply keeps_inv_quiet, quiet_gets | apply shrinking_quiet, quiet_gets|].
  intros [t|]; [|apply shrinking_quiet, quiet_ret].
  apply shrinking_bind.
  - apply keeps_inv_attempt, keeps_inv_cancel_and_await.
  - apply shrinking_attempt, shrinking_cancel_and_await.
  - intros [?|e]; apply shrinking_quiet; quiet_tac.
Qed.

Lemma get_or_create_kernel_absent_ids_fresh env u wd s :
  kernels (self s) !! u = None → ids_fresh s →
  ids_fresh (get_or_create_kernel env u wd s).2.
Proof.
  intros Hk Hf.
  destruct (get_or_create_kernel env u wd s) as [r s'] eqn:E.
  apply get_or_create_kernel_absent_outcome in E; [|done]. simpl.
  destruct r as [km|e].
  - destruct E as (-> & Hks & _ & _ & Hn). intros v km. rewrite Hks, Hn.
    rewrite lookup_insert. case_decide.
    + intros [= <-]. simpl. lia.
    + intros Hv. specialize (Hf v km Hv). lia.
  - destruct E as (Hs & Hn & _). intros v km. rewrite Hs.
    intros Hv. specialize (Hf v km Hv). lia.
Qed.

Lemma get_or_create_kernel_ids_fresh env u wd s :
  table_inv s → ids_fresh s → ids_fresh (get_or_create_kernel env u wd s).2.
Proof.
  intros Hinv Hf.
  destruct (kernels (self s) !! u) as [km|] eqn:Hk;
    [|by apply get_or_create_kernel_absent_ids_fresh].
  destruct (decide (live u s)) as [Hlive|Hlive].
  - rewrite (get_or_create_kernel_live env u wd s km) by done. simpl.
    destruct (reused_facts u s) as (_ & Hks & _).
    intros v km'. rewrite Hks. intros Hv. specialize (Hf v km' Hv).
    by destruct s as [[] []].
  - rewrite (get_or_create_kernel_expired env u wd s km) by done.
    apply get_or_create_kernel_absent_ids_fresh; [by apply expired_lookup|].
    destruct (expired_self env u s Hinv) as (Hks & _ & _ & _ & Hn).
    intros v km'. rewrite Hks, Hn. rewrite lookup_delete. case_decide; [done|].
    apply Hf.
Qed.

Lemma run_op_ids_fresh env op s :
  sequential op → table_inv s → ids_fresh s → ids_fresh (run_op env op s).
Proof.
  intros Hseq Hinv Hf. destruct op; cbn [run_op]; try done.
  - by apply get_or_create_kernel_ids_fresh.
  - eapply ids_fresh_shrinks; [done | by apply shrinking_cleanup_kernel].
  - eapply ids_fresh_shrinks; [done | by apply shrinking_cleanup_expired_kernels].
  - eapply ids_fresh_shrinks; [done | by apply shrinking_shutdown_all].
  - eapply ids_fresh_shrinks; [done | by apply shrinking_start_cleanup_task].
  - eapply ids_fresh_shrinks; [done | by apply shrinking_run_cleanup_task].
Qed.

(** Operations that run one after the other lead from start-up to tables
    all of whose handles were created before now. *)
Lemma run_ops_ids_fresh env ops s :
  Forall sequential ops → table_inv s → ids_fresh s →
  table_inv (run_ops env ops s) ∧ ids_fresh (run_ops env ops s).
Proof.
  intros Hseq. revert s. induction Hseq as [|op ops Hop _ IH]; intros s Hinv Hf;
    [done|].
  apply IH; [by apply run_op_table_inv | by apply run_op_ids_fresh].
Qed.

Lemma boot_ids_fresh tm cap : ids_fresh (boot tm cap).
Proof. intros u km Hu. simpl in Hu. by rewrite lookup_empty in Hu. Qed.

(** C3, as the code has it.  Let the owner hold the session [old] in a
    table whose dictionaries agree and whose handles were all created
    before now (as in every state that operations running one after the
    other lead to, see [run_ops_ids_fresh]).
    - If now minus the last activity is below the idle timeout, the call
      returns [old], with the timestamp of the owner set to now, the
      handles as they were and no call made to any backend.
    - Otherwise the call shuts [old] down at once, removes the three entries
      of the owner, and goes on exactly as a call for an owner without an
      entry does.  If it returns a session, that session has another
      identity than [old] and is the one registered for the owner; if it
      raises, as it does when the new backend does not start, the owner is
      left without a session.
    - So the call returns [old] exactly in the first case. *)
Theorem get_or_create_kernel_existing env u wd s old :
  table_inv s → ids_fresh s → kernels (self s) !! u = Some old →
  (live u s →
     get_or_create_kernel env u wd s = (Ok old, reused u s) ∧
     last_activity (self (reused u s)) !! u = Some (Datetime (clock (world s))) ∧
     kernels (self (reused u s)) = kernels (self s) ∧
     trace (world (reused u s)) = trace (world s)) ∧
  (¬ live u s →
     get_or_create_kernel env u wd s
     = get_or_create_kernel env u wd (expired env u s) ∧
     trace (world (expired env u s))
     = (trace (world s) ++ [EvShutdownKernel (kernel_id old) true])%list ∧
     kernels (self (expired env u s)) = delete u (kernels (self s)) ∧
     last_activity (self (expired env u s)) = delete u (last_activity (self s)) ∧
     working_dirs (self (expired env u s)) = delete u (working_dirs (self s)) ∧
     (∀ km' s', get_or_create_kernel env u wd s = (Ok km', s') →
        kernel_id km' ≠ kernel_id old ∧ kernels (self s') !! u = Some km') ∧
     (∀ e s', get_or_create_kernel env u wd s = (Raise e, s') →
        kernels (self s') !! u = None)) ∧
  ((∃ s', get_or_create_kernel env u wd s = (Ok old, s')) ↔ live u s).
Proof.
  intros Hinv Hfresh Hk.
  assert (¬ live u s →
          ∀ r s', get_or_create_kernel env u wd s = (r, s') →
            match r with
            | Ok km' => kernel_id km' ≠ kernel_id old ∧
                        kernels (self s') !! u = Some km'
            | Raise _ => kernels (self s') !! u = None
            end) as Hexp.
  { intros Hlive r s' E.
    rewrite (get_or_create_kernel_expired env u wd s old) in E by done.
    apply get_or_create_kernel_absent_outcome in E; [|by apply expired_lookup].
    destruct (expired_self env u s Hinv) as (Hks & _ & _ & _ & Hnext).
    destruct r as [km'|e].
    - destruct E as (-> & -> & _). rewrite lookup_insert_eq. split; [|done].
      cbn [kernel_id]. rewrite Hnext. specialize (Hfresh u old Hk). lia.
    - destruct E as (-> & _). by apply expired_lookup. }
  split; [|split].
  - intros Hlive. split; [by apply get_or_create_kernel_live|].
    destruct (reused_facts u s) as (? & ? & _ & ?). done.
  - intros Hlive.
    destruct (expired_self env u s Hinv) as (? & ? & ? & _).
    split; [by eapply get_or_create_kernel_expired|].
    split; [by apply expired_trace|].
    repeat (split; [done|]).
    split; [intros km' s' E; exact (Hexp Hlive _ _ E)
           | intros e s' E; exact (Hexp Hlive _ _ E)].
  - split.
    + intros [s' E]. destruct (decide (live u s)) as [|Hlive]; [done|].
      destruct (Hexp Hlive _ _ E) as [Hne _]. done.
    + intros Hlive. eexists. by apply get_or_create_kernel_live.
Qed.

Lemma get_or_create_kernel_existing_witness :
  table_inv stale ∧ ids_fresh stale ∧
  kernels (self stale) !! "alice" = Some (mkKM 0 "/data/alice") ∧
  ¬ live "alice" stale ∧
  ∃ s', get_or_create_kernel calm "alice" "/srv/alice" stale
        = (Ok (mkKM 2 "/srv/alice"), s') ∧
        kernels (self s') !! "alice" = Some (mkKM 2 "/srv/alice").
Proof.
  assert (table_inv stale) as Hinv by (vm_compute; done).
  assert (kernels (self stale) !! "alice" = Some (mkKM 0 "/data/alice")) as Hk
    by (vm_compute; done).
  assert (ids_fresh stale) as Hfresh.
  { intros u km. destruct stale_table as (-> & _ & _ & ->).
    intros [<- <-]%lookup_singleton_Some. simpl. lia. }
  assert (¬ live "alice" stale) as Hlive by (intros H; vm_compute in H; done).
  do 3 (split; [assumption|]). split; [exact Hlive|].
  destruct (get_or_create_kernel_existing calm "alice" "/srv/alice" stale _
              Hinv Hfresh Hk) as (_ & Hexp & _).
  destruct (Hexp Hlive) as (_ & _ & _ & _ & _ & Hok & _).
  destruct (get_or_create_kernel calm "alice" "/srv/alice" stale) as [r s'] eqn:E.
  assert (r = Ok (mkKM 2 "/srv/alice")) as ->.
  { change r with (r, s').1. rewrite <- E. vm_compute. done. }
  exists s'. split; [done|]. by apply Hok.
Defined.

(** C3, as stated, fails: the session of "alice" is past its idle
    timeout, and the backend started for her request does not become ready
    within the sixty seconds.  The old session is shut down and removed, as
    the claim says, but no new session is created and returned: the call
    raises the start timeout, and "alice" is left without a session. *)
Lemma expired_owner_backend_fails :
  reachable stale ∧
  kernels (self stale) !! "alice" = Some (mkKM 0 "/data/alice") ∧
  ¬ live "alice" stale ∧
  (get_or_create_kernel sluggish "alice" "/srv/alice" stale).1
  = Raise start_timeout ∧
  EvShutdownKernel 0 true
  ∈ trace (world (get_or_create_kernel sluggish "alice" "/srv/alice" stale).2) ∧
  kernels (self (get_or_create_kernel sluggish "alice" "/srv/alice" stale).2)
  !! "alice" = None.
Proof.
  split.
  { unfold stale. repeat apply reachable_run_ops. apply reachable_boot. }
  split; [vm_compute; done|].
  split; [intros H; vm_compute in H; done|].
  split; [vm_compute; done|].
  split; [|vm_compute; done].
  remember (trace (world (get_or_create_kernel sluggish "alice" "/srv/alice"
                            stale).2)) as tr eqn:E.
  vm_compute in E. subst tr.
  repeat first [apply list_elem_of_here | apply list_elem_of_further].
Qed.

(** ** Session Table: a backend that does not become ready *)

Lemma await_ready_timeout env km s :
  60 * second ≤ (wait_for_ready env (kernel_id km)).1 →
  shutdown_kernel env (kernel_id km) false = None →
  ∃ s', await_ready env km s = (Raise start_timeout, s') ∧
        self s' = self s ∧
        trace (world s')
        = (trace (world s) ++ [EvWaitForReady (kernel_id km);
                               EvShutdownKernel (kernel_id km) false])%list.
Proof.
  intros Hwait Hsd. destruct s as [sf [clk nxt tr lg]].
  unfold await_ready, wait_until_ready, km_shutdown_kernel.
  destruct (wait_for_ready env (kernel_id km)) as [d o]. simpl in Hwait.
  run_monad.
  destruct (Z.ltb_spec d (60 * second)) as [?|_]; [lia|].
  cbn. rewrite Hsd. cbn. eexists. split; [reflexivity|]. simpl.
  by rewrite <- app_assoc.
Qed.

Lemma get_or_create_kernel_begin_starting env u wd s km s1 :
  table_inv s →
  get_or_create_kernel_begin env u wd s = (Ok (Starting km), s1) →
  kernels (self s1) = delete u (kernels (self s)) ∧
  last_activity (self s1) = delete u (last_activity (self s)) ∧
  working_dirs (self s1) = delete u (working_dirs (self s)) ∧
  (kernels (self s) !! u = None → self s1 = self s).
Proof.
  intros Hinv. unfold get_or_create_kernel_begin.
  intros (reused & s0 & Hlook & Hrest)%bind_Ok_inv.
  destruct reused as [km0|]; [done|].
  apply bind_Ok_inv in Hrest as (km' & s1' & Hstart & [= -> ->]).
  pose proof (world_only_start_backend env u wd s0) as Hself.
  rewrite Hstart in Hself. simpl in Hself. rewrite Hself.
  destruct (lookup_live_cases env u s Hinv)
    as [[Hk E]|[(km0 & Hk & _ & E)|(km0 & Hk & _ & E)]];
    rewrite E in Hlook; [|done|]; injection Hlook as <-.
  - destruct (table_inv_absent s u Hinv Hk) as [Hl Hw].
    by rewrite !delete_id.
  - destruct (expired_self env u s Hinv) as (-> & -> & -> & _).
    repeat split; try done. congruence.
Qed.

(** C5, as the code has it.  Let the dictionaries agree, let a call of
    [get_or_create_kernel] get as far as waiting for its new backend, let
    the backend not be ready within the sixty seconds, and let the shutdown
    of that backend return.  Then the call shuts the new backend down and
    raises "Kernel failed to start within 60 seconds".  Afterwards no
    session is registered for the owner: each of the three dictionaries is
    the one from before the call without the key of the owner, so an
    expired session the owner had is gone, the entries of the other owners
    are untouched, and for an owner who had no session the manager is
    unchanged. *)
Theorem start_timeout_spec env u wd s km s1 :
  table_inv s →
  get_or_create_kernel_begin env u wd s = (Ok (Starting km), s1) →
  60 * second ≤ (wait_for_ready env (kernel_id km)).1 →
  shutdown_kernel env (kernel_id km) false = None →
  ∃ s', get_or_create_kernel env u wd s = (Raise start_timeout, s') ∧
    trace (world s')
    = (trace (world s1) ++ [EvWaitForReady (kernel_id km);
                            EvShutdownKernel (kernel_id km) false])%list ∧
    kernels (self s') = delete u (kernels (self s)) ∧
    last_activity (self s') = delete u (last_activity (self s)) ∧
    working_dirs (self s') = delete u (working_dirs (self s)) ∧
    (kernels (self s) !! u = None → self s' = self s).
Proof.
  intros Hinv Hbegin Hwait Hsd.
  destruct (await_ready_timeout env km s1 Hwait Hsd) as (s' & Hready & Hself & Htr).
  destruct (get_or_create_kernel_begin_starting env u wd s km s1 Hinv Hbegin)
    as (Hk & Hl & Hw & Habs).
  exists s'. split.
  - unfold get_or_create_kernel, mbind at 1, M_bind at 1. rewrite Hbegin.
    unfold get_or_create_kernel_resume, mbind, M_bind. by rewrite Hready.
  - rewrite Hself. repeat (split; [done|]). done.
Qed.

Lemma start_timeout_spec_witness :
  table_inv one_session ∧
  ∃ s', get_or_create_kernel sluggish "bob" "/data/bob" one_session
        = (Raise start_timeout, s') ∧
        self s' = self one_session.
Proof.
  assert (table_inv one_session) as Hinv by (vm_compute; done).
  split; [exact Hinv|].
  destruct (get_or_create_kernel_begin sluggish "bob" "/data/bob" one_session)
    as [r s1] eqn:Hbegin.
  assert (r = Ok (Starting (mkKM 1 "/data/bob"))) as ->.
  { change r with (r, s1).1. rewrite <- Hbegin. vm_compute. done. }
  destruct (start_timeout_spec sluggish "bob" "/data/bob" one_session _ s1
              Hinv Hbegin) as (s' & Hrun & _ & _ & _ & _ & Hsame).
  { vm_compute. discriminate. }
  { reflexivity. }
  exists s'. split; [exact Hrun|]. apply Hsame. vm_compute. done.
Defined.

(** C5, as stated, fails: the session of "alice" is past its idle timeout,
    and the backend started for her next request does not become ready.
    The call raises the start timeout, and the table is not what it was:
    the entry "alice" had is gone. *)
Lemma start_timeout_changes_table :
  reachable stale ∧
  kernels (self stale) !! "alice" = Some (mkKM 0 "/data/alice") ∧
  (get_or_create_kernel sluggish "alice" "/data/alice" stale).1
  = Raise start_timeout ∧
  kernels (self (get_or_create_kernel sluggish "alice" "/data/alice" stale).2)
  !! "alice" = None ∧
  kernels (self (get_or_create_kernel sluggish "alice" "/data/alice" stale).2)
  ≠ kernels (self stale).
Proof.
  split.
  { unfold stale. repeat apply reachable_run_ops. apply reachable_boot. }
  assert (kernels (self stale) !! "alice" = Some (mkKM 0 "/data/alice")) as Hk
    by (vm_compute; done).
  assert (kernels (self (get_or_create_kernel sluggish "alice" "/data/alice" stale).2)
          !! "alice" = None) as Hk' by (vm_compute; done).
  split; [exact Hk|]. split; [vm_compute; done|]. split; [exact Hk'|].
  intros Heq. rewrite Heq in Hk'. congruence.
Qed.

(** The thirty silent polls of the bootstrap loop are enough: the loop is
    left because the thirty seconds are over, not because the bound on the
    polls is reached. *)
Lemma init_wait_silent_done fuel start km s :
  instant start ≤ clock (world s) →
  init_timeout - (clock (world s) - instant start) ≤ Z.of_nat fuel * second →
  ∃ s', init_wait_silent fuel start km s = (Ok tt, s') ∧
        init_timeout ≤ clock (world s') - instant start.
Proof.
  revert s. induction fuel as [|fuel IH]; intros s Hle Hfuel;
    cbn [init_wait_silent]; unfold mbind at 1, M_bind at 1, datetime_now, gets at 1;
    unfold timedelta_total_seconds, datetime_sub; cbn [micros instant].
  - destruct (Z.ltb_spec (clock (world s) - instant start) init_timeout);
      [lia | by eexists].
  - destruct (Z.ltb_spec (clock (world s) - instant start) init_timeout);
      [|by eexists].
    destruct s as [sf [clk nxt tr lg]]. simpl in *.
    unfold mbind, M_bind, emit, elapse, modify, set_world. cbn.
    apply IH; simpl; unfold poll_interval, second in *; lia.
Qed.

(** ** Execution Coordinator *)

Example execute_code_sleep :
  (execute_code calm (mkKM 0 "/data/alice") "import time; time.sleep(100)" 2
     one_session).1
  = Raise (mkExn AttributeError
             "'datetime.datetime' object has no attribute 'total_seconds'").
Proof. vm_compute. done. Qed.

(** C1 does not hold of the code.  Whatever the session, the code text, the
    timeout and the backend, [execute_code] returns no result record: it
    raises.  When the submission itself goes through, the exception is the
    [AttributeError] of line 53, where [total_seconds] is asked of a
    [datetime]; this line is outside the [try], so the exception reaches
    the caller and the loop that reads the messages is never entered.  So
    it is for a text that sleeps a hundred seconds, run with a timeout of
    two on the session of "alice". *)
Theorem execute_code_raises :
  (∀ env km code timeout s,
     ∃ e s', execute_code env km code timeout s = (Raise e, s') ∧
       (execute env (kernel_id km) code = None →
        e = mkExn AttributeError
              "'datetime.datetime' object has no attribute 'total_seconds'")) ∧
  (execute_code calm (mkKM 0 "/data/alice") "import time; time.sleep(100)" 2
     one_session).1
  = Raise (mkExn AttributeError
             "'datetime.datetime' object has no attribute 'total_seconds'").
Proof.
  split; [|exact execute_code_sleep].
  intros env km code timeout [sf [clk nxt tr lg]]. unfold execute_code. run_monad.
  destruct (execute env (kernel_id km) code) as [msg|]; cbn.
  - eexists _, _. split; [reflexivity | done].
  - eexists _, _. split; [reflexivity | done].
Qed.


(** * Further properties *)

(** ** A principle for invariants of the table *)

Section Invariant.

(** A property of the state that a change of the world alone does not
    affect, that survives the removal of owners from a table whose
    dictionaries agree, the refreshing of the timestamp of an owner with a
    handle, the registration of a session, and a change of the state of a
    reaper task that exists. *)
Variable P : Sys → Prop.

Hypothesis P_world : ∀ s s', self s' = self s → P s → P s'.
Hypothesis P_removed : ∀ us s s', table_inv s → removed us s s' → P s → P s'.
Hypothesis P_reused :
  ∀ u s, is_Some (kernels (self s) !! u) → P s → P (reused u s).
Hypothesis P_registered : ∀ u wd km s, P s → P (registered u wd km s).
Hypothesis P_task : ∀ t s, P s → P (set_cleanup_task (Some t) s).

Let Q (s : Sys) : Prop := table_inv s ∧ P s.

Lemma keeps_bind {A B} (m : M A) (f : A → M B) :
  keeps Q m → (∀ a, keeps Q (f a)) → keeps Q (m ≫= f).
Proof.
  intros Hm Hf s Hs. unfold mbind, M_bind. specialize (Hm s Hs).
  destruct (m s) as [[a|e] s1]; simpl in *; [|done].
  by apply Hf.
Qed.

Lemma keeps_world_only {A} (m : M A) : world_only m → keeps Q m.
Proof.
  intros Hm s [Hinv HP]. split.
  - by apply keeps_inv_world_only.
  - eapply P_world; [apply Hm | done].
Qed.

Lemma keeps_quiet {A} (m : M A) : quiet m → keeps Q m.
Proof. intros Hm. by apply keeps_world_only, world_only_quiet. Qed.

Lemma keeps_attempt {A} (m : M A) : keeps Q m → keeps Q (attempt m).
Proof.
  intros Hm s Hs. unfold attempt. specialize (Hm s Hs). by destruct (m s).
Qed.

Lemma keeps_set_cleanup_task t : keeps Q (modify (set_cleanup_task (Some t))).
Proof. intros s [Hinv HP]. split; [exact Hinv | by apply P_task]. Qed.

Lemma keeps_cleanup_each env us announce : keeps Q (cleanup_each env us announce).
Proof.
  intros s [Hinv HP].
  destruct (cleanup_each_ok env us announce s Hinv) as (s' & -> & H).
  split; [by eapply removed_table_inv | by eapply P_removed].
Qed.

Lemma keeps_cleanup_kernel env u : keeps Q (cleanup_kernel env u).
Proof.
  intros s [Hinv HP]. rewrite cleanup_kernel_ok by done.
  pose proof (destroyed_removed env u s Hinv) as H.
  split; [by eapply removed_table_inv | by eapply P_removed].
Qed.

Lemma keeps_lookup_live env u : keeps Q (lookup_live env u).
Proof.
  intros s [Hinv HP].
  destruct (lookup_live_cases env u s Hinv)
    as [[_ ->]|[(km & Hk & _ & ->)|(km & Hk & _ & ->)]]; simpl.
  - done.
  - split; [apply reused_table_inv; eauto | apply P_reused; eauto].
  - split; [by apply expired_table_inv|].
    unfold expired. eapply P_removed; [|apply destroyed_removed|].
    + by destruct s as [[] []].
    + by destruct s as [[] []].
    + eapply P_world; [|done]. by destruct s as [[] []].
Qed.

Lemma keeps_register u wd km : keeps Q (register u wd km).
Proof.
  intros s [Hinv HP]. split; [by apply keeps_inv_register|].
  rewrite register_eq. by apply P_registered.
Qed.

Lemma keeps_get_or_create_kernel_begin env u wd :
  keeps Q (get_or_create_kernel_begin env u wd).
Proof.
  unfold get_or_create_kernel_begin.
  apply keeps_bind; [apply keeps_lookup_live|].
  intros [km|]; [apply keeps_quiet, quiet_ret|].
  apply keeps_world_only, world_only_bind; [apply world_only_start_backend|].
  intros; apply world_only_quiet, quiet_ret.
Qed.

Lemma keeps_get_or_create_kernel_resume env u wd km :
  keeps Q (get_or_create_kernel_resume env u wd km).
Proof.
  unfold get_or_create_kernel_resume.
  apply keeps_bind; [apply keeps_quiet, quiet_await_ready|]. intros _.
  apply keeps_bind; [apply keeps_quiet, quiet_bootstrap|]. intros _.
  apply keeps_register.
Qed.

Lemma keeps_get_or_create_kernel env u wd : keeps Q (get_or_create_kernel env u wd).
Proof.
  unfold get_or_create_kernel.
  apply keeps_bind; [apply keeps_get_or_create_kernel_begin|].
  intros [km|km]; [apply keeps_quiet, quiet_ret|].
  apply keeps_get_or_create_kernel_resume.
Qed.

Lemma keeps_cleanup_expired_kernels env : keeps Q (cleanup_expired_kernels env).
Proof.
  unfold cleanup_expired_kernels.
  apply keeps_bind; [apply keeps_quiet, quiet_datetime_now|]. intros now.
  apply keeps_bind; [apply keeps_quiet, quiet_gets|]. intros us.
  apply keeps_cleanup_each.
Qed.

Lemma keeps_periodic_cleanup_turn sweep w :
  keeps Q sweep → keeps Q (periodic_cleanup_turn sweep w).
Proof.
  intros Hsweep. unfold periodic_cleanup_turn. apply keeps_bind.
  - apply keeps_attempt, keeps_bind; [|done].
    apply keeps_quiet, quiet_asyncio_sleep.
  - intros [?|e]; apply keeps_quiet; quiet_tac.
Qed.

Lemma keeps_periodic_cleanup_loop sweep wakes :
  keeps Q sweep → keeps Q (periodic_cleanup_loop sweep wakes).
Proof.
  intros Hsweep. induction wakes as [|w wakes IH]; cbn [periodic_cleanup_loop].
  - apply keeps_quiet, quiet_ret.
  - apply keeps_bind; [by apply keeps_periodic_cleanup_turn|].
    intros [|]; [done | apply keeps_quiet, quiet_ret].
Qed.

Lemma keeps_periodic_cleanup env wakes : keeps Q (_periodic_cleanup env wakes).
Proof. apply keeps_periodic_cleanup_loop, keeps_cleanup_expired_kernels. Qed.

Lemma keeps_start_cleanup_task : keeps Q start_cleanup_task.
Proof.
  unfold start_cleanup_task.
  apply keeps_bind; [apply keeps_quiet, quiet_gets|].
  intros [t|]; [apply keeps_quiet, quiet_ret | apply keeps_set_cleanup_task].
Qed.

Lemma keeps_run_cleanup_task env wakes : keeps Q (run_cleanup_task env wakes).
Proof.
  unfold run_cleanup_task.
  apply keeps_bind; [apply keeps_quiet, quiet_gets|].
  intros [[| | |]|]; try apply keeps_quiet, quiet_ret.
  all: apply keeps_bind; [apply keeps_periodic_cleanup|].
  all: intros; apply keeps_set_cleanup_task.
Qed.

Lemma keeps_cancel_and_await env t : keeps Q (cancel_and_await env t).
Proof.
  unfold cancel_and_await.
  apply keeps_bind; [apply keeps_quiet, quiet_emit|]. intros _.
  apply keeps_bind; [apply keeps_quiet, quiet_emit|]. intros _.
  destruct t.
  - apply keeps_bind; [apply keeps_set_cleanup_task|].
    intros; apply keeps_quiet, quiet_raise.
  - apply keeps_bind; [apply keeps_periodic_cleanup|].
    intros; apply keeps_set_cleanup_task.
  - apply keeps_quiet, quiet_ret.
  - apply keeps_quiet, quiet_raise.
Qed.

Lemma keeps_shutdown_all env : keeps Q (shutdown_all env).
Proof.
  unfold shutdown_all.
  apply keeps_bind; [apply keeps_quiet, quiet_logger|]. intros _.
  apply keeps_bind; [apply keeps_quiet, quiet_gets|]. intros us.
  apply keeps_bind; [apply keeps_cleanup_each|]. intros _.
  apply keeps_bind; [apply keeps_quiet, quiet_gets|].
  intros [t|]; [|apply keeps_quiet, quiet_ret].
  apply keeps_bind; [apply keeps_attempt, keeps_cancel_and_await|].
  intros [?|e]; apply keeps_quiet; quiet_tac.
Qed.

(** Such a property is kept by every operation on a table whose
    dictionaries agree. *)
Lemma run_op_keeps env op s : table_inv s → P s → P (run_op env op s).
Proof.
  intros Hinv HP. assert (Q s) as Hs by done.
  destruct op; cbn [run_op].
  - by apply keeps_get_or_create_kernel.
  - by apply keeps_get_or_create_kernel_begin.
  - by apply keeps_get_or_create_kernel_resume.
  - by apply keeps_cleanup_kernel.
  - by apply keeps_cleanup_expired_kernels.
  - by apply keeps_shutdown_all.
  - by apply keeps_start_cleanup_task.
  - by apply keeps_run_cleanup_task.
Qed.

End Invariant.

(** ** Three invariants by the principle *)

Lemma dirs_inv_removed us s s' :
  table_inv s → removed us s s' → dirs_inv s → dirs_inv s'.
Proof.
  intros _ (Hk & _ & Hw & _) Hd. unfold dirs_inv in *.
  apply set_eq. intros v. rewrite !elem_of_dom, Hk, Hw.
  case_bool_decide; [done|]. rewrite <- !elem_of_dom. by rewrite Hd.
Qed.

Lemma run_op_dirs_inv env op s :
  table_inv s → dirs_inv s → dirs_inv (run_op env op s).
Proof.
  apply (run_op_keeps dirs_inv).
  - intros s0 s' Hs. unfold dirs_inv. by rewrite Hs.
  - apply dirs_inv_removed.
  - intros u s0 _ H. by destruct s0 as [[] []].
  - intros u wd km s0 H. destruct s0 as [[] []]. unfold dirs_inv in *. simpl in *.
    rewrite !dom_insert_L. by rewrite H.
  - intros t s0 H. exact H.
Qed.

Lemma run_op_task_created env op s :
  table_inv s → task_created s → task_created (run_op env op s).
Proof.
  apply (run_op_keeps task_created).
  - intros s0 s' Hs. unfold task_created. by rewrite Hs.
  - intros us s0 s' _ (_ & _ & _ & _ & _ & Ht & _). unfold task_created.
    by rewrite Ht.
  - intros u s0 _ H. by destruct s0 as [[] []].
  - intros u wd km s0 H. by destruct s0 as [[] []].
  - intros t s0 _. by eexists.
Qed.

Lemma run_op_settings tmo cap env op s :
  table_inv s → settings tmo cap s → settings tmo cap (run_op env op s).
Proof.
  apply (run_op_keeps (settings tmo cap)).
  - intros s0 s' Hs. unfold settings. by rewrite Hs.
  - intros us s0 s' _ (_ & _ & _ & Ht & Hc & _). unfold settings.
    by rewrite Ht, Hc.
  - intros u s0 _ H. by destruct s0 as [[] []].
  - intros u wd km s0 H. by destruct s0 as [[] []].
  - intros t s0 H. exact H.
Qed.

Lemma run_ops_invariants tmo cap env ops s :
  table_inv s → dirs_inv s → settings tmo cap s →
  table_inv (run_ops env ops s) ∧ dirs_inv (run_ops env ops s) ∧
  settings tmo cap (run_ops env ops s).
Proof.
  revert s. induction ops as [|op ops IH]; intros s Hinv Hd Hs; [done|].
  apply IH; [by apply run_op_table_inv | by apply run_op_dirs_inv
            | by apply run_op_settings].
Qed.

(** X1.  In every state that operations lead to from start-up, the owners
    with a recorded working directory are exactly the owners with a handle,
    which are exactly the owners with a timestamp.  So the test
    [if user_id in self.working_dirs] of [cleanup_kernel] never fails for an
    owner with a handle. *)
Theorem reachable_dictionaries_agree s :
  reachable s →
  dom (working_dirs (self s)) = dom (kernels (self s)) ∧
  dom (kernels (self s)) = dom (last_activity (self s)).
Proof.
  intros Hr. split; [|by apply reachable_table_inv].
  induction Hr as [tm cap|env op s Hr IH]; [done|].
  apply run_op_dirs_inv; [by apply reachable_table_inv | done].
Qed.

Lemma reachable_dictionaries_agree_witness :
  reachable crowded ∧
  dom (working_dirs (self crowded)) = dom (kernels (self crowded)).
Proof.
  assert (reachable crowded) as Hr.
  { unfold crowded. repeat apply reachable_run_ops. apply reachable_boot. }
  split; [exact Hr|]. exact (proj1 (reachable_dictionaries_agree crowded Hr)).
Defined.

(** X2.  No operation changes the idle timeout or the cap: on a table whose
    dictionaries agree, they are after an operation what they were before
    it, whether the operation returns or raises. *)
Theorem settings_preserved env op s :
  table_inv s →
  timeout (self (run_op env op s)) = timeout (self s) ∧
  max_kernels_per_user (self (run_op env op s)) = max_kernels_per_user (self s).
Proof.
  intros Hinv.
  exact (run_op_settings (timeout (self s)) (max_kernels_per_user (self s))
           env op s Hinv (conj eq_refl eq_refl)).
Qed.

Lemma settings_preserved_witness :
  table_inv one_session ∧
  timeout (self (run_op sluggish (Resolve "bob" "/data/bob") one_session))
  = timeout (self one_session).
Proof.
  assert (table_inv one_session) as Hinv by (vm_compute; done).
  split; [exact Hinv|].
  exact (proj1 (settings_preserved sluggish (Resolve "bob" "/data/bob")
                  one_session Hinv)).
Defined.

(** ** The sweep *)

Lemma expired_users_elem (la : gmap string datetime) now tmo u :
  u ∈ (filter (fun it : string * datetime =>
                 timedelta_geb (datetime_sub now it.2) tmo = true)
              (map_to_list la)).*1
  ↔ ∃ t, la !! u = Some t ∧ micros tmo ≤ instant now - instant t.
Proof.
  rewrite list_elem_of_fmap. split.
  - intros ([k t] & -> & Hin). apply list_elem_of_filter in Hin as [Hge Hin].
    apply elem_of_map_to_list in Hin. exists t. split; [done|].
    unfold timedelta_geb, datetime_sub in Hge. simpl in Hge. lia.
  - intros (t & Ht & Hge). exists (u, t). split; [done|].
    apply list_elem_of_filter. split; [|by apply elem_of_map_to_list].
    unfold timedelta_geb, datetime_sub. simpl. lia.
Qed.

Lemma cleanup_expired_kernels_eq env s :
  cleanup_expired_kernels env s
  = cleanup_each env
      (filter (fun it : string * datetime =>
                 timedelta_geb (datetime_sub (Datetime (clock (world s))) it.2)
                   (timeout (self s)) = true)
              (map_to_list (last_activity (self s)))).*1 true s.
Proof. reflexivity. Qed.

(** X3.  On a table whose dictionaries agree, the sweep returns without
    raising.  With now the instant read at its start (line 172), it removes
    the three entries of exactly those owners whose session
    [get_or_create_kernel] would not hand back at that instant (now minus
    the last activity is at least the idle timeout), and leaves the entries
    of every other owner as they are: the two tests, [<] for the reuse and
    [>=] for the sweep, leave no gap. *)
Theorem sweep_spec env s :
  table_inv s →
  ∃ s', cleanup_expired_kernels env s = (Ok tt, s') ∧
    ∀ u,
      (live u s →
         kernels (self s') !! u = kernels (self s) !! u ∧
         last_activity (self s') !! u = last_activity (self s) !! u ∧
         working_dirs (self s') !! u = working_dirs (self s) !! u) ∧
      (¬ live u s →
         kernels (self s') !! u = None ∧
         last_activity (self s') !! u = None ∧
         working_dirs (self s') !! u = None).
Proof.
  intros Hinv. rewrite cleanup_expired_kernels_eq.
  set (L := (filter _ _).*1).
  destruct (cleanup_each_ok env L true s Hinv)
    as (s' & -> & Hk & Hl & Hw & _).
  exists s'. split; [done|].
  intros u. rewrite Hk, Hl, Hw. unfold live. split.
  - intros Hlive. rewrite bool_decide_eq_false_2; [done|].
    subst L. rewrite expired_users_elem. intros (t & Ht & Hge).
    rewrite Ht in Hlive. simpl in Hge. lia.
  - intros Hdead. case_bool_decide as Hu; [done|].
    destruct (last_activity (self s) !! u) as [t|] eqn:Ht.
    + exfalso. apply Hu. subst L. rewrite expired_users_elem.
      exists t. split; [done|]. simpl. lia.
    + assert (kernels (self s) !! u = None) as Hnone.
      { apply not_elem_of_dom. destruct Hinv as [-> _]. by apply not_elem_of_dom. }
      destruct (table_inv_absent s u Hinv Hnone) as [_ ->]. by rewrite Hnone.
Qed.

Lemma sweep_spec_witness :
  table_inv crowded ∧
  ∃ s', cleanup_expired_kernels stubborn crowded = (Ok tt, s') ∧
        kernels (self s') !! "ann" = None ∧
        kernels (self s') !! "anna" = Some (mkKM 2 "/data/anna").
Proof.
  assert (table_inv crowded) as Hinv by (vm_compute; done).
  split; [exact Hinv|].
  destruct (sweep_spec stubborn crowded Hinv) as (s' & Hrun & H).
  exists s'. split; [exact Hrun|]. split.
  - destruct (H "ann") as [_ Hdead]. apply Hdead.
    intros Hl. vm_compute in Hl. done.
  - destruct (H "anna") as [Hlive _]. destruct Hlive as (-> & _).
    + vm_compute. done.
    + vm_compute. done.
Defined.

Lemma sweep_keeps_live env s :
  table_inv s →
  ∃ s', cleanup_expired_kernels env s = (Ok tt, s') ∧
    ∀ u, live u s → kernels (self s') !! u = kernels (self s) !! u.
Proof.
  intros Hinv. rewrite cleanup_expired_kernels_eq.
  set (L := (filter _ _).*1).
  destruct (cleanup_each_ok env L true s Hinv) as (s' & -> & Hk & _).
  exists s'. split; [done|].
  intros u Hlive. rewrite Hk. unfold live in Hlive.
  rewrite bool_decide_eq_false_2; [done|].
  subst L. rewrite expired_users_elem. intros (t & Ht & Hge).
  rewrite Ht in Hlive. simpl in Hge. lia.
Qed.

(** X4.  After a sweep, every session that is left is handed back as it is:
    a call of [get_or_create_kernel] at that instant, for an owner who still
    has a session, returns that session and shuts nothing down. *)
Theorem sweep_then_resolve env env' u wd s s' km :
  table_inv s →
  cleanup_expired_kernels env s = (Ok tt, s') →
  kernels (self s') !! u = Some km →
  get_or_create_kernel env' u wd s' = (Ok km, reused u s') ∧
  trace (world (reused u s')) = trace (world s').
Proof.
  intros Hinv Hrun Hk.
  rewrite cleanup_expired_kernels_eq in Hrun.
  match type of Hrun with
  | cleanup_each _ ?L _ _ = _ =>
      destruct (cleanup_each_ok env L true s Hinv)
        as (s1 & Hrun1 & Hks & Hl & _ & Htm & _ & _ & Hclk & _)
  end.
  rewrite Hrun1 in Hrun. injection Hrun as ->.
  split; [|by destruct s' as [[] []]].
  apply get_or_create_kernel_live; [done|].
  unfold live. rewrite Hl, Htm, Hclk. rewrite Hks in Hk.
  case_bool_decide as Hu; [done|].
  assert (is_Some (last_activity (self s) !! u)) as [t Ht].
  { by eapply table_inv_lookup. }
  rewrite Ht.
  destruct (Z_lt_le_dec (clock (world s) - instant t) (micros (timeout (self s))))
    as [?|Hge]; [done|].
  exfalso. apply Hu. rewrite expired_users_elem. exists t. split; [done|].
  simpl. lia.
Qed.

Lemma sweep_then_resolve_witness :
  table_inv crowded ∧
  ∃ s', cleanup_expired_kernels calm crowded = (Ok tt, s') ∧
        get_or_create_kernel calm "anna" "/elsewhere" s'
        = (Ok (mkKM 2 "/data/anna"), reused "anna" s').
Proof.
  assert (table_inv crowded) as Hinv by (vm_compute; done).
  split; [exact Hinv|].
  destruct (sweep_keeps_live calm crowded Hinv) as (s' & Hrun & H).
  exists s'. split; [exact Hrun|].
  apply (sweep_then_resolve calm calm "anna" "/elsewhere" crowded s' _ Hinv Hrun).
  rewrite (H "anna").
  - vm_compute. done.
  - vm_compute. done.
Defined.


(** ** Which backends a clean-up shuts down *)

(** X5.  On a table whose dictionaries agree, [shutdown_all] calls the
    immediate shutdown of the backend of every registered session, each
    exactly once, in some order, then cancels and awaits the reaper task if
    there is one, and calls nothing else. *)
Theorem shutdown_all_trace env s :
  table_inv s →
  ∃ s' calls, shutdown_all env s = (Ok tt, s') ∧
    trace (world s')
    = (trace (world s) ++ calls
       ++ match _cleanup_task (self s) with
          | None => []
          | Some _ => [EvCancelTask; EvAwaitTask]
          end)%list ∧
    calls ≡ₚ ((fun it => EvShutdownKernel (kernel_id it.2) true)
              <$> map_to_list (kernels (self s))).
Proof.
  intros Hinv.
  destruct (shutdown_all_outcome env s Hinv) as (s' & Hrun & _ & _ & _ & _ & Htr).
  by eexists s', _.
Qed.

Lemma shutdown_all_trace_witness :
  table_inv two_sessions ∧
  ∃ s' calls, shutdown_all stubborn two_sessions = (Ok tt, s') ∧
    trace (world s')
    = (trace (world two_sessions) ++ calls ++ [EvCancelTask; EvAwaitTask])%list ∧
    calls ≡ₚ [EvShutdownKernel 0 true; EvShutdownKernel 1 true].
Proof.
  assert (table_inv two_sessions) as Hinv by (vm_compute; done).
  split; [exact Hinv|].
  destruct (shutdown_all_trace stubborn two_sessions Hinv)
    as (s' & calls & Hrun & Htr & Hperm).
  exists s', calls. split; [exact Hrun|]. split; [exact Htr|].
  rewrite Hperm.
  assert (((fun it : string * KM => EvShutdownKernel (kernel_id it.2) true)
           <$> map_to_list (kernels (self two_sessions)))
          = [EvShutdownKernel 1 true; EvShutdownKernel 0 true]) as ->
    by (vm_compute; reflexivity).
  apply perm_swap.
Defined.

(** ** The life of the reaper task and of the service *)

(** X6.  The reaper is not started a second time.  [start_cleanup_task]
    creates the task only when there is none; once [shutdown_all] has
    cancelled the task, a further [start_cleanup_task] changes nothing and
    the task never runs a sweep again. *)
Theorem reaper_not_restarted env s :
  table_inv s → is_Some (_cleanup_task (self s)) →
  start_cleanup_task s = (Ok tt, s) ∧
  ∃ s', shutdown_all env s = (Ok tt, s') ∧
    start_cleanup_task s' = (Ok tt, s') ∧
    ∀ env' wakes, run_cleanup_task env' wakes s' = (Ok tt, s').
Proof.
  intros Hinv [t Ht]. split.
  { unfold start_cleanup_task, mbind, M_bind, gets. by rewrite Ht. }
  destruct (shutdown_all_outcome env s Hinv) as (s' & Hrun & _ & _ & _ & Htask & _).
  rewrite Ht in Htask. simpl in Htask.
  exists s'. split; [done|]. split.
  - unfold start_cleanup_task, mbind, M_bind, gets. by rewrite Htask.
  - intros env' wakes. unfold run_cleanup_task, mbind, M_bind, gets.
    rewrite Htask. by destruct t.
Qed.

Lemma reaper_not_restarted_witness :
  table_inv one_session ∧ is_Some (_cleanup_task (self one_session)) ∧
  ∃ s', shutdown_all calm one_session = (Ok tt, s') ∧
        run_cleanup_task calm [Elapsed; Elapsed] s' = (Ok tt, s').
Proof.
  assert (table_inv one_session) as Hinv by (vm_compute; done).
  assert (is_Some (_cleanup_task (self one_session))) as Ht by (by eexists).
  split; [exact Hinv|]. split; [exact Ht|].
  destruct (reaper_not_restarted calm one_session Hinv Ht)
    as (_ & s' & Hrun & _ & Hno).
  exists s'. split; [exact Hrun | apply Hno].
Defined.

Lemma run_ops_table_inv env ops s : table_inv s → table_inv (run_ops env ops s).
Proof.
  revert s. induction ops as [|op ops IH]; intros s Hinv; [done|].
  apply IH. by apply run_op_table_inv.
Qed.

Lemma bind_run {A B} (m : M A) (f : A → M B) s a s1 :
  m s = (Ok a, s1) → (m ≫= f) s = f a s1.
Proof. intros H. unfold mbind, M_bind. by rewrite H. Qed.

Lemma run_ops_task_created env ops s :
  table_inv s → task_created s → task_created (run_ops env ops s).
Proof.
  revert s. induction ops as [|op ops IH]; intros s Hinv Ht; [done|].
  apply IH; [by apply run_op_table_inv | by apply run_op_task_created].
Qed.

(** X7.  The service from start-up to shutdown: whatever happens to the
    state between the two halves of [lifespan], as long as it keeps the
    dictionaries in agreement and the reaper task in place (as every
    operation on the table does), [lifespan] returns, and it leaves no
    session in the table and a reaper task that is no longer running. *)
Theorem lifespan_spec env KERNEL_TIMEOUT MAX_KERNELS serving :
  (∀ s, table_inv s → is_Some (_cleanup_task (self s)) →
        table_inv (serving s) ∧ is_Some (_cleanup_task (self (serving s)))) →
  ∃ s', lifespan env KERNEL_TIMEOUT MAX_KERNELS serving
          (configured KERNEL_TIMEOUT MAX_KERNELS) = (Ok tt, s') ∧
    kernels (self s') = ∅ ∧ last_activity (self s') = ∅ ∧
    working_dirs (self s') = ∅ ∧
    ∃ t, _cleanup_task (self s') = Some t ∧ stopped t.
Proof.
  intros Hserving. unfold lifespan.
  erewrite bind_run by reflexivity.
  erewrite bind_run by reflexivity.
  erewrite bind_run by reflexivity.
  erewrite bind_run by reflexivity.
  erewrite bind_run by reflexivity.
  match goal with
  | |- context [serving ?s0] =>
      destruct (Hserving s0) as [Hinv [t Ht]];
        [split; [done | set_solver] | by eexists |]
  end.
  match goal with
  | |- context [(shutdown_all env ≫= _) ?s1] =>
      destruct (shutdown_all_outcome env s1) as (s2 & Hrun & Hk & Hl & Hw & Ht2 & _);
        [|erewrite (bind_run _ _ _ tt s2) by exact Hrun]
  end.
  { unfold set_world. simpl. by destruct (serving _) as [[] []]. }
  eexists. split; [reflexivity|].
  destruct s2 as [[] []]; simpl in *. repeat (split; [done|]).
  exists (after_cancel t). split; [|apply after_cancel_stopped].
  rewrite Ht2. destruct (serving _) as [[] []]. simpl in *. by rewrite Ht.
Qed.

Lemma lifespan_spec_witness :
  ∃ s', lifespan stubborn 1800 3
          (run_ops calm [Resolve "alice" "/data/alice"; RunReaper [Elapsed]])
          (configured 1800 3) = (Ok tt, s') ∧
        kernels (self s') = ∅.
Proof.
  destruct (lifespan_spec stubborn 1800 3
              (run_ops calm [Resolve "alice" "/data/alice"; RunReaper [Elapsed]]))
    as (s' & Hrun & Hk & _).
  - intros s Hinv Ht. split; [by apply run_ops_table_inv|].
    by apply run_ops_task_created.
  - exists s'. split; [exact Hrun | exact Hk].
Defined.


(** ** The bootstrap loop *)

Lemma init_wait_silent_polled fuel start km s :
  ∃ n c, init_wait_silent fuel start km s = (Ok tt, polled km n c s) ∧
    clock (world s) ≤ c ∧
    c ≤ Z.max (clock (world s)) (instant start + init_timeout + poll_interval).
Proof.
  revert s. induction fuel as [|fuel IH]; intros [sf [clk nxt tr lg]];
    cbn [init_wait_silent]; unfold mbind at 1, M_bind at 1, datetime_now, gets at 1;
    unfold timedelta_total_seconds, datetime_sub; cbn [micros instant clock world].
  - exists 0%nat, clk. unfold polled. simpl. rewrite app_nil_r.
    split; [by destruct (_ <? _) | lia].
  - destruct (Z.ltb_spec (clk - instant start) init_timeout) as [Hlt|Hge].
    + unfold mbind, M_bind, emit, elapse, modify, set_world. cbn.
      match goal with
      | |- context [init_wait_silent fuel start km ?s1] =>
          destruct (IH s1) as (n & c & -> & Hlo & Hhi)
      end.
      exists (S n), c. unfold polled in *. simpl in *.
      split; [by rewrite <- app_assoc|].
      unfold poll_interval, second in *. lia.
    + exists 0%nat, clk. unfold polled. simpl. rewrite app_nil_r.
      split; [done | lia].
Qed.

Lemma init_wait_polled polls start km s :
  ∃ n c, init_wait polls start km s = (Ok tt, polled km n c s) ∧
    clock (world s) ≤ c ∧
    c ≤ Z.max (clock (world s)) (instant start + init_timeout + poll_interval).
Proof.
  revert s. induction polls as [|p polls IH]; intros s; cbn [init_wait].
  { apply init_wait_silent_polled. }
  destruct s as [sf [clk nxt tr lg]].
  unfold mbind at 1, M_bind at 1, datetime_now, gets at 1;
    unfold timedelta_total_seconds, datetime_sub; cbn [micros instant clock world].
  destruct (Z.ltb_spec (clk - instant start) init_timeout) as [Hlt|Hge].
  2: { exists 0%nat, clk. unfold polled. simpl. rewrite app_nil_r.
       split; [done | lia]. }
  assert (∀ d, clk ≤ clk + Z.max 0 (Z.min d poll_interval)
             ≤ instant start + init_timeout + poll_interval) as Hd.
  { intros d. unfold poll_interval, second in *. lia. }
  destruct p as [d m|d msg].
  - unfold mbind, M_bind, emit, elapse, modify, set_world. cbn.
    destruct (is_idle m).
    + exists 1%nat, (clk + Z.max 0 (Z.min d poll_interval)).
      unfold polled. simpl. split; [done|]. specialize (Hd d). lia.
    + match goal with
      | |- context [init_wait polls start km ?s1] =>
          destruct (IH s1) as (n & c & -> & Hlo & Hhi)
      end.
      exists (S n), c. unfold polled in *. simpl in *.
      split; [by rewrite <- app_assoc|]. specialize (Hd d). lia.
  - unfold mbind, M_bind, emit, elapse, modify, set_world. cbn.
    match goal with
    | |- context [init_wait polls start km ?s1] =>
        destruct (IH s1) as (n & c & -> & Hlo & Hhi)
    end.
    exists (S n), c. unfold polled in *. simpl in *.
    split; [by rewrite <- app_assoc|]. specialize (Hd d). lia.
Qed.

(** ** A session is created *)

Lemma start_backend_ok env u wd s :
  count_user_kernels u (kernels (self s)) < max_kernels_per_user (self s) →
  mkdir env wd = None →
  start_kernel env (next_kernel_id (world s)) = None →
  start_channels env (next_kernel_id (world s)) = None →
  start_backend env u wd s
  = (Ok (mkKM (next_kernel_id (world s)) wd), started u wd s).
Proof.
  intros Hq Hm Hs Hc. destruct s as [[ks la dirs tmo cap task] [clk nxt tr lg]].
  simpl in *. unfold start_backend, new_kernel_manager, started. run_monad.
  cbn [kernel_id].
  destruct (Z.leb_spec cap (count_user_kernels u ks)); [lia|].
  rewrite Hm. cbn. rewrite Hs. cbn. rewrite Hc. cbn.
  by rewrite <- !app_assoc.
Qed.

Lemma await_ready_ok env km s :
  (wait_for_ready env (kernel_id km)).1 < 60 * second →
  (wait_for_ready env (kernel_id km)).2 = None →
  await_ready env km s
  = (Ok tt, waited (wait_for_ready env (kernel_id km)).1 km s).
Proof.
  intros Hd Ho. destruct s as [sf [clk nxt tr lg]].
  unfold await_ready, wait_until_ready, waited.
  destruct (wait_for_ready env (kernel_id km)) as [d o]. simpl in *. subst o.
  run_monad.
  destruct (Z.ltb_spec d (60 * second)) as [_|?]; [|lia]. done.
Qed.

Lemma bootstrap_ok env km s :
  execute env (kernel_id km) init_code = None →
  ∃ n c, bootstrap env km s = (Ok tt, polled km n c (submitted km s)) ∧
    clock (world s) ≤ c ≤ clock (world s) + init_timeout + poll_interval.
Proof.
  intros He. unfold bootstrap.
  erewrite bind_run; [|unfold call; rewrite He; reflexivity].
  erewrite bind_run by reflexivity.
  match goal with
  | |- context [init_wait ?polls ?start km ?s1] =>
      destruct (init_wait_polled polls start km s1) as (n & c & -> & Hlo & Hhi)
  end.
  exists n, c. destruct s as [sf [clk nxt tr lg]]. simpl in *.
  split; [done|]. unfold init_timeout, poll_interval, second in *. lia.
Qed.

(** X8.  A session is created for an owner without one, when the quota
    leaves room and the collaborators do their part: the directory can be
    made, the backend and its channels start, the backend is ready within
    the sixty seconds and takes the bootstrap code.  Then the call returns a
    handle with a new identity and the working directory asked for, and
    registers it with now as the time of the last activity.  The calls are
    made in this order: directory, backend, channels, wait, bootstrap code,
    then polls only.  What the backend then answers on the bootstrap code,
    errors or nothing at all, makes no difference. *)
Theorem creation_succeeds env u wd s :
  kernels (self s) !! u = None →
  count_user_kernels u (kernels (self s)) < max_kernels_per_user (self s) →
  mkdir env wd = None →
  start_kernel env (next_kernel_id (world s)) = None →
  start_channels env (next_kernel_id (world s)) = None →
  (wait_for_ready env (next_kernel_id (world s))).1 < 60 * second →
  (wait_for_ready env (next_kernel_id (world s))).2 = None →
  execute env (next_kernel_id (world s)) init_code = None →
  ∃ s' n,
    get_or_create_kernel env u wd s
    = (Ok (mkKM (next_kernel_id (world s)) wd), s') ∧
    kernels (self s') = <[u := mkKM (next_kernel_id (world s)) wd]> (kernels (self s)) ∧
    last_activity (self s')
    = <[u := Datetime (clock (world s'))]> (last_activity (self s)) ∧
    working_dirs (self s') = <[u := wd]> (working_dirs (self s)) ∧
    trace (world s')
    = (trace (world s)
       ++ [EvMkdir wd; EvStartKernel (next_kernel_id (world s));
           EvStartChannels (next_kernel_id (world s));
           EvWaitForReady (next_kernel_id (world s));
           EvExecute (next_kernel_id (world s)) init_code]
       ++ replicate n (EvGetIopubMsg (next_kernel_id (world s))))%list.
Proof.
  intros Hk Hq Hm Hs Hc Hd Ho He.
  rewrite get_or_create_kernel_absent by done.
  erewrite bind_run by (by apply start_backend_ok).
  unfold get_or_create_kernel_resume.
  erewrite bind_run by (by apply await_ready_ok).
  set (km := mkKM (next_kernel_id (world s)) wd) in *.
  destruct (bootstrap_ok env km
              (waited (wait_for_ready env (kernel_id km)).1 km (started u wd s)) He)
    as (n & c & Hboot & _).
  erewrite bind_run by exact Hboot.
  rewrite register_eq. eexists _, n. split; [reflexivity|].
  destruct s as [[ks la dirs tmo cap task] [clk nxt tr lg]]. simpl.
  repeat split. by rewrite <- !app_assoc.
Qed.

Lemma creation_succeeds_witness :
  ∃ s' n,
    get_or_create_kernel stubborn "bob" "/data/bob" one_session
    = (Ok (mkKM 1 "/data/bob"), s') ∧
    kernels (self s') = <[ "bob" := mkKM 1 "/data/bob" ]> (kernels (self one_session)) ∧
    trace (world s')
    = (trace (world one_session)
       ++ [EvMkdir "/data/bob"; EvStartKernel 1; EvStartChannels 1;
           EvWaitForReady 1; EvExecute 1 init_code]
       ++ replicate n (EvGetIopubMsg 1))%list.
Proof.
  destruct (creation_succeeds stubborn "bob" "/data/bob" one_session)
    as (s' & n & Hrun & Hk & _ & _ & Htr).
  - vm_compute. reflexivity.
  - vm_compute. reflexivity.
  - reflexivity.
  - reflexivity.
  - reflexivity.
  - vm_compute. reflexivity.
  - reflexivity.
  - reflexivity.
  - exists s', n. split; [exact Hrun|]. split; [exact Hk | exact Htr].
Defined.

(** ** One owner, two requests *)

Lemma expired_timeout env u s :
  timeout (self (expired env u s)) = timeout (self s).
Proof.
  unfold expired, destroyed. destruct s as [[] []]; simpl. by case_match.
Qed.

(** What a call that returns a session leaves in the table. *)
Lemma get_or_create_kernel_returned env u wd s km s' :
  table_inv s →
  get_or_create_kernel env u wd s = (Ok km, s') →
  kernels (self s') !! u = Some km ∧
  last_activity (self s') !! u = Some (Datetime (clock (world s'))) ∧
  timeout (self s') = timeout (self s).
Proof.
  intros Hinv.
  assert (∀ s0, kernels (self s0) !! u = None →
            get_or_create_kernel env u wd s0 = (Ok km, s') →
            kernels (self s') !! u = Some km ∧
            last_activity (self s') !! u = Some (Datetime (clock (world s'))) ∧
            timeout (self s') = timeout (self s0)) as Habsent.
  { intros s0 Hk0. rewrite get_or_create_kernel_absent by done.
    intros (km0 & s1 & Hstart & Hres)%bind_Ok_inv.
    pose proof (start_backend_world env u wd s0) as [Hs1 _].
    rewrite Hstart in Hs1. simpl in Hs1.
    unfold get_or_create_kernel_resume in Hres.
    apply bind_Ok_inv in Hres as ([] & s2 & Hready & Hres).
    apply bind_Ok_inv in Hres as ([] & s3 & Hboot & Hres).
    rewrite register_eq in Hres. injection Hres as <- <-.
    pose proof (quiet_await_ready env km0 s1) as [Hs2 _].
    rewrite Hready in Hs2. simpl in Hs2.
    pose proof (quiet_bootstrap env km0 s2) as [Hs3 _].
    rewrite Hboot in Hs3. simpl in Hs3.
    assert (self s3 = self s0) as Hself by congruence.
    destruct s3 as [[] []], s0 as [[] []]; simpl in *.
    injection Hself as -> -> -> -> -> ->.
    by rewrite !lookup_insert_eq. }
  destruct (kernels (self s) !! u) as [old|] eqn:Hk; [|by apply Habsent].
  destruct (decide (live u s)) as [Hlive|Hlive].
  - rewrite (get_or_create_kernel_live env u wd s old) by done.
    intros [= <- <-]. destruct s as [[] []]; simpl in *.
    by rewrite lookup_insert_eq.
  - rewrite (get_or_create_kernel_expired env u wd s old) by done.
    intros H. apply Habsent in H; [|by apply expired_lookup].
    by rewrite expired_timeout in H.
Qed.

(** X10.  With an idle timeout above zero, a second request of an owner
    that follows a first one at once gets the same session: the call
    returns the handle the first call returned, whatever working directory
    the second request names, makes no call to any backend and leaves the
    handles as they are. *)
Theorem resolve_twice env env' u wd wd' s km s' :
  table_inv s → 0 < micros (timeout (self s)) →
  get_or_create_kernel env u wd s = (Ok km, s') →
  get_or_create_kernel env' u wd' s' = (Ok km, reused u s') ∧
  kernels (self (reused u s')) = kernels (self s') ∧
  working_dirs (self (reused u s')) = working_dirs (self s') ∧
  trace (world (reused u s')) = trace (world s').
Proof.
  intros Hinv Htm Hrun.
  destruct (get_or_create_kernel_returned env u wd s km s' Hinv Hrun)
    as (Hk & Hl & Ht).
  split.
  - apply get_or_create_kernel_live; [done|].
    unfold live. rewrite Hl, Ht. simpl. lia.
  - destruct (reused_facts u s') as (_ & ? & ? & ?). done.
Qed.

Lemma resolve_twice_witness :
  ∃ s', get_or_create_kernel calm "bob" "/data/bob" one_session
        = (Ok (mkKM 1 "/data/bob"), s') ∧
        get_or_create_kernel sluggish "bob" "/elsewhere" s'
        = (Ok (mkKM 1 "/data/bob"), reused "bob" s').
Proof.
  assert (table_inv one_session) as Hinv by (vm_compute; done).
  destruct (get_or_create_kernel calm "bob" "/data/bob" one_session)
    as [r s'] eqn:Hrun.
  assert (r = Ok (mkKM 1 "/data/bob")) as ->.
  { change r with (r, s').1. rewrite <- Hrun. vm_compute. reflexivity. }
  exists s'. split; [reflexivity|].
  refine (proj1 (resolve_twice calm sluggish "bob" "/data/bob" "/elsewhere"
                   one_session _ s' Hinv _ Hrun)).
  vm_compute. reflexivity.
Defined.

(** X11.  A service configured with an idle timeout of less than sixty
    seconds has an idle timeout of zero, since [KERNEL_TIMEOUT // 60] whole
    minutes are kept.  Then no session is ever handed back: the request that
    follows at once on the one that created a session shuts that session
    down and goes on as for an owner without one. *)
Theorem short_timeout_never_reuses env env' u wd wd' s km s' secs cap :
  0 ≤ secs < 60 →
  timeout (self s) = timeout (self (configured secs cap)) →
  table_inv s →
  get_or_create_kernel env u wd s = (Ok km, s') →
  micros (timeout (self s)) = 0 ∧
  ¬ live u s' ∧
  get_or_create_kernel env' u wd' s'
  = get_or_create_kernel env' u wd' (expired env' u s') ∧
  trace (world (expired env' u s'))
  = (trace (world s') ++ [EvShutdownKernel (kernel_id km) true])%list ∧
  kernels (self (expired env' u s')) !! u = None.
Proof.
  intros Hsecs Hcfg Hinv Hrun.
  assert (micros (timeout (self s)) = 0) as Hzero.
  { rewrite Hcfg. unfold configured, boot, init, timedelta_minutes. simpl.
    rewrite Z.div_small by lia. done. }
  destruct (get_or_create_kernel_returned env u wd s km s' Hinv Hrun)
    as (Hk & Hl & Ht).
  assert (table_inv s') as Hinv'.
  { pose proof (keeps_inv_get_or_create_kernel env u wd s Hinv) as H.
    by rewrite Hrun in H. }
  assert (¬ live u s') as Hdead.
  { unfold live. rewrite Hl, Ht, Hzero. simpl. lia. }
  split; [done|]. split; [done|].
  split; [by eapply get_or_create_kernel_expired|].
  split; [by apply expired_trace | by apply expired_lookup].
Qed.

Lemma short_timeout_never_reuses_witness :
  ∃ s', get_or_create_kernel calm "alice" "/data/alice" (configured 59 3)
        = (Ok (mkKM 0 "/data/alice"), s') ∧
        ¬ live "alice" s' ∧
        kernels (self (expired calm "alice" s')) !! "alice" = None.
Proof.
  assert (table_inv (configured 59 3)) as Hinv by (vm_compute; done).
  destruct (get_or_create_kernel calm "alice" "/data/alice" (configured 59 3))
    as [r s'] eqn:Hrun.
  assert (r = Ok (mkKM 0 "/data/alice")) as ->.
  { change r with (r, s').1. rewrite <- Hrun. vm_compute. reflexivity. }
  destruct (short_timeout_never_reuses calm calm "alice" "/data/alice"
              "/data/alice" (configured 59 3) (mkKM 0 "/data/alice") s' 59 3)
    as (_ & Hdead & _ & _ & Hnone); [lia | reflexivity | exact Hinv | exact Hrun |].
  exists s'. split; [reflexivity|]. split; [exact Hdead | exact Hnone].
Defined.

(** ** The snapshot *)

Lemma kernel_info_entry_info_of is_alive isoformat mgr u km :
  kernel_info_entry is_alive isoformat mgr u km
  = match info_of is_alive isoformat mgr u km with
    | Some info => Ok info
    | None => Raise (PyDict.key_error u)
    end.
Proof.
  unfold kernel_info_entry, info_of, PyDict.getitem.
  by destruct (last_activity mgr !! u).
Qed.

Lemma kernel_info_items_cases is_alive isoformat mgr items :
  (∃ infos, kernel_info_items is_alive isoformat mgr items = Ok infos ∧
     (∀ it, it ∈ items → is_Some (last_activity mgr !! it.1)) ∧
     ∀ u, (list_to_map infos : gmap string KernelInfo) !! u
          = (list_to_map items : gmap string KM) !! u
            ≫= info_of is_alive isoformat mgr u) ∨
  (∃ it, kernel_info_items is_alive isoformat mgr items
         = Raise (PyDict.key_error it.1) ∧
         it ∈ items ∧ last_activity mgr !! it.1 = None).
Proof.
  induction items as [|[v km] items IH]; cbn [kernel_info_items].
  { left. exists []. split; [done|]. split; [by intros it ?%elem_of_nil|].
    intros u. simpl. by rewrite !lookup_empty. }
  rewrite kernel_info_entry_info_of.
  destruct (info_of is_alive isoformat mgr v km) as [info|] eqn:Hinfo.
  2: { right. exists (v, km). split; [done|]. split; [apply elem_of_cons; auto|].
       unfold info_of in Hinfo. simpl. by destruct (last_activity mgr !! v). }
  destruct IH as [(infos & -> & Hall & Hlook)|(it & -> & Hin & Hnone)].
  - left. exists ((v, info) :: infos). split; [done|]. split.
    + intros it [->|Hin]%elem_of_cons; [|by apply Hall].
      unfold info_of in Hinfo. simpl. destruct (last_activity mgr !! v); eauto.
      done.
    + intros u. simpl. rewrite !lookup_insert. case_decide; [subst|apply Hlook].
      simpl. by rewrite Hinfo.
  - right. exists it. split; [done|]. split; [apply elem_of_cons; auto | done].
Qed.

Lemma get_kernel_info_cases is_alive isoformat s :
  (∃ snap, get_kernel_info is_alive isoformat s = (Ok snap, s) ∧
     (∀ u km, kernels (self s) !! u = Some km →
              is_Some (last_activity (self s) !! u)) ∧
     ∀ u, snap !! u
          = kernels (self s) !! u ≫= info_of is_alive isoformat (self s) u) ∨
  (∃ u, get_kernel_info is_alive isoformat s = (Raise (PyDict.key_error u), s) ∧
        is_Some (kernels (self s) !! u) ∧ last_activity (self s) !! u = None).
Proof.
  unfold get_kernel_info, mbind, M_bind, gets, lift.
  destruct (kernel_info_items_cases is_alive isoformat (self s)
              (map_to_list (kernels (self s))))
    as [(infos & -> & Hall & Hlook)|([u km] & -> & Hin & Hnone)].
  - left. exists (list_to_map infos). split; [done|]. split.
    + intros u km Hu. apply (Hall (u, km)). by apply elem_of_map_to_list.
    + intros u. rewrite Hlook. by rewrite list_to_map_to_list.
  - right. exists u. split; [done|]. split; [|done].
    apply elem_of_map_to_list in Hin. eauto.
Qed.

(** X12.  On a table whose dictionaries agree, [get_kernel_info] returns a
    snapshot and changes nothing.  The owners of the snapshot are the owners
    with a handle.  The entry of an owner shows the identity of the
    handle, under the name "created_at" the time of the last activity of
    the owner (which every reuse moves on, not the time of creation), the
    recorded working directory, and whether the backend is alive. *)
Theorem get_kernel_info_spec is_alive isoformat s :
  table_inv s →
  ∃ snap, get_kernel_info is_alive isoformat s = (Ok snap, s) ∧
    dom snap = dom (kernels (self s)) ∧
    ∀ u km, kernels (self s) !! u = Some km →
      ∃ t, last_activity (self s) !! u = Some t ∧
        snap !! u
        = Some (mkKernelInfo (kernel_id km) (isoformat t)
                  (default "unknown" (working_dirs (self s) !! u))
                  (if is_alive (kernel_id km) then "active" else "dead")).
Proof.
  intros Hinv.
  destruct (get_kernel_info_cases is_alive isoformat s)
    as [(snap & Hrun & Hall & Hlook)|(u & _ & [km Hk] & Hnone)].
  2: { destruct (table_inv_lookup s u km Hinv Hk) as [t Ht]. congruence. }
  exists snap. split; [done|]. split.
  - apply set_eq. intros u. rewrite !elem_of_dom, Hlook.
    destruct (kernels (self s) !! u) as [km|] eqn:Hk; simpl.
    + destruct (Hall u km Hk) as [t Ht]. unfold info_of. rewrite Ht.
      split; eauto.
    + split; intros [? ?]; done.
  - intros u km Hk. destruct (Hall u km Hk) as [t Ht]. exists t.
    split; [done|]. rewrite Hlook, Hk. simpl. unfold info_of. by rewrite Ht.
Qed.

Lemma get_kernel_info_spec_witness :
  table_inv one_session ∧
  ∃ snap, get_kernel_info all_alive show_micros one_session = (Ok snap, one_session) ∧
    snap !! "alice" = Some (mkKernelInfo 0 "2000100" "/data/alice" "active").
Proof.
  assert (table_inv one_session) as Hinv by (vm_compute; done).
  split; [exact Hinv|].
  destruct (get_kernel_info_spec all_alive show_micros one_session Hinv)
    as (snap & Hrun & _ & Hsnap).
  exists snap. split; [exact Hrun|].
  destruct (Hsnap "alice" (mkKM 0 "/data/alice")) as (t & Ht & ->).
  { vm_compute. reflexivity. }
  assert (t = Datetime 2000100) as ->.
  { assert (last_activity (self one_session) !! "alice" = Some (Datetime 2000100))
      as Ht' by (vm_compute; reflexivity).
    congruence. }
  assert (working_dirs (self one_session) !! "alice" = Some "/data/alice") as ->
    by (vm_compute; reflexivity).
  reflexivity.
Defined.

(** X13.  When some owner has a handle but no timestamp, [get_kernel_info]
    raises a [KeyError] that names an owner in this condition, and leaves
    the state as it is: the comprehension reads [self.last_activity[user_id]]
    without a test, where it reads the working directory with a default. *)
Theorem get_kernel_info_missing is_alive isoformat s u :
  is_Some (kernels (self s) !! u) →
  last_activity (self s) !! u = None →
  ∃ v, get_kernel_info is_alive isoformat s = (Raise (PyDict.key_error v), s) ∧
       is_Some (kernels (self s) !! v) ∧ last_activity (self s) !! v = None.
Proof.
  intros [km Hk] Hnone.
  destruct (get_kernel_info_cases is_alive isoformat s)
    as [(snap & _ & Hall & _)|H]; [|done].
  destruct (Hall u km Hk) as [t Ht]. congruence.
Qed.

Lemma get_kernel_info_missing_witness :
  is_Some (kernels (self torn) !! "alice") ∧
  last_activity (self torn) !! "alice" = None ∧
  get_kernel_info all_alive show_micros torn
  = (Raise (PyDict.key_error "alice"), torn).
Proof.
  assert (is_Some (kernels (self torn) !! "alice")) as H1
    by (vm_compute; eexists; reflexivity).
  assert (last_activity (self torn) !! "alice" = None) as H2
    by (vm_compute; reflexivity).
  split; [exact H1|]. split; [exact H2|].
  destruct (get_kernel_info_missing all_alive show_micros torn "alice" H1 H2)
    as (v & Hrun & [km Hk] & _).
  assert (v = "alice") as ->; [|exact Hrun].
  assert (kernels (self torn) = {[ "alice" := mkKM 0 "/data/alice" ]}) as Hks
    by (vm_compute; reflexivity).
  rewrite Hks in Hk. by apply lookup_singleton_Some in Hk as [? _].
Defined.

Lemma reachable_dirs_inv s : reachable s → dirs_inv s.
Proof.
  induction 1 as [tm cap|env op s Hr IH]; [done|].
  apply run_op_dirs_inv; [by apply reachable_table_inv | done].
Qed.

Lemma one_session_snapshot :
  ∃ snap,
    get_kernel_info all_alive show_micros one_session = (Ok snap, one_session) ∧
    snap !! "alice" = Some (mkKernelInfo 0 "2000100" "/data/alice" "active").
Proof.
  assert (table_inv one_session) as Hinv by (vm_compute; done).
  destruct (get_kernel_info_cases all_alive show_micros one_session)
    as [(snap & Hrun & _ & Hlook)|(u & _ & [km Hk] & Hnone)].
  - exists snap. split; [exact Hrun|]. rewrite Hlook. vm_compute. reflexivity.
  - destruct (table_inv_lookup one_session u km Hinv Hk) as [t Ht]. congruence.
Qed.

(** X14.  In every state that operations lead to from start-up, the
    snapshot never falls back on "unknown": the working directory an entry
    shows is the one recorded for the owner. *)
Theorem snapshot_shows_recorded_dir is_alive isoformat s snap u info :
  reachable s →
  get_kernel_info is_alive isoformat s = (Ok snap, s) →
  snap !! u = Some info →
  working_dirs (self s) !! u = Some (info_working_dir info).
Proof.
  intros Hr Hrun Hu.
  pose proof (reachable_dirs_inv s Hr) as Hd. unfold dirs_inv in Hd.
  destruct (get_kernel_info_cases is_alive isoformat s)
    as [(snap' & Hrun' & _ & Hlook)|(v & Hrun' & _)]; [|congruence].
  assert (snap' = snap) as -> by congruence.
  rewrite Hlook in Hu.
  destruct (kernels (self s) !! u) as [km|] eqn:Hk; [|done]. simpl in Hu.
  assert (is_Some (working_dirs (self s) !! u)) as [d Hdir].
  { apply elem_of_dom. rewrite Hd. apply elem_of_dom. eauto. }
  unfold info_of in Hu. destruct (last_activity (self s) !! u); [|done].
  injection Hu as <-. by rewrite Hdir.
Qed.

Lemma snapshot_shows_recorded_dir_witness :
  reachable one_session ∧
  ∃ snap info,
    get_kernel_info all_alive show_micros one_session = (Ok snap, one_session) ∧
    snap !! "alice" = Some info ∧
    working_dirs (self one_session) !! "alice" = Some (info_working_dir info).
Proof.
  assert (reachable one_session) as Hr.
  { apply reachable_run_ops, reachable_boot. }
  split; [exact Hr|].
  destruct one_session_snapshot as (snap & Hrun & Hsnap).
  exists snap, (mkKernelInfo 0 "2000100" "/data/alice" "active").
  split; [exact Hrun|]. split; [exact Hsnap|].
  exact (snapshot_shows_recorded_dir all_alive show_micros one_session snap
           "alice" _ Hr Hrun Hsnap).
Defined.

Lemma snapshot_lookup is_alive isoformat s snap :
  get_kernel_info is_alive isoformat s = (Ok snap, s) →
  ∀ u, snap !! u
       = kernels (self s) !! u ≫= info_of is_alive isoformat (self s) u.
Proof.
  intros Hrun.
  destruct (get_kernel_info_cases is_alive isoformat s)
    as [(snap' & Hrun' & _ & Hlook)|(v & Hrun' & _)]; [|congruence].
  by assert (snap' = snap) as -> by congruence.
Qed.

Lemma get_kernel_info_ok is_alive isoformat s :
  table_inv s → ∃ snap, get_kernel_info is_alive isoformat s = (Ok snap, s).
Proof.
  intros Hinv.
  destruct (get_kernel_info_cases is_alive isoformat s)
    as [(snap & Hrun & _)|(u & _ & [km Hk] & Hnone)]; [eauto|].
  destruct (table_inv_lookup s u km Hinv Hk) as [t Ht]. congruence.
Qed.

(** X15.  Destroying the session of an owner takes the owner, and nothing
    else, out of the snapshot: the snapshot after [cleanup_kernel] is the
    one from before without the entry of the owner. *)
Theorem snapshot_after_cleanup env is_alive isoformat u s snap :
  table_inv s →
  get_kernel_info is_alive isoformat s = (Ok snap, s) →
  ∃ s', cleanup_kernel env u s = (Ok tt, s') ∧
        get_kernel_info is_alive isoformat s' = (Ok (delete u snap), s').
Proof.
  intros Hinv Hrun. exists (destroyed env u s).
  split; [by apply cleanup_kernel_ok|].
  pose proof (destroyed_removed env u s Hinv) as Hrem.
  pose proof (removed_table_inv _ _ _ Hinv Hrem) as Hinv'.
  destruct (get_kernel_info_ok is_alive isoformat _ Hinv') as [snap' Hrun'].
  rewrite Hrun'. f_equal. f_equal. apply map_eq. intros v.
  rewrite (snapshot_lookup _ _ _ _ Hrun').
  destruct (destroyed_self env u s Hinv) as (Hk & Hl & Hw & _).
  rewrite Hk. destruct (decide (v = u)) as [->|Hne].
  - by rewrite !lookup_delete_eq.
  - rewrite !lookup_delete_ne by done.
    rewrite (snapshot_lookup _ _ _ _ Hrun).
    destruct (kernels (self s) !! v) as [km|]; [simpl|done].
    unfold info_of. rewrite Hl, Hw. by rewrite !lookup_delete_ne by done.
Qed.

Lemma snapshot_after_cleanup_witness :
  table_inv one_session ∧
  ∃ snap s',
    get_kernel_info all_alive show_micros one_session = (Ok snap, one_session) ∧
    cleanup_kernel calm "alice" one_session = (Ok tt, s') ∧
    get_kernel_info all_alive show_micros s' = (Ok (delete "alice" snap), s').
Proof.
  assert (table_inv one_session) as Hinv by (vm_compute; done).
  split; [exact Hinv|].
  destruct one_session_snapshot as (snap & Hrun & _).
  destruct (snapshot_after_cleanup calm all_alive show_micros "alice"
              one_session snap Hinv Hrun) as (s' & H1 & H2).
  exists snap, s'. split; [exact Hrun|]. split; [exact H1 | exact H2].
Defined.

(** X16.  After a request for a session has returned, by reuse or by
    creation, the snapshot has an entry for the owner, with the identity of
    the handle that was returned, and with the time at which the request
    returned under the name "created_at": for a session that was reused
    this is not the time of its creation. *)
Theorem snapshot_after_resolve env is_alive isoformat u wd s km s' :
  table_inv s →
  get_or_create_kernel env u wd s = (Ok km, s') →
  ∃ snap info,
    get_kernel_info is_alive isoformat s' = (Ok snap, s') ∧
    snap !! u = Some info ∧
    info_kernel_id info = kernel_id km ∧
    info_created_at info = isoformat (Datetime (clock (world s'))) ∧
    info_status info = (if is_alive (kernel_id km) then "active" else "dead").
Proof.
  intros Hinv Hrun.
  destruct (get_or_create_kernel_returned env u wd s km s' Hinv Hrun)
    as (Hk & Hl & _).
  assert (table_inv s') as Hinv'.
  { pose proof (run_op_table_inv env (Resolve u wd) s Hinv) as H.
    simpl in H. by rewrite Hrun in H. }
  destruct (get_kernel_info_ok is_alive isoformat _ Hinv') as [snap Hsnap].
  exists snap. eexists. split; [done|].
  rewrite (snapshot_lookup _ _ _ _ Hsnap), Hk. simpl. unfold info_of.
  rewrite Hl. done.
Qed.

Lemma snapshot_after_resolve_witness :
  table_inv one_session ∧
  ∃ s' snap info,
    get_or_create_kernel calm "alice" "/elsewhere" one_session
    = (Ok (mkKM 0 "/data/alice"), s') ∧
    get_kernel_info all_alive show_micros s' = (Ok snap, s') ∧
    snap !! "alice" = Some info ∧
    info_created_at info = show_micros (Datetime (clock (world s'))).
Proof.
  assert (table_inv one_session) as Hinv by (vm_compute; done).
  split; [exact Hinv|].
  assert (get_or_create_kernel calm "alice" "/elsewhere" one_session
          = (Ok (mkKM 0 "/data/alice"), reused "alice" one_session)) as Hrun.
  { apply get_or_create_kernel_live; vm_compute; done. }
  destruct (snapshot_after_resolve calm all_alive show_micros "alice"
              "/elsewhere" one_session _ _ Hinv Hrun)
    as (snap & info & H1 & H2 & _ & H3 & _).
  exists (reused "alice" one_session), snap, info.
  split; [exact Hrun|]. split; [exact H1|]. split; [exact H2 | exact H3].
Defined.

(** ** The endpoints *)

Lemma snapshot_dom is_alive isoformat s snap :
  get_kernel_info is_alive isoformat s = (Ok snap, s) →
  dom snap = dom (kernels (self s)).
Proof.
  intros Hrun.
  destruct (get_kernel_info_cases is_alive isoformat s)
    as [(snap' & Hrun' & Hall & Hlook)|(v & Hrun' & _)]; [|congruence].
  assert (snap' = snap) as -> by congruence.
  apply set_eq. intros u. rewrite !elem_of_dom, Hlook.
  destruct (kernels (self s) !! u) as [km|] eqn:Hk; simpl.
  - destruct (Hall u km Hk) as [t Ht]. unfold info_of. rewrite Ht.
    split; eauto.
  - split; intros [? ?]; done.
Qed.

(** X17.  On a table whose dictionaries agree, [GET /kernels] answers 404
    in production, and otherwise with the snapshot and with a count that is
    the number [GET /health] reports as [active_kernels], the number of
    handles; neither endpoint changes the state. *)
Theorem kernels_count_is_health is_alive isoformat NODE_ENV s :
  table_inv s →
  ∃ snap,
    get_kernel_info is_alive isoformat s = (Ok snap, s) ∧
    get_kernels is_alive isoformat NODE_ENV s
    = (Ok (if bool_decide (NODE_ENV = Some "production")
           then HTTPException 404 "Not found"
           else Replied (size (kernels (self s)), snap)), s) ∧
    health_check s
    = (Ok (mkHealthResponse "ok" (size (kernels (self s))) "0.1.0"), s).
Proof.
  intros Hinv.
  destruct (get_kernel_info_ok is_alive isoformat s Hinv) as (snap & Hrun).
  exists snap. split; [done|]. split; [|done].
  unfold get_kernels. case_bool_decide; [done|].
  unfold mbind, M_bind. rewrite Hrun. unfold mret, M_ret.
  do 4 f_equal. by rewrite <- !size_dom, (snapshot_dom _ _ _ _ Hrun).
Qed.

Lemma kernels_count_is_health_witness :
  table_inv crowded ∧
  ∃ snap,
    get_kernels all_alive show_micros None crowded
    = (Ok (Replied (size (kernels (self crowded)), snap)), crowded) ∧
    health_check crowded
    = (Ok (mkHealthResponse "ok" (size (kernels (self crowded))) "0.1.0"),
       crowded).
Proof.
  assert (table_inv crowded) as Hinv by (vm_compute; done).
  split; [exact Hinv|].
  destruct (kernels_count_is_health all_alive show_micros None crowded Hinv)
    as (snap & _ & H1 & H2).
  exists snap. split; [exact H1 | exact H2].
Defined.

Lemma execute_code_outcome env km code timeout s :
  execute_code env km code timeout s
  = (Raise (match execute env (kernel_id km) code with
            | Some msg => mkExn OtherException msg
            | None => mkExn AttributeError no_total_seconds
            end),
     (emit (EvExecute (kernel_id km) code) s).2).
Proof.
  destruct s as [sf [clk nxt tr lg]]. unfold execute_code. run_monad.
  by destruct (execute env (kernel_id km) code).
Qed.


Lemma execute_endpoint_valid env compile format_2f request s msg :
  validate_code compile (req_code request) = (true, msg) →
  execute_endpoint env compile format_2f request s
  = match get_or_create_kernel env (req_user_id request)
            (req_working_dir request) (received request s) with
    | (Ok km, s1) =>
        match execute env (kernel_id km) (req_code request) with
        | Some m =>
            (Ok (HTTPException 500 ("Execution failed: " +:+ m)),
             (logger ERROR ("Unexpected error for user "
                            +:+ req_user_id request +:+ ": " +:+ m)
                (emit (EvExecute (kernel_id km) (req_code request)) s1).2).2)
        | None =>
            (Ok (HTTPException 500 ("Execution failed: " +:+ no_total_seconds)),
             (logger ERROR ("Unexpected error for user "
                            +:+ req_user_id request +:+ ": "
                            +:+ no_total_seconds)
                (emit (EvExecute (kernel_id km) (req_code request)) s1).2).2)
        end
    | (Raise e, s1) =>
        match exn_class e with
        | RuntimeError =>
            (Ok (HTTPException 500 (exn_str e)),
             (logger ERROR ("Runtime error for user " +:+ req_user_id request
                            +:+ ": " +:+ exn_str e) s1).2)
        | _ =>
            if is_Exception (exn_class e) then
              (Ok (HTTPException 500 ("Execution failed: " +:+ exn_str e)),
               (logger ERROR ("Unexpected error for user "
                              +:+ req_user_id request +:+ ": " +:+ exn_str e)
                  s1).2)
            else (Raise e, s1)
        end
    end.
Proof.
  intros Hv. unfold execute_endpoint. rewrite Hv. cbn [negb].
  unfold received.
  change ((logger INFO ("Execute request from user " +:+ req_user_id request);;
           ?k) s)
    with (k (logger INFO ("Execute request from user " +:+ req_user_id request)
               s).2).
  set (s0 := (logger INFO _ s).2).
  unfold mbind at 1. unfold M_bind at 1. unfold attempt.
  unfold mbind at 1. unfold M_bind at 1.
  destruct (get_or_create_kernel env (req_user_id request)
              (req_working_dir request) s0) as [[km|e] s1].
  - unfold mbind at 1. unfold M_bind at 1. rewrite execute_code_outcome.
    destruct (execute env (kernel_id km) (req_code request)); reflexivity.
  - destruct e as [[] m]; reflexivity.
Qed.


(** X19.  A request with an accepted text, of an owner without a session
    who is at the quota, is answered with status 500 and with the text
    of the quota error as its detail; the table is left as it is and no
    collaborator is called. *)
Theorem execute_endpoint_quota env compile format_2f request s :
  (validate_code compile (req_code request)).1 = true →
  kernels (self s) !! req_user_id request = None →
  max_kernels_per_user (self s)
    ≤ count_user_kernels (req_user_id request) (kernels (self s)) →
  let out := execute_endpoint env compile format_2f request s in
  out.1 = Ok (HTTPException 500
                ("User " +:+ req_user_id request
                 +:+ " has reached maximum kernel limit ("
                 +:+ pretty (max_kernels_per_user (self s)) +:+ ")")) ∧
  self out.2 = self s ∧
  trace (world out.2) = trace (world s).
Proof.
  intros Hv Hk Hq out. subst out.
  destruct (validate_code compile (req_code request)) as [b msg] eqn:Hv'.
  simpl in Hv. subst b.
  rewrite (execute_endpoint_valid _ _ _ _ _ _ Hv').
  assert (self (received request s) = self s) as Hself
    by (by destruct s as [sf [clk nxt tr lg]]).
  assert (trace (world (received request s)) = trace (world s)) as Htr
    by (by destruct s as [sf [clk nxt tr lg]]).
  assert (get_or_create_kernel env (req_user_id request)
            (req_working_dir request) (received request s)
          = (Raise (quota_exceeded (req_user_id request)
                      (max_kernels_per_user (self s))), received request s))
    as Hrun.
  { rewrite get_or_create_kernel_absent by (by rewrite Hself).
    unfold mbind, M_bind.
    rewrite start_backend_quota by (by rewrite Hself). by rewrite Hself. }
  rewrite Hrun. simpl. split; [done|].
  rewrite <- Hself, <- Htr.
  by destruct (received request s) as [sf [clk nxt tr lg]].
Qed.

Lemma execute_endpoint_quota_witness :
  let request := mkExecuteRequest "ann" "x = 1" "/data/ann" 60 in
  (validate_code toy_compile (req_code request)).1 = true ∧
  kernels (self anna_only) !! "ann" = None ∧
  max_kernels_per_user (self anna_only)
    ≤ count_user_kernels "ann" (kernels (self anna_only)) ∧
  (execute_endpoint calm toy_compile show_seconds request anna_only).1
  = Ok (HTTPException 500 "User ann has reached maximum kernel limit (1)").
Proof.
  intros request.
  assert ((validate_code toy_compile (req_code request)).1 = true) as H1
    by (vm_compute; reflexivity).
  assert (kernels (self anna_only) !! req_user_id request = None) as H2
    by (vm_compute; reflexivity).
  assert (max_kernels_per_user (self anna_only)
          ≤ count_user_kernels (req_user_id request) (kernels (self anna_only)))
    as H3 by (vm_compute; discriminate).
  split; [exact H1|]. split; [exact H2|]. split; [exact H3|].
  destruct (execute_endpoint_quota calm toy_compile show_seconds request
              anna_only H1 H2 H3) as (H & _).
  rewrite H. f_equal.
Defined.

(** X20.  When the text is accepted, the session request returns a handle
    and the submission goes through, the text has been handed to the
    backend of the handle, and the answer is nevertheless status 500 with
    the [AttributeError] of line 53 in its detail.  The table is as the
    session request left it: the session stays registered. *)
Theorem execute_endpoint_submits_then_fails env compile format_2f request s km s1 :
  (validate_code compile (req_code request)).1 = true →
  get_or_create_kernel env (req_user_id request) (req_working_dir request)
    (received request s) = (Ok km, s1) →
  execute env (kernel_id km) (req_code request) = None →
  let out := execute_endpoint env compile format_2f request s in
  out.1 = Ok (HTTPException 500
                "Execution failed: 'datetime.datetime' object has no attribute 'total_seconds'") ∧
  self out.2 = self s1 ∧
  trace (world out.2)
  = (trace (world s1) ++ [EvExecute (kernel_id km) (req_code request)])%list.
Proof.
  intros Hv Hrun Hex out. subst out.
  destruct (validate_code compile (req_code request)) as [b msg] eqn:Hv'.
  simpl in Hv. subst b.
  rewrite (execute_endpoint_valid _ _ _ _ _ _ Hv'), Hrun, Hex.
  by destruct s1 as [sf [clk nxt tr lg]].
Qed.

Lemma execute_endpoint_submits_then_fails_witness :
  let request := mkExecuteRequest "alice" "print(1)" "/data/alice" 60 in
  let out := execute_endpoint calm toy_compile show_seconds request one_session in
  (validate_code toy_compile (req_code request)).1 = true ∧
  out.1 = Ok (HTTPException 500
                "Execution failed: 'datetime.datetime' object has no attribute 'total_seconds'") ∧
  kernels (self out.2) !! "alice" = Some (mkKM 0 "/data/alice") ∧
  trace (world out.2)
  = (trace (world one_session) ++ [EvExecute 0 "print(1)"])%list.
Proof.
  intros request out.
  assert ((validate_code toy_compile (req_code request)).1 = true) as H1
    by (vm_compute; reflexivity).
  assert (get_or_create_kernel calm (req_user_id request)
            (req_working_dir request) (received request one_session)
          = (Ok (mkKM 0 "/data/alice"),
             reused "alice" (received request one_session))) as H2.
  { apply get_or_create_kernel_live; vm_compute; done. }
  destruct (execute_endpoint_submits_then_fails calm toy_compile show_seconds
              request one_session _ _ H1 H2 eq_refl) as (Ha & Hb & Hc).
  split; [exact H1|]. split; [exact Ha|]. subst out. split.
  - rewrite Hb. vm_compute. reflexivity.
  - rewrite Hc. vm_compute. reflexivity.
Defined.

(** ** The denylist and substrings *)

Lemma string_prefix_append p post : String.prefix p (p +:+ post) = true.
Proof.
  induction p as [|a p IH]; [by destruct post|].
  change (String.prefix (String a p) (String a (p +:+ post)) = true).
  cbn [String.prefix]. destruct (ascii_dec a a); [done|congruence].
Qed.

Lemma contains_prefix s p : String.prefix p s = true → PyStr.contains s p = true.
Proof. intros H. destruct s; cbn [PyStr.contains]; by rewrite H. Qed.

Lemma contains_app pre p post : PyStr.contains (pre +:+ p +:+ post) p = true.
Proof.
  induction pre as [|a pre IH].
  - change (PyStr.contains (p +:+ post) p = true).
    apply contains_prefix, string_prefix_append.
  - change (PyStr.contains (String a (pre +:+ p +:+ post)) p = true).
    cbn [PyStr.contains]. rewrite IH. apply orb_true_r.
Qed.

Lemma scan_patterns_first patterns code q :
  scan_patterns patterns code = Some q →
  ∃ l1 l2, patterns = (l1 ++ q :: l2)%list ∧
    PyStr.contains code q = true ∧
    ∀ r, r ∈ l1 → PyStr.contains code r = false.
Proof.
  induction patterns as [|p patterns IH]; simpl; [done|].
  destruct (PyStr.contains code p) eqn:Hp.
  - intros [= <-]. exists [], patterns. split; [done|]. split; [done|].
    by intros r ?%elem_of_nil.
  - intros (l1 & l2 & -> & Hq & Hno)%IH. exists (p :: l1), l2.
    split; [done|]. split; [done|].
    intros r [->|?]%elem_of_cons; auto.
Qed.

(** X21.  No text that has a pattern of the denylist anywhere inside is
    accepted, whatever stands before and after the pattern (a comment or a
    string literal as well) and whatever [compile] says of the text.  The
    reason names the pattern that comes first in the order of the list among
    those that occur in the text, which need not be the one that comes
    first in the text. *)
Theorem validate_code_embedded compile pre p post :
  p ∈ dangerous_patterns →
  ∃ l1 q l2,
    dangerous_patterns = (l1 ++ q :: l2)%list ∧
    validate_code compile (pre +:+ p +:+ post)
    = (false, "Potentially dangerous operation detected: " +:+ q) ∧
    PyStr.contains (pre +:+ p +:+ post) q = true ∧
    ∀ r, r ∈ l1 → PyStr.contains (pre +:+ p +:+ post) r = false.
Proof.
  intros Hp. set (code := pre +:+ p +:+ post).
  pose proof (contains_app pre p post) as Hin. fold code in Hin.
  assert (PyStr.all_space code = false) as Hsp.
  { destruct (PyStr.all_space code) eqn:E; [|done].
    by rewrite (dangerous_not_in_space code p Hp E) in Hin. }
  unfold validate_code.
  destruct (String.eqb_spec code "") as [He|_].
  { rewrite He in Hsp. done. }
  destruct (String.eqb_spec (PyStr.strip code) "") as [Hs|_].
  { apply strip_empty_iff in Hs. congruence. }
  cbn [orb].
  destruct (scan_patterns dangerous_patterns code) as [q|] eqn:Hscan.
  - destruct (scan_patterns_first _ _ _ Hscan) as (l1 & l2 & Heq & Hq & Hno).
    by exists l1, q, l2.
  - rewrite scan_patterns_None in Hscan. rewrite (Hscan p Hp) in Hin. done.
Qed.

Lemma validate_code_embedded_witness :
  "eval(" ∈ dangerous_patterns ∧
  validate_code toy_compile "# never run: eval(x) or os.system(y)"
  = (false, "Potentially dangerous operation detected: os.system").
Proof.
  assert ("eval(" ∈ dangerous_patterns) as Hp.
  { unfold dangerous_patterns. set_solver. }
  split; [exact Hp|].
  destruct (validate_code_embedded toy_compile "# never run: " "eval("
              "x) or os.system(y)" Hp) as (l1 & q & l2 & Heq & Hv & Hq & Hno).
  change ("# never run: " +:+ "eval(" +:+ "x) or os.system(y)")
    with "# never run: eval(x) or os.system(y)" in *.
  rewrite Hv. f_equal. f_equal.
  destruct l1 as [|r l1].
  - by injection Heq as <- _.
  - injection Heq as <- _.
    pose proof (Hno "os.system" (list_elem_of_here _ _)) as H.
    vm_compute in H. done.
Defined.

(** ** The messages of a run *)

(** X22.  Whatever the message, the [if msg_type == ...] chain of the loop
    loses nothing of what was collected: the output parts, the error parts
    and the plots from before are a prefix of those after it.  It never
    turns a failure back into a success, it is an [error] message alone
    that turns a success into a failure, and it leaves the loop for a
    [status] message with the state [idle] and for no other. *)
Theorem classify_accumulates m c :
  output_parts c `prefix_of` output_parts (classify m c).1 ∧
  error_parts c `prefix_of` error_parts (classify m c).1 ∧
  plot_list c `prefix_of` plot_list (classify m c).1 ∧
  (ok (classify m c).1 = true → ok c = true) ∧
  (ok c = true → ok (classify m c).1 = false → ∃ tb, m = MError tb) ∧
  ((classify m c).2 = true ↔ m = MStatus "idle").
Proof.
  destruct m as [text|tb|tp|[png|] [text|]|st|other]; simpl;
    repeat split; try done; try (by apply prefix_app_r);
    try (intros; congruence); eauto.
  - intros ->%String.eqb_eq. done.
  - intros [= ->]. done.
Qed.
